(** * Multi-wallet reward claiming: a model of [hum/multiWalletClaim.js]

    The development embeds the claim scripts of the repository:

    - [hum/multiWalletClaim.js], the continuous multi-wallet script
      (module [Hum]);
    - its earlier interactive variant, whose [claimReward] guards its reward
      query with a [try] of its own and escalates the wait between attempts
      (module [Backoff]);
    - the single-wallet script [clam.js], which claims without asking for
      the reward first (module [Clam]).

    The chain client (ethers), the clock and [Math.random] are the
    environment: a [World] answers every call as a function of the history
    of calls made so far, so that any behaviour of the network, including
    one that changes between two identical calls, is covered.  Every call
    is recorded in a trace, on which the properties are stated.  Console
    output is not modelled.

    Where a script multiplies by a fraction the product is the IEEE double
    nearest to the exact one ([binary64]), and where it works on local time
    the offset from UTC is the one the zone of the host gives
    ([TimeZone]), clock changes included. *)

From Stdlib Require Import ZArith QArith Qround Qpower Qabs String Ascii List Lia.
From stdpp Require Import base list strings pretty.
From Equations Require Import Equations.

Local Open Scope string_scope.
Local Open Scope list_scope.
Local Open Scope Z_scope.
Local Open Scope nat_scope.

(** ** JavaScript values *)

(** A JS string is a Rocq [string]; its characters stand for code units
    below 256.  Text of the source outside that range (the Chinese labels
    of the log lines) is kept in its UTF-8 bytes. *)

(** What a call that may throw gives back: its value, or the [message] of
    the [Error] it throws. *)
Inductive Result (A : Type) : Type :=
| Ok (value : A)
| Throw (message : string).
Arguments Ok {A} value.
Arguments Throw {A} message.

(** ** The loaders: [readPrivateKeys], [readProxies] *)

Definition LF : ascii := "010"%char.

(** The code units below 256 that [String.prototype.trim] strips: the
    WhiteSpace and LineTerminator productions of ECMAScript (TAB, LF, VT, FF,
    CR, SP, NBSP). *)
Definition isWhiteSpace (c : ascii) : bool :=
  match c with
  | "009" | "010" | "011" | "012" | "013" | " " | "160" => true
  | _ => false
  end%char.

(** [content.split('\n')]: the segments between line feeds; a text without
    line feed is one segment, and so is the empty text. *)
Fixpoint split_lines (content : string) : list string :=
  match content with
  | "" => [""]
  | String c rest =>
      if Ascii.eqb c LF then "" :: split_lines rest
      else match split_lines rest with
           | line :: lines => String c line :: lines
           | [] => [String c ""]
           end
  end.

Fixpoint trimStart (s : string) : string :=
  match s with
  | "" => ""
  | String c rest => if isWhiteSpace c then trimStart rest else s
  end.

Fixpoint trimEnd (s : string) : string :=
  match s with
  | "" => ""
  | String c rest =>
      match trimEnd rest with
      | "" => if isWhiteSpace c then "" else String c ""
      | t => String c t
      end
  end.

(** [line.trim()] *)
Definition trim (s : string) : string := trimEnd (trimStart s).

(** [line.length > 0] *)
Definition nonEmpty (s : string) : bool := 0 <? String.length s.

(** [content.split('\n').map(line => line.trim()).filter(line => line.length > 0)] *)
Definition parseLines (content : string) : list string :=
  List.filter nonEmpty (List.map trim (split_lines content)).

(** The part of the file system the loaders see. *)
Inductive FileState : Type :=
| Missing
| Unreadable (message : string)
| Readable (content : string).

Definition FileSystem : Type := string -> FileState.

Definition ENOENT (filePath : string) : string :=
  "ENOENT: no such file or directory, open '" +:+ filePath +:+ "'".

(** [fs.readFileSync(filePath, 'utf8')] *)
Definition readFileSync (fs : FileSystem) (filePath : string) : Result string :=
  match fs filePath with
  | Missing => Throw (ENOENT filePath)
  | Unreadable message => Throw message
  | Readable content => Ok content
  end.

(** [fs.existsSync(filePath)] *)
Definition existsSync (fs : FileSystem) (filePath : string) : bool :=
  match fs filePath with
  | Missing => false
  | _ => true
  end.

(** [readPrivateKeys]: any failure of the read is rethrown as a new [Error]
    whose message is prefixed. *)
Definition readPrivateKeys (fs : FileSystem) (filePath : string)
  : Result (list string) :=
  match readFileSync fs filePath with
  | Ok content => Ok (parseLines content)
  | Throw message => Throw ("读取私钥文件失败: " +:+ message)
  end.

(** [readProxies]: a missing file and a failed read both give [[]]. *)
Definition readProxies (fs : FileSystem) (filePath : string) : list string :=
  if negb (existsSync fs filePath) then []
  else match readFileSync fs filePath with
       | Ok content => parseLines content
       | Throw _ => []
       end.

(** *** What the loaders are to produce

    The contract of the loaders in its own words: the lines of a text are
    the pieces that, joined by line feeds, make up the text; a line is
    trimmed by taking white space off both ends; the non-empty trimmed lines
    are kept, in order. *)

Fixpoint join_lines (lines : list string) : string :=
  match lines with
  | [] => ""
  | [line] => line
  | line :: rest => line +:+ String LF (join_lines rest)
  end.

Fixpoint lineFeedFree (s : string) : bool :=
  match s with
  | "" => true
  | String c rest => negb (Ascii.eqb c LF) && lineFeedFree rest
  end.

Fixpoint allWhiteSpace (s : string) : bool :=
  match s with
  | "" => true
  | String c rest => isWhiteSpace c && allWhiteSpace rest
  end.

Definition startsWithWhiteSpace (s : string) : bool :=
  match s with
  | "" => false
  | String c _ => isWhiteSpace c
  end.

Fixpoint endsWithWhiteSpace (s : string) : bool :=
  match s with
  | "" => false
  | String c "" => isWhiteSpace c
  | String _ rest => endsWithWhiteSpace rest
  end.

(** [t] is [line] without the white space at its ends *)
Definition Trimmed (line t : string) : Prop :=
  exists before after,
    line = before +:+ t +:+ after /\
    allWhiteSpace before = true /\ allWhiteSpace after = true /\
    startsWithWhiteSpace t = false /\ endsWithWhiteSpace t = false.

(** [out] is the sequence of the trimmed non-empty lines among [lines] *)
Inductive TrimmedNonEmpty : list string -> list string -> Prop :=
| tne_nil : TrimmedNonEmpty [] []
| tne_blank line lines out :
    Trimmed line "" -> TrimmedNonEmpty lines out ->
    TrimmedNonEmpty (line :: lines) out
| tne_keep line t lines out :
    Trimmed line t -> t <> "" -> TrimmedNonEmpty lines out ->
    TrimmedNonEmpty (line :: lines) (t :: out).

(** a loaded line: not empty, nothing to trim, no line feed *)
Definition loadedLine (k : string) : Prop :=
  nonEmpty k = true /\ trim k = k /\ lineFeedFree k = true.

(** ** [ethers.formatEther] *)

(** [formatEther] belongs to the ethers library, which the repository only
    calls.  It is modelled from the library's algorithm for printing a
    fixed-point number with 18 decimals: print the absolute value in decimal,
    pad it on the left with zeros until it is longer than the number of
    decimals, insert the point, then trim the zeros on both sides, leaving at
    least one digit on each side of the point. *)

Definition decimals : nat := 18.

(** Inside [formatEther] a string is handled as the list of its
    characters. *)
Definition chars (s : string) : list ascii := list_ascii_of_string s.

(** the block of zeros the padding loop prepends *)
Definition Zeros : list ascii := repeat "0"%char 128.

(** [while (str.length <= decimals) { str = Zeros + str; }]: [Zeros] is
    longer than [decimals], one round is enough. *)
Definition padWhole (str : list ascii) : list ascii :=
  if length str <=? decimals then Zeros ++ str else str.

(** [str.substring(0, index) + "." + str.substring(index)] with
    [index = str.length - decimals] *)
Definition insertPoint (str : list ascii) : list ascii :=
  let index := length str - decimals in
  take index str ++ "."%char :: drop index str.

(** [while (str[0] === "0" && str[1] !== ".") { str = str.substring(1); }] *)
Fixpoint trimWhole (str : list ascii) : list ascii :=
  match str with
  | [] => []
  | c :: rest =>
      if Ascii.eqb c "0" &&
         negb (match rest with d :: _ => Ascii.eqb d "." | [] => false end)
      then trimWhole rest
      else str
  end.

(** [while (str[str.length - 1] === "0" && str[str.length - 2] !== ".")
      { str = str.substring(0, str.length - 1); }]:
    the same loop, run from the other end. *)
Definition trimDecimal (str : list ascii) : list ascii :=
  rev (trimWhole (rev str)).

Definition formatEther (wei : Z) : string :=
  let negative := if (wei <? 0)%Z then "-" else "" in
  let str := chars (pretty (Z.abs_N wei)) in
  negative +:+
  string_of_list_ascii (trimDecimal (trimWhole (insertPoint (padWhole str)))).

(** the characters of the text ["0.0"] *)
Definition zeroOrPoint (c : ascii) : bool := Ascii.eqb c "0" || Ascii.eqb c ".".

(** ** JavaScript numbers

    A JS number is an IEEE 754 double.  The finite doubles are rationals,
    and an arithmetic operation returns the double nearest to the exact
    result, the one with an even significand when two are as near.  The
    exponent is not bounded here: no overflow to [Infinity], no subnormal
    numbers, which is how doubles behave between [2^-1022] and [2^1024]. *)

(** [floor (log2 |x|)] for [x <> 0] *)
Definition magnitude (x : Q) : Z :=
  let l := (Z.log2 (Z.abs (Qnum x)) - Z.log2 (Zpos (Qden x)))%Z in
  if Qle_bool (2 ^ l) (Qabs x) then l else (l - 1)%Z.

(** the integer nearest to [y], the even one of the two when [y] is half
    way between two integers *)
Definition roundEven (y : Q) : Z :=
  let n := Qfloor y in
  match (y - inject_Z n ?= 1 # 2)%Q with
  | Lt => n
  | Eq => if Z.even n then n else (n + 1)%Z
  | Gt => (n + 1)%Z
  end.

(** the double nearest to [x]: [x] rounded to 53 significant bits *)
Definition binary64 (x : Q) : Q :=
  if Qeq_bool x 0 then 0%Q
  else
    let e := (magnitude x - 52)%Z in
    (inject_Z (roundEven (x * 2 ^ (- e))) * 2 ^ e)%Q.

(** [x] is a double *)
Definition isNumber (x : Q) : bool := Qeq_bool (binary64 x) x.

(** ** Configuration *)

(** The constants at the head of the scripts.  [ESCALATION_FACTOR] is the
    decimal literal of the source ([1], [1.5]) as a rational; the number the
    constant holds is the double nearest to it.  The delays and pauses are
    integer literals, which are doubles as they stand up to [2^53]. *)
Record Config : Type := {
  MAX_RETRIES : nat;
  RETRY_DELAY : Z;
  ESCALATION_FACTOR : Q;
  MIN_PAUSE : Z;
  MAX_PAUSE : Z
}.

(** [hum/multiWalletClaim.js] *)
Definition hum_config : Config :=
  {| MAX_RETRIES := 10; RETRY_DELAY := 0; ESCALATION_FACTOR := 1;
     MIN_PAUSE := 10; MAX_PAUSE := 60 |}.

(** the interactive variant with backoff *)
Definition backoff_config : Config :=
  {| MAX_RETRIES := 5; RETRY_DELAY := 5000; ESCALATION_FACTOR := 3 # 2;
     MIN_PAUSE := 30; MAX_PAUSE := 180 |}.

(** [hum/multiWalletClaim.js] set to wait three seconds between attempts *)
Definition steady_config : Config :=
  {| MAX_RETRIES := 10; RETRY_DELAY := 3000; ESCALATION_FACTOR := 1;
     MIN_PAUSE := 10; MAX_PAUSE := 60 |}.

(** The constants of the continuous mode, in hours. *)
Record Schedule : Type := {
  DAILY_CHECK_INTERVAL : Z;
  HOURS_TO_WAIT_AFTER_CLAIM : Z
}.

(** [hum/multiWalletClaim.js] *)
Definition hum_schedule : Schedule :=
  {| DAILY_CHECK_INTERVAL := 1; HOURS_TO_WAIT_AFTER_CLAIM := 23 |}.

Definition claim_log : string := "claim_log.txt".
Definition claim_error_log : string := "claim_error_log.txt".

(** ** The environment *)

Record FeeData : Type := {
  maxFeePerGas : option Z;
  maxPriorityFeePerGas : option Z
}.

Record Receipt : Type := {
  blockNumber : Z;
  hash : string
}.

(** The calls a run makes, in the order it makes them, each with what it
    was given and what came back.  [EvClaimReward] marks the entry of
    [claimReward] with its arguments. *)
Inductive Event : Type :=
| EvRandom (drawn : nat)
| EvNow (ms : Z)
| EvClaimReward (privateKey : string) (proxy : option string)
    (walletIndex totalWallets : nat)
| EvCreateProvider (rpcUrl : string) (proxy : option string)
| EvDailyRewardsAvailable (walletAddress : string) (answer : Result Z)
| EvGetFeeData (answer : Result FeeData)
| EvClaim (walletAddress : string) (answer : Result string)
| EvWait (txHash : string) (answer : Result Receipt)
| EvAppendFile (file line : string)
| EvDelay (ms : Z).

Definition Trace : Type := list Event.

(** The collaborators of the scripts.  The constructors of the library
    ([HttpsProxyAgent], [ethers.Wallet]) depend on their argument only; the
    network calls, the clock and the random source also depend on what
    happened before. *)
Record World : Type := {
  httpsProxyAgent : string -> Result unit;
  walletAddress : string -> Result string;
  dailyRewardsAvailable : Trace -> string -> Result Z;
  getFeeData : Trace -> Result FeeData;
  claimRewardTx : Trace -> string -> FeeData -> Result string;
  txWait : Trace -> string -> Result Receipt;
  clock : Trace -> Z;
  toISOString : Z -> string;
  random : Trace -> nat
}.

(** ** Computations: a trace threaded through, and exceptions *)

Definition M (A : Type) : Type := Trace -> Result A * Trace.

Definition ret {A} (a : A) : M A := fun h => (Ok a, h).

Definition bind {A B} (m : M A) (k : A -> M B) : M B :=
  fun h =>
    match m h with
    | (Ok a, h') => k a h'
    | (Throw message, h') => (Throw message, h')
    end.

(** [try { m } catch (error) { handler(error.message) }] *)
Definition try_catch {A} (m : M A) (handler : string -> M A) : M A :=
  fun h =>
    match m h with
    | (Ok a, h') => (Ok a, h')
    | (Throw message, h') => handler message h'
    end.

(** a call whose answer and record depend on the history *)
Definition call {A} (answer : Trace -> Result A) (record : Result A -> Event)
  : M A :=
  fun h => let r := answer h in (r, h ++ [record r]).

(** an effect that cannot fail *)
Definition emit (e : Event) : M unit := fun h => (Ok tt, h ++ [e]).

Definition lift {A} (r : Result A) : M A := fun h => (r, h).

Notation "'let*' x ':=' m 'in' k" := (bind m (fun x => k))
  (at level 10, x name, m at level 100, k at level 200).
Notation "m ';;' k" := (bind m (fun _ => k))
  (at level 100, k at level 200, right associativity).

(** *** Observations on a trace *)

Definition isAttempt (e : Event) : bool :=
  match e with EvCreateProvider _ _ => true | _ => false end.

(** the reward-claim submissions, by submitting account *)
Definition claims (t : Trace) : list string :=
  omap (fun e => match e with EvClaim a _ => Some a | _ => None end) t.

(** the waits requested *)
Definition delays (t : Trace) : list Z :=
  omap (fun e => match e with EvDelay ms => Some ms | _ => None end) t.

(** the lines appended to [file] *)
Definition appended (file : string) (t : Trace) : list string :=
  omap (fun e => match e with
                 | EvAppendFile f line => if String.eqb f file then Some line else None
                 | _ => None
                 end) t.

(** the calls of [claimReward]: credential and proxy *)
Definition invocations (t : Trace) : list (string * option string) :=
  omap (fun e => match e with
                 | EvClaimReward k p _ _ => Some (k, p)
                 | _ => None
                 end) t.

(** the number of passes through the [try] block, each of which starts by
    creating its provider *)
Definition attempts (t : Trace) : nat := length (List.filter isAttempt t).

(** Events that an attempt adds after creating its provider: calls to the
    chain, the clock, the success log. *)
Definition afterProvider (e : Event) : bool :=
  match e with
  | EvDailyRewardsAvailable _ _ | EvGetFeeData _ | EvClaim _ _ | EvWait _ _
  | EvNow _ => true
  | EvAppendFile f _ => String.eqb f claim_log
  | _ => false
  end.

(** Events that leave the chain and the logs alone. *)
Definition idle (e : Event) : bool :=
  match e with
  | EvRandom _ | EvNow _ | EvDelay _ => true
  | _ => false
  end.

(** ** The scripts *)

(** The choice of the proxy for the wallet at index [i], the same text in
    both scripts: [proxies.length > 0 ? proxies[i % proxies.length] : null] *)
Definition selectProxy (proxies : list string) (i : nat) : option string :=
  if 0 <? length proxies then proxies !! (i mod length proxies) else None.

Section Scripts.

Variable cfg : Config.
Variable W : World.
Variable rpcUrl : string.

(** [delay(ms)] *)
Definition delay (ms : Z) : M unit := emit (EvDelay ms).

(** [new Date()], in milliseconds since the epoch *)
Definition newDate : M Z := fun h => let t := clock W h in (Ok t, h ++ [EvNow t]).

(** [fs.appendFileSync(path.join(__dirname, file), line)]; the log files
    are append-only stores of the model. *)
Definition appendFileSync (file line : string) : M unit :=
  emit (EvAppendFile file line).

(** [Math.floor(Math.random() * n)] for [n >= 1]: some integer of [0, n),
    chosen by the environment. *)
Definition randomBelow (n : nat) : M nat :=
  fun h => let j := random W h mod n in (Ok j, h ++ [EvRandom j]).

(** [getRandomNumber(min, max)] *)
Definition getRandomNumber (min max : Z) : M Z :=
  let* j := randomBelow (Z.to_nat (max - min + 1)) in
  ret (Z.of_nat j + min)%Z.

(** The end of a round of the [for] loop over the wallets, the same text
    in both scripts: [if (i < shuffledKeys.length - 1)], draw a pause and
    wait. *)
Definition randomPause (i total : nat) : M unit :=
  if i <? total - 1 then
    let* pauseSeconds := getRandomNumber (MIN_PAUSE cfg) (MAX_PAUSE cfg) in
    delay (pauseSeconds * 1000)%Z
  else ret tt.

(** [[newArray[i], newArray[j]] = [newArray[j], newArray[i]]]; both
    indices are in range wherever [shuffleArray] swaps. *)
Definition swap {A} (i j : nat) (newArray : list A) : list A :=
  match newArray !! i, newArray !! j with
  | Some x, Some y => <[j := x]> (<[i := y]> newArray)
  | _, _ => newArray
  end.

(** the loop of [shuffleArray], from index [i] down to 1 *)
Fixpoint shuffle_from {A} (i : nat) (newArray : list A) : M (list A) :=
  match i with
  | 0 => ret newArray
  | S i' =>
      let* j := randomBelow (i + 1) in
      shuffle_from i' (swap i j newArray)
  end.

Definition shuffleArray {A} (array : list A) : M (list A) :=
  shuffle_from (length array - 1) array.

(** The part of [createProvider] that may throw: with a proxy, an
    [HttpsProxyAgent] is built from it; [!proxy] holds of [null] and of the
    empty string. *)
Definition proxyAgent (proxy : option string) : Result unit :=
  match proxy with
  | None => Ok tt
  | Some p => if String.eqb p "" then Ok tt else httpsProxyAgent W p
  end.

(** [createProvider(rpcUrl, proxy)] *)
Definition createProvider (proxy : option string) : M unit :=
  emit (EvCreateProvider rpcUrl proxy) ;;
  lift (proxyAgent proxy).

(** [new ethers.Wallet(privateKey, provider).address] *)
Definition newWallet (privateKey : string) : M string :=
  lift (walletAddress W privateKey).

(** [await contract.dailyRewardsAvailable(walletAddress)] *)
Definition queryRewards (address : string) : M Z :=
  call (fun h => dailyRewardsAvailable W h address)
       (EvDailyRewardsAvailable address).

(** [hasClaimedToday(contract, walletAddress)] *)
Definition hasClaimedToday (address : string) : M bool :=
  try_catch
    (let* dailyRewards := queryRewards address in
     let dailyRewardsEth := formatEther dailyRewards in
     if String.eqb dailyRewardsEth "0.0" then ret true else ret false)
    (fun _ => ret false).

(** the line of the success log *)
Definition logEntry (timestamp : string) (walletIndex totalWallets : nat)
    (address txHash : string) : string :=
  timestamp +:+ " - 钱包 " +:+ pretty (walletIndex + 1) +:+ "/" +:+
  pretty totalWallets +:+ " - 地址: " +:+ address +:+ " - 交易哈希: " +:+
  txHash +:+ String LF "".

(** the line of the error log *)
Definition errorEntry (timestamp : string) (walletIndex totalWallets : nat)
    (message : string) (retryCount : nat) : string :=
  timestamp +:+ " - 钱包 " +:+ pretty (walletIndex + 1) +:+ "/" +:+
  pretty totalWallets +:+ " - 错误: " +:+ message +:+ " - 已重试" +:+
  pretty retryCount +:+ "次后失败" +:+ String LF "".

(** From [provider.getFeeData()] to the [return true] that ends the [try]
    block: fee data, submission with a gas limit of 300000, confirmation,
    success log.  The decoding of the receipt's events only feeds the
    console and is left out.  The text is the same in both scripts. *)
Definition submitClaim (address : string) (walletIndex totalWallets : nat)
  : M bool :=
  let* feeData := call (getFeeData W) EvGetFeeData in
  let* tx := call (fun h => claimRewardTx W h address feeData) (EvClaim address) in
  let* receipt := call (fun h => txWait W h tx) (EvWait tx) in
  let* now := newDate in
  let timestamp := toISOString W now in
  appendFileSync claim_log
    (logEntry timestamp walletIndex totalWallets address (hash receipt)) ;;
  ret true.

(** What the [catch] block does once [retryCount >= MAX_RETRIES]. *)
Definition giveUp (message : string) (walletIndex totalWallets retryCount : nat)
  : M bool :=
  let* now := newDate in
  let timestamp := toISOString W now in
  appendFileSync claim_error_log
    (errorEntry timestamp walletIndex totalWallets message retryCount) ;;
  ret false.

End Scripts.

(** The time zone of the host, as ECMAScript's [LocalTZA(t, isUTC)]: the
    offset of local time from UTC, in milliseconds.  [tz t true] is the
    offset in force at the UTC time [t]; [tz t false] is the offset that
    takes the local time [t] back to UTC.  Where the clocks are moved the
    offset changes, and the engine settles which offset a local time that
    is skipped or repeated gets (the one before the transition). *)
Definition TimeZone : Type := Z -> bool -> Z.

(** ** [hum/multiWalletClaim.js] *)

Module Hum.
Section Script.

Variable cfg : Config.
Variable W : World.
Variable rpcUrl : string.

(** The body of the [try] block of [claimReward]. *)
Definition attempt (privateKey : string) (proxy : option string)
    (walletIndex totalWallets : nat) : M bool :=
  createProvider W rpcUrl proxy ;;
  let* address := newWallet W privateKey in
  let* claimed := hasClaimedToday W address in
  if claimed then ret true
  else
    (* the amount is read a second time, for the console *)
    let* dailyRewards := queryRewards W address in
    submitClaim W address walletIndex totalWallets.

(** The [while (retryCount <= MAX_RETRIES)] loop of [claimReward], entered
    with the current [retryCount]. *)
Equations? retryLoop (privateKey : string) (proxy : option string)
    (walletIndex totalWallets : nat) (retryCount : nat) : M bool
    by wf (MAX_RETRIES cfg + 1 - retryCount) lt :=
retryLoop privateKey proxy walletIndex totalWallets retryCount :=
  match decide (retryCount <= MAX_RETRIES cfg) with
  | left _ =>
      try_catch (attempt privateKey proxy walletIndex totalWallets)
        (fun message =>
           match decide (MAX_RETRIES cfg <= retryCount) with
           | left _ => giveUp W message walletIndex totalWallets retryCount
           | right _ =>
               (if (0 <? RETRY_DELAY cfg)%Z then delay (RETRY_DELAY cfg)
                else ret tt) ;;
               retryLoop privateKey proxy walletIndex totalWallets (retryCount + 1)
           end)
  | right _ => ret false
  end.
Proof. lia. Qed.

Definition claimReward (privateKey : string) (proxy : option string)
    (walletIndex totalWallets : nat) : M bool :=
  emit (EvClaimReward privateKey proxy walletIndex totalWallets) ;;
  retryLoop privateKey proxy walletIndex totalWallets 0.

Record CycleStats : Type := {
  successCount : nat;
  skippedCount : nat;
  failCount : nat;
  totalWallets : nat;
  startTime : Z;
  endTime : Z;
  durationMinutes : Z
}.

(** the three counters of [runClaimCycle] *)
Record Counts : Type := {
  nSuccess : nat;
  nSkipped : nat;
  nFail : nat
}.

(** The counting that follows [claimReward] in the loop of
    [runClaimCycle]: a wallet for which it returned [true] is asked once
    more whether it has anything left to claim. *)
Definition tally (privateKey : string) (proxy : option string)
    (success : bool) (c : Counts) : M Counts :=
  if success then
    let* address := newWallet W privateKey in
    createProvider W rpcUrl proxy ;;
    let* claimed := hasClaimedToday W address in
    if claimed
    then ret {| nSuccess := nSuccess c; nSkipped := nSkipped c + 1; nFail := nFail c |}
    else ret {| nSuccess := nSuccess c + 1; nSkipped := nSkipped c; nFail := nFail c |}
  else ret {| nSuccess := nSuccess c; nSkipped := nSkipped c; nFail := nFail c + 1 |}.

(** One round of the [for] loop of [runClaimCycle], for the key at index
    [i] of the [total] shuffled keys. *)
Definition cycleStep (proxies : list string) (total : nat)
    (privateKey : string) (i : nat) (c : Counts) : M Counts :=
  let proxy := selectProxy proxies i in
  let* success := claimReward privateKey proxy i total in
  let* c' := tally privateKey proxy success c in
  randomPause cfg W i total ;;
  ret c'.

(** The [for (let i = ...; i < shuffledKeys.length; i++)] loop, at index [i]
    with the keys from [i] on still to do. *)
Fixpoint cycleLoop (proxies : list string) (total : nat)
    (keys : list string) (i : nat) (c : Counts) : M Counts :=
  match keys with
  | [] => ret c
  | privateKey :: keys' =>
      let* c' := cycleStep proxies total privateKey i c in
      cycleLoop proxies total keys' (i + 1) c'
  end.

(** [Math.round((endTime - startTime) / 60000)] *)
Definition roundMinutes (ms : Z) : Z := ((2 * ms + 60000) / 120000)%Z.

Definition runClaimCycle (privateKeys proxies : list string) : M CycleStats :=
  let* shuffledKeys := shuffleArray W privateKeys in
  let* startTime := newDate W in
  let* c := cycleLoop proxies (length shuffledKeys) shuffledKeys 0
              {| nSuccess := 0; nSkipped := 0; nFail := 0 |} in
  let* endTime := newDate W in
  ret {| successCount := nSuccess c; skippedCount := nSkipped c;
         failCount := nFail c; totalWallets := length shuffledKeys;
         startTime := startTime; endTime := endTime;
         durationMinutes := roundMinutes (endTime - startTime) |}.

(** *** Scheduling *)

Definition msPerHour : Z := 3600000.
Definition msPerDay : Z := 86400000.

Variable sched : Schedule.

(** The time zone of the host. *)
Variable tz : TimeZone.

(** ECMAScript's [LocalTime(t)] and [UTC(t)]. *)
Definition LocalTime (t : Z) : Z := (t + tz t true)%Z.
Definition UTC (t : Z) : Z := (t - tz t false)%Z.

(** [date.getHours()]: [HourFromTime(LocalTime(t))] *)
Definition getHours (date : Z) : Z := ((LocalTime date / msPerHour) mod 24)%Z.

(** [date.setHours(hours)]: with [t = LocalTime(date)], the new time value
    is [UTC(MakeDate(Day(t), MakeTime(hours, MinFromTime(t), SecFromTime(t),
    msFromTime(t))))]: the hour of the local day is replaced, hours past 23
    run over into the following days, and the local time so obtained is
    taken back to UTC with the offset the zone gives that local time.
    ([TimeClip] is the identity on the dates of this millennium.) *)
Definition setHours (date : Z) (hours : Z) : Z :=
  let t := LocalTime date in
  UTC ((t / msPerDay) * msPerDay + (hours * msPerHour + t mod msPerHour))%Z.

Definition calculateNextRunTime (lastRunStats : CycleStats) : M Z :=
  let* now := newDate W in
  if 0 <? successCount lastRunStats then
    let nextRun := now in
    ret (setHours nextRun (getHours nextRun + HOURS_TO_WAIT_AFTER_CLAIM sched))
  else
    let nextRun := now in
    ret (setHours nextRun (getHours nextRun + DAILY_CHECK_INTERVAL sched)).

(** One round of the [while (continuousMode)] loop of [main]: a cycle, then
    the wait until the next run. *)
Definition mainRound (privateKeys proxies : list string) : M unit :=
  let* lastRunStats := runClaimCycle privateKeys proxies in
  let* nextRunTime := calculateNextRunTime lastRunStats in
  let* now := newDate W in
  let waitTimeMs := (nextRunTime - now)%Z in
  delay waitTimeMs.

End Script.
End Hum.

(** ** The interactive variant with backoff *)

Module Backoff.
Section Script.

Variable cfg : Config.
Variable W : World.
Variable rpcUrl : string.

(** The body of the [try] block of [claimReward]; the reward query has a
    [try] of its own, whose [return true] leaves the function. *)
Definition attempt (privateKey : string) (proxy : option string)
    (walletIndex totalWallets : nat) : M bool :=
  createProvider W rpcUrl proxy ;;
  let* address := newWallet W privateKey in
  let* skip :=
    try_catch
      (let* dailyRewards := queryRewards W address in
       let dailyRewardsEth := formatEther dailyRewards in
       if String.eqb dailyRewardsEth "0.0" then ret true else ret false)
      (fun _ => ret false) in
  if skip then ret true
  else submitClaim W address walletIndex totalWallets.

(** the number that the constant [ESCALATION_FACTOR] holds *)
Definition factor : Q := binary64 (ESCALATION_FACTOR cfg).

(** [Math.floor(currentDelay * ESCALATION_FACTOR)]: the product is the
    double nearest to the exact product, and [Math.floor] of a double is
    exact.  [currentDelay] holds an integer that is a double in every run
    that starts from one ([waits_numbers]); for an integer that no double
    holds, which no run meets, the product is taken as it is. *)
Definition escalate (currentDelay : Z) : Z :=
  if isNumber (inject_Z currentDelay)
  then Qfloor (binary64 (inject_Z currentDelay * factor))
  else Qfloor (inject_Z currentDelay * factor).

(** The successive values of [currentDelay] over [retries] rounds of the
    [catch] block, starting from [currentDelay]. *)
Fixpoint waits (retries : nat) (currentDelay : Z) : list Z :=
  match retries with
  | 0 => []
  | S r => currentDelay :: waits r (escalate currentDelay)
  end.

(** The [while (retryCount <= MAX_RETRIES)] loop of [claimReward], entered
    with the current [retryCount] and [currentDelay]. *)
Equations? backoffLoop (privateKey : string) (proxy : option string)
    (walletIndex totalWallets : nat) (retryCount : nat) (currentDelay : Z)
    : M bool by wf (MAX_RETRIES cfg + 1 - retryCount) lt :=
backoffLoop privateKey proxy walletIndex totalWallets retryCount currentDelay :=
  match decide (retryCount <= MAX_RETRIES cfg) with
  | left _ =>
      try_catch (attempt privateKey proxy walletIndex totalWallets)
        (fun message =>
           match decide (MAX_RETRIES cfg <= retryCount) with
           | left _ => giveUp W message walletIndex totalWallets retryCount
           | right _ =>
               delay currentDelay ;;
               backoffLoop privateKey proxy walletIndex totalWallets
                 (retryCount + 1) (escalate currentDelay)
           end)
  | right _ => ret false
  end.
Proof. lia. Qed.

Definition claimReward (privateKey : string) (proxy : option string)
    (walletIndex totalWallets : nat) : M bool :=
  emit (EvClaimReward privateKey proxy walletIndex totalWallets) ;;
  backoffLoop privateKey proxy walletIndex totalWallets 0 (RETRY_DELAY cfg).

(** One round of the [for] loop of [main]; the counters are
    [(successCount, failCount)]. *)
Definition mainStep (proxies : list string) (total : nat)
    (privateKey : string) (i : nat) (c : nat * nat) : M (nat * nat) :=
  let proxy := selectProxy proxies i in
  let* success := claimReward privateKey proxy i total in
  let c' := if success then (fst c + 1, snd c) else (fst c, snd c + 1) in
  randomPause cfg W i total ;;
  ret c'.

Fixpoint mainLoop (proxies : list string) (total : nat)
    (keys : list string) (i : nat) (c : nat * nat) : M (nat * nat) :=
  match keys with
  | [] => ret c
  | privateKey :: keys' =>
      let* c' := mainStep proxies total privateKey i c in
      mainLoop proxies total keys' (i + 1) c'
  end.

(** [main], from the shuffle on, once the user has confirmed. *)
Definition main (privateKeys proxies : list string) : M (nat * nat) :=
  let* shuffledKeys := shuffleArray W privateKeys in
  let* startTime := newDate W in
  let* c := mainLoop proxies (length shuffledKeys) shuffledKeys 0 (0, 0) in
  let* endTime := newDate W in
  ret c.

End Script.
End Backoff.

(** No rounding in the first [retries] escalations from [currentDelay]:
    each delay is a double, and so is its exact product with the factor. *)
Fixpoint exactEscalations (cfg : Config) (retries : nat) (currentDelay : Z)
  : bool :=
  match retries with
  | 0 => true
  | S r =>
      isNumber (inject_Z currentDelay)
      && isNumber (inject_Z currentDelay * Backoff.factor cfg)
      && exactEscalations cfg r (Backoff.escalate cfg currentDelay)
  end.

(** ** The single-wallet script, [clam.js] *)

Module Clam.

(** [readPrivateKey]: the whole file, trimmed, is the key. *)
Definition readPrivateKey (fs : FileSystem) (filePath : string) : Result string :=
  match readFileSync fs filePath with
  | Ok content => Ok (trim content)
  | Throw message => Throw ("读取私钥文件失败: " +:+ message)
  end.

(** the line of the success log *)
Definition logEntry (timestamp address txHash : string) : string :=
  timestamp +:+ " - 地址: " +:+ address +:+ " - 交易哈希: " +:+ txHash +:+
  String LF "".

(** the line of the error log *)
Definition errorEntry (timestamp message : string) (retryCount : nat) : string :=
  timestamp +:+ " - 错误: " +:+ message +:+ " - 已重试" +:+
  pretty retryCount +:+ "次后失败" +:+ String LF "".

Section Script.

Variable cfg : Config.
Variable W : World.
Variable rpcUrl : string.

(** The body of the [try] block of [claimReward].  The provider is made
    without a proxy; the reward is read for the console only, in a [try] of
    its own, and the claim is submitted whatever the answer. *)
Definition attempt (privateKey : string) : M unit :=
  emit (EvCreateProvider rpcUrl None) ;;
  let* walletAddress := newWallet W privateKey in
  try_catch
    (let* dailyRewards := queryRewards W walletAddress in ret tt)
    (fun _ => ret tt) ;;
  let* feeData := call (getFeeData W) EvGetFeeData in
  let* tx := call (fun h => claimRewardTx W h walletAddress feeData)
               (EvClaim walletAddress) in
  let* receipt := call (fun h => txWait W h tx) (EvWait tx) in
  let* now := newDate W in
  let timestamp := toISOString W now in
  appendFileSync claim_log (logEntry timestamp walletAddress (hash receipt)).

(** What the [catch] block does once [retryCount >= MAX_RETRIES], before it
    leaves the loop. *)
Definition giveUp (message : string) (retryCount : nat) : M unit :=
  let* now := newDate W in
  let timestamp := toISOString W now in
  appendFileSync claim_error_log (errorEntry timestamp message retryCount).

(** The [while (retryCount <= MAX_RETRIES)] loop of [claimReward], entered
    with the current [retryCount] and [currentDelay]. *)
Equations? claimLoop (privateKey : string) (retryCount : nat)
    (currentDelay : Z) : M unit
    by wf (MAX_RETRIES cfg + 1 - retryCount) lt :=
claimLoop privateKey retryCount currentDelay :=
  match decide (retryCount <= MAX_RETRIES cfg) with
  | left _ =>
      try_catch (attempt privateKey)
        (fun message =>
           match decide (MAX_RETRIES cfg <= retryCount) with
           | left _ => giveUp message retryCount
           | right _ =>
               delay currentDelay ;;
               claimLoop privateKey (retryCount + 1)
                 (Backoff.escalate cfg currentDelay)
           end)
  | right _ => ret tt
  end.
Proof. lia. Qed.

Definition claimReward (privateKey : string) : M unit :=
  claimLoop privateKey 0 (RETRY_DELAY cfg).

End Script.
End Clam.

(** ** Environments used as examples *)

Definition noFee : FeeData := {| maxFeePerGas := None; maxPriorityFeePerGas := None |}.

(** A network on which every call succeeds; the account of key [k] is
    ["addr:" ++ k], and the reward that can be claimed is given per account
    by [reward], whatever happened before. *)
Definition steadyWorld (reward : string -> Z) : World :=
  {| httpsProxyAgent := fun _ => Ok tt;
     walletAddress := fun k => Ok ("addr:" +:+ k);
     dailyRewardsAvailable := fun _ a => Ok (reward a);
     getFeeData := fun _ => Ok noFee;
     claimRewardTx := fun _ a _ => Ok ("tx:" +:+ a);
     txWait := fun _ tx => Ok {| blockNumber := 1; hash := tx |};
     clock := fun h => Z.of_nat (length h);
     toISOString := fun ms => pretty ms;
     random := fun h => length h |}.

(** The same network, on which the reward query fails every time. *)
Definition queryDown : World :=
  {| httpsProxyAgent := fun _ => Ok tt;
     walletAddress := fun k => Ok ("addr:" +:+ k);
     dailyRewardsAvailable := fun _ _ => Throw "could not decode result data";
     getFeeData := fun _ => Ok noFee;
     claimRewardTx := fun _ a _ => Ok ("tx:" +:+ a);
     txWait := fun _ tx => Ok {| blockNumber := 1; hash := tx |};
     clock := fun h => Z.of_nat (length h);
     toISOString := fun ms => pretty ms;
     random := fun h => length h |}.

(** A network that cannot be reached: the fee data are never obtained, and
    neither is anything else. *)
Definition offline : World :=
  {| httpsProxyAgent := fun _ => Ok tt;
     walletAddress := fun k => Ok ("addr:" +:+ k);
     dailyRewardsAvailable := fun _ _ => Throw "network error";
     getFeeData := fun _ => Throw "network error";
     claimRewardTx := fun _ _ _ => Throw "network error";
     txWait := fun _ _ => Throw "network error";
     clock := fun h => Z.of_nat (length h);
     toISOString := fun ms => pretty ms;
     random := fun h => length h |}.

Definition rewardAB (a : string) : Z :=
  if String.eqb a "addr:A" then 0%Z else 5000000000000000000%Z.

(** A credential file with blank lines and surrounding white space, and no
    proxy file. *)
Definition exampleFiles (filePath : string) : FileState :=
  if String.eqb filePath "pk.txt"
  then Readable (join_lines [" 0xabc "; ""; "0xdef" +:+ String "013" ""; "  "])
  else Missing.

(** *** Further observations on a trace *)

(** a draw of [Math.random] *)
Definition isDraw (e : Event) : bool :=
  match e with EvRandom _ => true | _ => false end.

(** the accounts whose claim was accepted by the chain *)
Definition accepted (t : Trace) : list string :=
  omap (fun e => match e with EvClaim a (Ok _) => Some a | _ => None end) t.

(** A network on which every call succeeds and a reward can be claimed once:
    the reward of an account reads zero from the moment the chain has
    accepted its claim. *)
Definition settledWorld : World :=
  {| httpsProxyAgent := fun _ => Ok tt;
     walletAddress := fun k => Ok ("addr:" +:+ k);
     dailyRewardsAvailable := fun h a =>
       if existsb (String.eqb a) (accepted h) then Ok 0%Z
       else Ok 5000000000000000000%Z;
     getFeeData := fun _ => Ok noFee;
     claimRewardTx := fun _ a _ => Ok ("tx:" +:+ a);
     txWait := fun _ tx => Ok {| blockNumber := 1; hash := tx |};
     clock := fun h => Z.of_nat (length h);
     toISOString := fun ms => pretty ms;
     random := fun h => length h |}.

(** A network on which every call succeeds and the reward of an account is
    [reward] until the chain has accepted a claim of the account, and zero
    from then on. *)
Definition claimOnceWorld (reward : string -> Z) : World :=
  {| httpsProxyAgent := fun _ => Ok tt;
     walletAddress := fun k => Ok ("addr:" +:+ k);
     dailyRewardsAvailable := fun h a =>
       if existsb (String.eqb a) (accepted h) then Ok 0%Z else Ok (reward a);
     getFeeData := fun _ => Ok noFee;
     claimRewardTx := fun _ a _ => Ok ("tx:" +:+ a);
     txWait := fun _ tx => Ok {| blockNumber := 1; hash := tx |};
     clock := fun h => Z.of_nat (length h);
     toISOString := fun ms => pretty ms;
     random := fun h => length h |}.

(** A zone whose clocks are never moved. *)
Definition fixedZone (offset : Z) : TimeZone := fun _ _ => offset.



(** The first [rounds] rounds of the [while (continuousMode)] loop of [main]
    in [hum/multiWalletClaim.js]; [continuousMode] is never reset, so the
    loop has no last round. *)
Fixpoint mainRounds (cfg : Config) (W : World) (rpcUrl : string)
    (sched : Schedule) (tz : TimeZone) (privateKeys proxies : list string)
    (rounds : nat) : M unit :=
  match rounds with
  | 0 => ret tt
  | S rounds' =>
      Hum.mainRound cfg W rpcUrl sched tz privateKeys proxies ;;
      mainRounds cfg W rpcUrl sched tz privateKeys proxies rounds'
  end.

(** the wallets counted so far in a cycle *)
Definition countsTotal (c : Hum.Counts) : nat :=
  Hum.nSuccess c + Hum.nSkipped c + Hum.nFail c.

(** * Properties *)

(** ** Sanity checks of the model *)

Example formatEther_0 : formatEther 0 = "0.0".
Proof. vm_compute. reflexivity. Qed.
Example formatEther_1 : formatEther 1 = "0.000000000000000001".
Proof. vm_compute. reflexivity. Qed.
Example formatEther_2 : formatEther 1500000000000000000 = "1.5".
Proof. vm_compute. reflexivity. Qed.
Example formatEther_3 : formatEther (-12000000000000000000) = "-12.0".
Proof. vm_compute. reflexivity. Qed.
Example formatEther_4 : formatEther 123456789012345678901234567890 = "123456789012.34567890123456789".
Proof. vm_compute. reflexivity. Qed.
Example parseLines_1 :
  parseLines (" 0xabc " +:+ String "013" (String LF (String LF "key2")))
  = ["0xabc"; "key2"].
Proof. vm_compute. reflexivity. Qed.
Example split_lines_1 :
  split_lines (String "a" (String LF (String LF "")))= ["a"; ""; ""].
Proof. vm_compute. reflexivity. Qed.

(** The doubles nearest to 1.15 and to 0.1, and what [Math.floor(d * 1.15)]
    gives for 100 and for 20. *)
Example binary64_1 : binary64 (115 # 100) = 5179139571476070 # 4503599627370496.
Proof. reflexivity. Qed.
Example binary64_2 : binary64 (1 # 10) = 7205759403792794 # 72057594037927936.
Proof. reflexivity. Qed.
Example binary64_3 :
  Qfloor (binary64 (100 * binary64 (115 # 100))) = 114%Z /\
  Qfloor (binary64 (20 * binary64 (115 # 100))) = 23%Z /\
  Qfloor (binary64 (16875 * binary64 (3 # 2))) = 25312%Z.
Proof. by vm_compute. Qed.
Example binary64_4 :
  binary64 (inject_Z (2 ^ 53 + 1)) = inject_Z (2 ^ 53) /\
  binary64 (inject_Z (2 ^ 53 + 3)) = inject_Z (2 ^ 53 + 4).
Proof. by vm_compute. Qed.

(** ** [formatEther] prints ["0.0"] for zero only *)

Lemma trimWhole_zeros (str : list ascii) :
  forallb zeroOrPoint (trimWhole str) = true -> forallb zeroOrPoint str = true.
Proof.
  induction str as [|c rest IH]; simpl; [done|].
  destruct (Ascii.eqb c "0") eqn:Hc; simpl; [|done].
  destruct (negb _); simpl; [|done].
  intros H. unfold zeroOrPoint at 1. rewrite Hc. simpl. auto.
Qed.

Lemma forallb_rev {A} (f : A -> bool) (l : list A) :
  forallb f (rev l) = forallb f l.
Proof.
  induction l as [|x l IH]; simpl; [done|].
  rewrite forallb_app, IH. simpl. rewrite andb_true_r. apply andb_comm.
Qed.

Lemma trimDecimal_zeros (str : list ascii) :
  forallb zeroOrPoint (trimDecimal str) = true -> forallb zeroOrPoint str = true.
Proof.
  unfold trimDecimal. rewrite forallb_rev. intros H%trimWhole_zeros.
  by rewrite forallb_rev in H.
Qed.

Lemma insertPoint_zeros (str : list ascii) :
  forallb zeroOrPoint (insertPoint str) = true -> forallb zeroOrPoint str = true.
Proof.
  unfold insertPoint. rewrite forallb_app. simpl.
  intros [H1 H2]%andb_prop.
  rewrite <- (take_drop (length str - decimals) str), forallb_app, H1, H2. done.
Qed.

Lemma padWhole_zeros (str : list ascii) :
  forallb zeroOrPoint (padWhole str) = true -> forallb zeroOrPoint str = true.
Proof.
  unfold padWhole. destruct (_ <=? _); [|done].
  rewrite forallb_app. by intros [_ H]%andb_prop.
Qed.

Lemma pretty_N_char_zero (r : N) :
  (r < 10)%N -> zeroOrPoint (pretty_N_char r) = true -> r = 0%N.
Proof.
  intros Hr.
  assert (r = 0 ∨ r = 1 ∨ r = 2 ∨ r = 3 ∨ r = 4 ∨ r = 5 ∨ r = 6 ∨ r = 7
          ∨ r = 8 ∨ r = 9)%N as H by lia.
  repeat (destruct H as [->|H]; [by vm_compute|]). subst r. by vm_compute.
Qed.

(** The digits of a positive number are not all zeros, whatever follows
    them. *)
Lemma pretty_N_go_zeros (x : N) (s : string) :
  forallb zeroOrPoint (chars (pretty_N_go x s)) = true ->
  x = 0%N /\ forallb zeroOrPoint (chars s) = true.
Proof.
  revert s. induction (N.lt_wf_0 x) as [x _ IH]. intros s.
  destruct (decide (x = 0%N)) as [->|Hx].
  { rewrite pretty_N_go_0. auto. }
  rewrite pretty_N_go_step by lia.
  intros H. apply IH in H; [|apply N.div_lt; lia].
  destruct H as [Hdiv H]. simpl in H. apply andb_prop in H as [Hc Hs].
  apply pretty_N_char_zero in Hc; [|apply N.mod_lt; lia].
  pose proof (N.div_mod x 10). lia.
Qed.

Lemma pretty_N_zeros (x : N) :
  forallb zeroOrPoint (chars (pretty x)) = true -> x = 0%N.
Proof.
  unfold pretty, pretty_N. destruct (decide (x = 0%N)); [done|].
  by intros [? _]%pretty_N_go_zeros.
Qed.

Lemma formatEther_zero_iff (wei : Z) : formatEther wei = "0.0" <-> wei = 0%Z.
Proof.
  split; [|intros ->; by vm_compute].
  unfold formatEther. destruct (wei <? 0)%Z eqn:Hneg.
  { change ("-" +:+ ?s) with (String "-" s). discriminate. }
  change ("" +:+ ?s) with s. intros H.
  assert (forallb zeroOrPoint
            (trimDecimal (trimWhole (insertPoint (padWhole (chars (pretty (Z.abs_N wei)))))))
          = true) as Hz.
  { rewrite <- (list_ascii_of_string_of_list_ascii (trimDecimal _)), H.
    by vm_compute. }
  apply trimDecimal_zeros, trimWhole_zeros, insertPoint_zeros, padWhole_zeros,
    pretty_N_zeros in Hz.
  apply Z.ltb_ge in Hneg. lia.
Qed.

(** ** The loaders *)

Lemma append_String (c : ascii) (a s : string) :
  String c a +:+ s = String c (a +:+ s).
Proof. reflexivity. Qed.

Lemma append_empty_r (s : string) : s +:+ "" = s.
Proof. induction s as [|c s IH]; [done|]. by rewrite append_String, IH. Qed.

Lemma append_assoc (a b c : string) : (a +:+ b) +:+ c = a +:+ (b +:+ c).
Proof. induction a as [|x a IH]; [done|]. by rewrite !append_String, IH. Qed.

Lemma split_lines_nonempty (content : string) : split_lines content <> [].
Proof.
  destruct content as [|c rest]; simpl; [done|].
  destruct (Ascii.eqb c LF); [done|]. by destruct (split_lines rest).
Qed.

(** Splitting undoes joining: the lines of a text are determined by it. *)
Lemma split_join_lines (lines : list string) :
  lines <> [] -> forallb lineFeedFree lines = true ->
  split_lines (join_lines lines) = lines.
Proof.
  induction lines as [|line rest IH]; [done|]. intros _ Hfree.
  simpl in Hfree. apply andb_prop in Hfree as [Hline Hrest].
  destruct rest as [|line' rest].
  - clear IH Hrest. simpl. induction line as [|c line IHl]; [done|].
    simpl in *. apply andb_prop in Hline as [Hc Hline].
    destruct (Ascii.eqb c LF); [done|]. by rewrite (IHl Hline).
  - specialize (IH ltac:(done) Hrest).
    change (join_lines (line :: line' :: rest))
      with (line +:+ String LF (join_lines (line' :: rest))).
    induction line as [|c line IHl].
    + change ("" +:+ ?s) with s.
      change (split_lines (String LF ?s)) with ("" :: split_lines s).
      by rewrite IH.
    + simpl in Hline. apply andb_prop in Hline as [Hc Hline].
      rewrite append_String. cbn [split_lines].
      destruct (Ascii.eqb c LF); [done|]. by rewrite (IHl Hline).
Qed.

Lemma join_split_lines (content : string) :
  join_lines (split_lines content) = content /\
  forallb lineFeedFree (split_lines content) = true.
Proof.
  induction content as [|c rest [IHj IHf]]; [done|]. simpl.
  destruct (Ascii.eqb c LF) eqn:Hc.
  - apply Ascii.eqb_eq in Hc as ->. split.
    + pose proof (split_lines_nonempty rest).
      destruct (split_lines rest) as [|l ls] eqn:E; [done|].
      change (join_lines ("" :: l :: ls)) with (String LF (join_lines (l :: ls))).
      by rewrite IHj.
    + simpl. done.
  - pose proof (split_lines_nonempty rest).
    destruct (split_lines rest) as [|l ls] eqn:E; [done|]. split.
    + destruct ls as [|l' ls].
      * simpl in *. by rewrite IHj.
      * change (join_lines (String c l :: l' :: ls))
          with (String c (l +:+ String LF (join_lines (l' :: ls)))).
        by rewrite <- IHj.
    + simpl in *. by rewrite Hc.
Qed.

Lemma trimStart_spec (s : string) :
  exists before,
    s = before +:+ trimStart s /\ allWhiteSpace before = true /\
    startsWithWhiteSpace (trimStart s) = false.
Proof.
  induction s as [|c rest (before & Heq & Hws & Hstart)].
  - by exists "".
  - simpl. destruct (isWhiteSpace c) eqn:Hc.
    + exists (String c before). rewrite append_String, <- Heq. simpl.
      by rewrite Hc, Hws.
    + exists "". simpl. by rewrite Hc.
Qed.

Lemma trimEnd_spec (s : string) :
  exists after,
    s = trimEnd s +:+ after /\ allWhiteSpace after = true /\
    endsWithWhiteSpace (trimEnd s) = false /\
    (startsWithWhiteSpace s = false ->
     startsWithWhiteSpace (trimEnd s) = false).
Proof.
  induction s as [|c rest (after & Heq & Hws & Hend & _)].
  - by exists "".
  - simpl. destruct (trimEnd rest) as [|d t] eqn:E.
    + destruct (isWhiteSpace c) eqn:Hc.
      * exists (String c rest). simpl. rewrite Hc. simpl in Heq.
        change ("" +:+ after) with after in Heq. by rewrite Heq, Hws.
      * exists after. rewrite append_String. simpl. rewrite Hc.
        by rewrite <- Heq.
    + exists after. rewrite append_String, <- Heq. simpl. auto.
Qed.

Lemma trim_Trimmed (line : string) : Trimmed line (trim line).
Proof.
  unfold trim.
  destruct (trimStart_spec line) as (before & Heq & Hws & Hstart).
  destruct (trimEnd_spec (trimStart line)) as (after & Heq' & Hws' & Hend & Hkeep).
  exists before, after. rewrite <- Heq'. repeat split; auto.
Qed.

Lemma nonEmpty_spec (s : string) : nonEmpty s = true <-> s <> "".
Proof. destruct s; unfold nonEmpty; simpl; split; done. Qed.

Lemma parse_TrimmedNonEmpty (lines : list string) :
  TrimmedNonEmpty lines (List.filter nonEmpty (List.map trim lines)).
Proof.
  induction lines as [|line lines IH]; simpl; [constructor|].
  destruct (nonEmpty (trim line)) eqn:E.
  - apply tne_keep; [apply trim_Trimmed| by apply nonEmpty_spec | done].
  - apply tne_blank; [|done].
    assert (trim line = "") as Ht.
    { destruct (trim line); [done|]. discriminate. }
    rewrite <- Ht. apply trim_Trimmed.
Qed.

(** ** JavaScript numbers *)

Lemma two_neq_0 : ~ (2 == 0)%Q.
Proof. discriminate. Qed.

Lemma pow2_pos (e : Z) : (0 < 2 ^ e)%Q.
Proof. apply Qpower_0_lt. reflexivity. Qed.

Lemma pow2_inject (e : Z) : (0 <= e)%Z -> (inject_Z (2 ^ e) == 2 ^ e)%Q.
Proof. intros He. rewrite Zpower_Qpower by exact He. reflexivity. Qed.

Lemma Q_num_den (x : Q) : (x * inject_Z (Zpos (Qden x)) == inject_Z (Qnum x))%Q.
Proof. destruct x as [p q]. unfold Qeq, Qmult, inject_Z. simpl. lia. Qed.

Lemma magnitude_spec (x : Q) :
  (0 < x)%Q -> (2 ^ magnitude x <= x /\ x < 2 ^ (magnitude x + 1))%Q.
Proof.
  intros Hx. unfold magnitude. cbv zeta.
  assert (0 < Qnum x)%Z as Hp.
  { destruct x as [p q]. unfold Qlt in Hx. simpl in *. lia. }
  rewrite (Z.abs_eq (Qnum x)) by lia.
  rewrite (Qabs_pos x) by (apply Qlt_le_weak; exact Hx).
  set (p := Qnum x) in *. set (q := Zpos (Qden x)).
  set (lp := Z.log2 p). set (lq := Z.log2 q).
  assert (0 <= lp)%Z as Hlp0 by apply Z.log2_nonneg.
  assert (0 <= lq)%Z as Hlq0 by apply Z.log2_nonneg.
  destruct (Z.log2_spec p Hp) as [Hp1 Hp2]. fold lp in Hp1, Hp2.
  destruct (Z.log2_spec q ltac:(subst q; lia)) as [Hq1 Hq2]. fold lq in Hq1, Hq2.
  assert (0 < inject_Z q)%Q as HQq.
  { change 0%Q with (inject_Z 0). rewrite <- Zlt_Qlt. subst q. lia. }
  pose proof (Q_num_den x) as Hx'. fold p q in Hx'.
  assert (2 ^ lp <= inject_Z p)%Q as HP1.
  { rewrite <- pow2_inject by lia. rewrite <- Zle_Qle. exact Hp1. }
  assert (inject_Z p < 2 ^ (lp + 1))%Q as HP2.
  { rewrite <- pow2_inject by lia. rewrite <- Zlt_Qlt.
    replace (lp + 1)%Z with (Z.succ lp) by lia. exact Hp2. }
  assert (2 ^ lq <= inject_Z q)%Q as HQ1.
  { rewrite <- pow2_inject by lia. rewrite <- Zle_Qle. exact Hq1. }
  assert (inject_Z q < 2 ^ (lq + 1))%Q as HQ2.
  { rewrite <- pow2_inject by lia. rewrite <- Zlt_Qlt.
    replace (lq + 1)%Z with (Z.succ lq) by lia. exact Hq2. }
  assert (x < 2 ^ (lp - lq + 1))%Q as Hup.
  { apply (Qmult_lt_r _ _ (inject_Z q)); [exact HQq|].
    rewrite Hx'. eapply Qlt_le_trans; [exact HP2|].
    replace (lp + 1)%Z with ((lp - lq + 1) + lq)%Z by lia.
    rewrite Qpower_plus by apply two_neq_0.
    apply Qmult_le_l; [apply pow2_pos|exact HQ1]. }
  assert (2 ^ (lp - lq - 1) < x)%Q as Hlow.
  { apply (Qmult_lt_r _ _ (inject_Z q)); [exact HQq|].
    rewrite Hx'. eapply Qlt_le_trans; [|exact HP1].
    replace lp with ((lp - lq - 1) + (lq + 1))%Z at 2 by lia.
    rewrite Qpower_plus by apply two_neq_0.
    apply Qmult_lt_l; [apply pow2_pos|exact HQ2]. }
  destruct (Qle_bool (2 ^ (lp - lq)) x) eqn:E.
  - apply Qle_bool_iff in E. split; [exact E|exact Hup].
  - split; [apply Qlt_le_weak; exact Hlow|].
    replace (lp - lq - 1 + 1)%Z with (lp - lq)%Z by lia.
    apply Qnot_le_lt. intros H. apply Qle_bool_iff in H. congruence.
Qed.

Lemma magnitude_le (x y : Q) :
  (0 < x)%Q -> (x <= y)%Q -> (magnitude x <= magnitude y)%Z.
Proof.
  intros Hx Hxy.
  assert (0 < y)%Q as Hy by (eapply Qlt_le_trans; eauto).
  destruct (magnitude_spec x Hx) as [Hx1 _].
  destruct (magnitude_spec y Hy) as [_ Hy2].
  destruct (Z_le_gt_dec (magnitude x) (magnitude y)) as [|Hgt]; [assumption|].
  exfalso. apply (Qlt_irrefl y).
  eapply Qlt_le_trans; [exact Hy2|].
  eapply Qle_trans; [|exact Hxy]. eapply Qle_trans; [|exact Hx1].
  apply Qpower_le_compat_l; [lia|discriminate].
Qed.

Lemma roundEven_floor (y : Q) : (Qfloor y <= roundEven y <= Qfloor y + 1)%Z.
Proof.
  unfold roundEven. cbv zeta.
  destruct (y - inject_Z (Qfloor y) ?= 1 # 2)%Q; [|lia..].
  destruct (Z.even (Qfloor y)); lia.
Qed.

Lemma roundEven_Z (n : Z) : roundEven (inject_Z n) = n.
Proof.
  unfold roundEven. cbv zeta. rewrite Qfloor_Z.
  assert ((inject_Z n - inject_Z n ?= 1 # 2)%Q = Lt) as ->; [|reflexivity].
  apply -> Qlt_alt.
  assert (inject_Z n - inject_Z n == 0)%Q as -> by ring. reflexivity.
Qed.

Lemma roundEven_le (y1 y2 : Q) :
  (y1 <= y2)%Q -> (roundEven y1 <= roundEven y2)%Z.
Proof.
  intros Hle. pose proof (Qfloor_resp_le _ _ Hle) as Hfl.
  destruct (Z.eq_dec (Qfloor y1) (Qfloor y2)) as [Heq|Hne].
  - unfold roundEven. cbv zeta. rewrite Heq.
    set (n := Qfloor y2).
    destruct (y1 - inject_Z n ?= 1 # 2)%Q eqn:E1;
      destruct (y2 - inject_Z n ?= 1 # 2)%Q eqn:E2;
      try (destruct (Z.even n); lia); try lia.
    + (* Eq, Lt *) exfalso. apply <- Qeq_alt in E1. apply <- Qlt_alt in E2.
      apply (Qlt_irrefl (1 # 2)). rewrite <- E1 at 1.
      eapply Qle_lt_trans; [|exact E2].
      apply Qplus_le_l with (z := inject_Z n). ring_simplify. exact Hle.
    + (* Gt, Eq *) exfalso. apply <- Qgt_alt in E1. apply <- Qeq_alt in E2.
      apply (Qlt_irrefl (1 # 2)). eapply Qlt_le_trans; [exact E1|].
      rewrite <- E2.
      apply Qplus_le_l with (z := inject_Z n). ring_simplify. exact Hle.
    + (* Gt, Lt *) exfalso. apply <- Qgt_alt in E1. apply <- Qlt_alt in E2.
      apply (Qlt_irrefl (1 # 2)). eapply Qlt_trans; [exact E1|].
      eapply Qle_lt_trans; [|exact E2].
      apply Qplus_le_l with (z := inject_Z n). ring_simplify. exact Hle.
  - pose proof (roundEven_floor y1). pose proof (roundEven_floor y2). lia.
Qed.

Lemma binary64_0 : binary64 0 = 0%Q.
Proof. reflexivity. Qed.

Lemma binary64_pos_eq (x : Q) :
  (0 < x)%Q ->
  binary64 x
  = (inject_Z (roundEven (x * 2 ^ (- (magnitude x - 52)))) * 2 ^ (magnitude x - 52))%Q.
Proof.
  intros Hx. unfold binary64.
  destruct (Qeq_bool x 0) eqn:E; [|reflexivity].
  apply Qeq_bool_eq in E. rewrite E in Hx. discriminate.
Qed.

(** the scaled significand lies between 2^52 and 2^53 *)
Lemma significand_range (x : Q) :
  (0 < x)%Q ->
  (inject_Z (2 ^ 52) <= x * 2 ^ (- (magnitude x - 52)) /\
   x * 2 ^ (- (magnitude x - 52)) <= inject_Z (2 ^ 53))%Q.
Proof.
  intros Hx. destruct (magnitude_spec x Hx) as [H1 H2].
  set (m := magnitude x) in *. split.
  - rewrite pow2_inject by lia.
    replace 52%Z with (m + - (m - 52))%Z at 1 by lia.
    rewrite Qpower_plus by apply two_neq_0.
    apply Qmult_le_r; [apply pow2_pos|exact H1].
  - rewrite pow2_inject by lia.
    replace 53%Z with ((m + 1) + - (m - 52))%Z at 1 by lia.
    rewrite Qpower_plus by apply two_neq_0.
    apply Qmult_le_r; [apply pow2_pos|]. apply Qlt_le_weak. exact H2.
Qed.

Lemma binary64_range (x : Q) :
  (0 < x)%Q ->
  (2 ^ magnitude x <= binary64 x <= 2 ^ (magnitude x + 1))%Q.
Proof.
  intros Hx. rewrite (binary64_pos_eq x Hx).
  destruct (significand_range x Hx) as [H1 H2].
  set (m := magnitude x) in *.
  set (y := (x * 2 ^ (- (m - 52)))%Q) in *.
  assert (2 ^ 52 <= roundEven y <= 2 ^ 53)%Z as [Hr1 Hr2].
  { split.
    - rewrite <- (roundEven_Z (2 ^ 52)). by apply roundEven_le.
    - rewrite <- (roundEven_Z (2 ^ 53)). by apply roundEven_le. }
  split.
  - replace m with (52 + (m - 52))%Z at 1 by lia.
    rewrite Qpower_plus by apply two_neq_0.
    apply Qmult_le_r; [apply pow2_pos|].
    rewrite <- pow2_inject by lia. rewrite <- Zle_Qle. exact Hr1.
  - replace (m + 1)%Z with (53 + (m - 52))%Z by lia.
    rewrite Qpower_plus by apply two_neq_0.
    apply Qmult_le_r; [apply pow2_pos|].
    rewrite <- pow2_inject by lia. rewrite <- Zle_Qle. exact Hr2.
Qed.

Lemma binary64_le (x y : Q) :
  (0 <= x)%Q -> (x <= y)%Q -> (binary64 x <= binary64 y)%Q.
Proof.
  intros Hx0 Hxy.
  destruct (Qlt_le_dec 0 x) as [Hx|Hx].
  2:{ assert (x == 0)%Q as E by (apply Qle_antisym; assumption).
      unfold binary64 at 1. apply Qeq_bool_iff in E. rewrite E.
      destruct (Qlt_le_dec 0 y) as [Hy|Hy].
      - destruct (binary64_range y Hy) as [H _].
        eapply Qle_trans; [|exact H]. apply Qlt_le_weak, pow2_pos.
      - assert (y == 0)%Q as E' by (apply Qle_antisym; [assumption|eapply Qle_trans; eauto]).
        unfold binary64. apply Qeq_bool_iff in E'. rewrite E'. apply Qle_refl. }
  assert (0 < y)%Q as Hy by (eapply Qlt_le_trans; eauto).
  pose proof (magnitude_le x y Hx Hxy) as Hm.
  destruct (Z.eq_dec (magnitude x) (magnitude y)) as [Heq|Hne].
  - rewrite (binary64_pos_eq x Hx), (binary64_pos_eq y Hy), Heq.
    apply Qmult_le_r; [apply pow2_pos|]. rewrite <- Zle_Qle.
    apply roundEven_le. apply Qmult_le_r; [apply pow2_pos|exact Hxy].
  - destruct (binary64_range x Hx) as [_ H1].
    destruct (binary64_range y Hy) as [H2 _].
    eapply Qle_trans; [exact H1|]. eapply Qle_trans; [|exact H2].
    apply Qpower_le_compat_l; [lia|discriminate].
Qed.

Lemma magnitude_unique (x : Q) (m : Z) :
  (2 ^ m <= x)%Q -> (x < 2 ^ (m + 1))%Q -> magnitude x = m.
Proof.
  intros H1 H2.
  assert (0 < x)%Q as Hx by (eapply Qlt_le_trans; [apply pow2_pos|exact H1]).
  destruct (magnitude_spec x Hx) as [H3 H4].
  assert (magnitude x < m + 1)%Z.
  { apply (Qpower_lt_compat_l_inv 2); [|reflexivity].
    eapply Qle_lt_trans; [exact H3|exact H2]. }
  assert (m < magnitude x + 1)%Z.
  { apply (Qpower_lt_compat_l_inv 2); [|reflexivity].
    eapply Qle_lt_trans; [exact H1|exact H4]. }
  lia.
Qed.

Lemma roundEven_comp (y1 y2 : Q) : (y1 == y2)%Q -> roundEven y1 = roundEven y2.
Proof.
  intros E. apply Z.le_antisymm; apply roundEven_le; rewrite E; apply Qle_refl.
Qed.

Lemma pow2_cancel (x : Q) (e : Z) : (x * 2 ^ (- e) * 2 ^ e == x)%Q.
Proof.
  rewrite <- Qmult_assoc, <- Qpower_plus by apply two_neq_0.
  replace (- e + e)%Z with 0%Z by lia. apply Qmult_1_r.
Qed.

(** a rational with a significand of 53 bits is a double *)
Lemma binary64_exact (x : Q) (k : Z) :
  (0 < x)%Q ->
  (x * 2 ^ (- (magnitude x - 52)) == inject_Z k)%Q ->
  (binary64 x == x)%Q.
Proof.
  intros Hx Hk. rewrite (binary64_pos_eq x Hx).
  rewrite (roundEven_comp _ _ Hk), roundEven_Z, <- Hk.
  apply pow2_cancel.
Qed.

Lemma binary64_integer (n : Z) :
  (0 <= n < 2 ^ 53)%Z -> (binary64 (inject_Z n) == inject_Z n)%Q.
Proof.
  intros [H0 H53]. destruct (Z.eq_dec n 0%Z) as [->|Hne]; [reflexivity|].
  assert (0 < inject_Z n)%Q as Hx.
  { change 0%Q with (inject_Z 0). rewrite <- Zlt_Qlt. lia. }
  destruct (magnitude_spec _ Hx) as [H1 _].
  assert (magnitude (inject_Z n) < 53)%Z as Hm.
  { apply (Qpower_lt_compat_l_inv 2); [|reflexivity].
    eapply Qle_lt_trans; [exact H1|].
    rewrite <- pow2_inject by lia. by rewrite <- Zlt_Qlt. }
  apply (binary64_exact _ (n * 2 ^ (- (magnitude (inject_Z n) - 52)))%Z Hx).
  rewrite inject_Z_mult, pow2_inject by lia. reflexivity.
Qed.

(** [Math.floor] of a double is a double *)
Lemma floor_binary64_number (x : Q) :
  (0 <= x)%Q ->
  (0 <= Qfloor (binary64 x))%Z /\
  isNumber (inject_Z (Qfloor (binary64 x))) = true.
Proof.
  intros Hx0. unfold isNumber.
  destruct (Qlt_le_dec 0 x) as [Hx|Hx].
  2:{ assert (x == 0)%Q as E by (apply Qle_antisym; assumption).
      assert (binary64 x = 0%Q) as ->.
      { unfold binary64. apply Qeq_bool_iff in E. by rewrite E. }
      split; [done|by vm_compute]. }
  pose proof (binary64_pos_eq x Hx) as Heq.
  destruct (significand_range x Hx) as [Hs1 Hs2].
  set (m := magnitude x) in *.
  set (R := roundEven (x * 2 ^ (- (m - 52)))) in *.
  assert (2 ^ 52 <= R <= 2 ^ 53)%Z as [HR1 HR2].
  { split.
    - rewrite <- (roundEven_Z (2 ^ 52)). by apply roundEven_le.
    - rewrite <- (roundEven_Z (2 ^ 53)). by apply roundEven_le. }
  destruct (Z_le_gt_dec 0%Z (m - 52)%Z) as [He|He].
  - (* the double is an integer *)
    assert (binary64 x == inject_Z (R * 2 ^ (m - 52)))%Q as HN.
    { rewrite Heq, inject_Z_mult, pow2_inject by lia. reflexivity. }
    rewrite (Qfloor_comp _ _ HN), Qfloor_Z.
    assert (0 < 2 ^ (m - 52))%Z as Hpow by (apply Z.pow_pos_nonneg; lia).
    split; [nia|]. apply Qeq_bool_iff.
    assert (0 < inject_Z (R * 2 ^ (m - 52)))%Q as HNpos.
    { change 0%Q with (inject_Z 0). rewrite <- Zlt_Qlt. nia. }
    destruct (Z.eq_dec R (2 ^ 53)%Z) as [->|Hlt].
    + assert (magnitude (inject_Z (2 ^ 53 * 2 ^ (m - 52))) = (m + 1)%Z) as Hmag.
      { apply magnitude_unique.
        - rewrite inject_Z_mult, !pow2_inject by lia.
          rewrite <- Qpower_plus by apply two_neq_0.
          replace (53 + (m - 52))%Z with (m + 1)%Z by lia. apply Qle_refl.
        - rewrite inject_Z_mult, !pow2_inject by lia.
          rewrite <- Qpower_plus by apply two_neq_0.
          apply Qpower_lt_compat_l; [lia|reflexivity]. }
      apply (binary64_exact _ (2 ^ 52)%Z HNpos). rewrite Hmag.
      rewrite inject_Z_mult, !pow2_inject by lia.
      rewrite <- !Qpower_plus by apply two_neq_0.
      apply Qpower_comp; [reflexivity|lia].
    + assert (magnitude (inject_Z (R * 2 ^ (m - 52))) = m) as Hmag.
      { apply magnitude_unique.
        - rewrite inject_Z_mult, (pow2_inject (m - 52)) by lia.
          replace m with (52 + (m - 52))%Z at 1 by lia.
          rewrite Qpower_plus by apply two_neq_0.
          apply Qmult_le_r; [apply pow2_pos|].
          rewrite <- pow2_inject by lia. by rewrite <- Zle_Qle.
        - rewrite inject_Z_mult, (pow2_inject (m - 52)) by lia.
          replace (m + 1)%Z with (53 + (m - 52))%Z by lia.
          rewrite Qpower_plus by apply two_neq_0.
          apply Qmult_lt_r; [apply pow2_pos|].
          rewrite <- pow2_inject by lia. rewrite <- Zlt_Qlt. lia. }
      apply (binary64_exact _ R HNpos). rewrite Hmag.
      rewrite inject_Z_mult, (pow2_inject (m - 52)) by lia.
      rewrite <- Qmult_assoc, <- Qpower_plus by apply two_neq_0.
      replace (m - 52 + - (m - 52))%Z with 0%Z by lia. apply Qmult_1_r.
  - (* the double is below 2^52 *)
    assert (0 <= binary64 x <= inject_Z (2 ^ 52))%Q as [Hb0 Hb1].
    { destruct (binary64_range x Hx) as [Hr1 Hr2]. fold m in Hr1, Hr2. split.
      - eapply Qle_trans; [|exact Hr1]. apply Qlt_le_weak, pow2_pos.
      - eapply Qle_trans; [exact Hr2|]. rewrite pow2_inject by lia.
        apply Qpower_le_compat_l; [lia|discriminate]. }
    assert (0 <= Qfloor (binary64 x) <= 2 ^ 52)%Z as [Hf0 Hf1].
    { split.
      - rewrite <- (Qfloor_Z 0). by apply Qfloor_resp_le.
      - rewrite <- (Qfloor_Z (2 ^ 52)). by apply Qfloor_resp_le. }
    split; [exact Hf0|]. apply Qeq_bool_iff, binary64_integer. lia.
Qed.

(** ** Runs and their traces *)

Ltac munfold :=
  unfold Hum.attempt, Backoff.attempt, submitClaim, giveUp, hasClaimedToday,
    queryRewards, createProvider, newWallet, appendFileSync, newDate, delay,
    getRandomNumber, randomBelow,
    bind, ret, call, emit, lift, try_catch in *.

Section HumFacts.

Variable cfg : Config.
Variable W : World.
Variable rpcUrl : string.

Lemma hasClaimedToday_run (address : string) (h : Trace) :
  hasClaimedToday W address h =
  (Ok (match dailyRewardsAvailable W h address with
       | Ok dailyRewards => bool_decide (dailyRewards = 0%Z)
       | Throw _ => false
       end),
   h ++ [EvDailyRewardsAvailable address (dailyRewardsAvailable W h address)]).
Proof.
  munfold. destruct (dailyRewardsAvailable W h address) as [v|m]; [|done].
  destruct (String.eqb (formatEther v) "0.0") eqn:E.
  - apply String.eqb_eq, formatEther_zero_iff in E. subst v. done.
  - apply String.eqb_neq in E. rewrite formatEther_zero_iff in E.
    by rewrite bool_decide_eq_false_2.
Qed.

Lemma createProvider_run (proxy : option string) (h : Trace) :
  createProvider W rpcUrl proxy h =
  (proxyAgent W proxy, h ++ [EvCreateProvider rpcUrl proxy]).
Proof. munfold. simpl. by destruct (proxyAgent W proxy). Qed.

(** What one pass through the [try] block does, call by call. *)
Lemma attempt_run (privateKey : string) (proxy : option string)
    (i n : nat) (h : Trace) :
  Hum.attempt W rpcUrl privateKey proxy i n h =
  let h1 := h ++ [EvCreateProvider rpcUrl proxy] in
  match proxyAgent W proxy with
  | Throw m => (Throw m, h1)
  | Ok _ =>
      match walletAddress W privateKey with
      | Throw m => (Throw m, h1)
      | Ok address =>
          let q1 := dailyRewardsAvailable W h1 address in
          let h2 := h1 ++ [EvDailyRewardsAvailable address q1] in
          match q1 with
          | Ok 0%Z => (Ok true, h2)
          | _ =>
              let q2 := dailyRewardsAvailable W h2 address in
              let h3 := h2 ++ [EvDailyRewardsAvailable address q2] in
              match q2 with
              | Throw m => (Throw m, h3)
              | Ok _ => submitClaim W address i n h3
              end
          end
      end
  end.
Proof.
  unfold Hum.attempt. unfold bind at 1. rewrite createProvider_run.
  destruct (proxyAgent W proxy) as [[]|m]; [|done].
  unfold bind at 1, newWallet, lift.
  destruct (walletAddress W privateKey) as [address|m]; [|done].
  unfold bind at 1. rewrite hasClaimedToday_run. cbv zeta.
  destruct (dailyRewardsAvailable W _ address) as [v|m] eqn:Hq1.
  - destruct (bool_decide (v = 0%Z)) eqn:Hv.
    + apply bool_decide_eq_true in Hv. by subst v.
    + apply bool_decide_eq_false in Hv.
      assert (forall X (x y : X), match v with 0%Z => x | _ => y end = y) as ->.
      { intros. by destruct v. }
      unfold bind at 1, queryRewards, call.
      by destruct (dailyRewardsAvailable W _ address).
  - unfold bind at 1, queryRewards, call.
    by destruct (dailyRewardsAvailable W _ address).
Qed.

Lemma submitClaim_run (address : string) (i n : nat) (h : Trace) :
  submitClaim W address i n h =
  let fee := getFeeData W h in
  let h1 := h ++ [EvGetFeeData fee] in
  match fee with
  | Throw m => (Throw m, h1)
  | Ok feeData =>
      let tx := claimRewardTx W h1 address feeData in
      let h2 := h1 ++ [EvClaim address tx] in
      match tx with
      | Throw m => (Throw m, h2)
      | Ok txHash =>
          let receipt := txWait W h2 txHash in
          let h3 := h2 ++ [EvWait txHash receipt] in
          match receipt with
          | Throw m => (Throw m, h3)
          | Ok r =>
              let now := clock W h3 in
              (Ok true,
               h3 ++ [EvNow now] ++
               [EvAppendFile claim_log
                  (logEntry (toISOString W now) i n address (hash r))])
          end
      end
  end.
Proof.
  munfold. cbv zeta.
  destruct (getFeeData W h) as [fee|m]; [|done].
  destruct (claimRewardTx W _ address fee) as [tx|m]; [|done].
  destruct (txWait W _ tx) as [r|m]; [|done].
  by rewrite <- app_assoc.
Qed.

Lemma afterProvider_quiet (t : Trace) :
  forallb afterProvider t = true ->
  attempts t = 0 /\ delays t = [] /\ invocations t = [] /\
  appended claim_error_log t = [].
Proof.
  unfold attempts.
  induction t as [|e t IH]; [done|]. simpl. intros [He Ht]%andb_prop.
  destruct (IH Ht) as (IH1 & IH2 & IH3 & IH4).
  destruct e; simpl in *; try done.
  apply String.eqb_eq in He. subst file. simpl. done.
Qed.

Lemma submitClaim_trace (address : string) (i n : nat) (h : Trace) :
  exists t,
    snd (submitClaim W address i n h) = h ++ t /\
    forallb afterProvider t = true /\
    (forall b, fst (submitClaim W address i n h) = Ok b -> b = true).
Proof.
  rewrite submitClaim_run. cbv zeta.
  destruct (getFeeData W h) as [fee|m]; [|by eexists [_]].
  destruct (claimRewardTx W _ address fee) as [tx|m];
    [|eexists [_; _]; by rewrite <- !app_assoc].
  destruct (txWait W _ tx) as [r|m];
    [|eexists [_; _; _]; by rewrite <- !app_assoc].
  eexists [_; _; _; _; _]. rewrite <- !app_assoc. simpl.
  split; [done|]. split; [done|]. by intros b [= <-].
Qed.

(** The trace of an attempt starts with the creation of the provider; a
    result [Ok] means that the provider and the wallet could be built. *)
Lemma attempt_trace (privateKey : string) (proxy : option string)
    (i n : nat) (h : Trace) :
  exists t,
    snd (Hum.attempt W rpcUrl privateKey proxy i n h)
    = h ++ EvCreateProvider rpcUrl proxy :: t /\
    forallb afterProvider t = true /\
    (forall b, fst (Hum.attempt W rpcUrl privateKey proxy i n h) = Ok b ->
       b = true /\ proxyAgent W proxy = Ok tt /\
       exists address, walletAddress W privateKey = Ok address).
Proof.
  rewrite attempt_run. cbv zeta.
  destruct (proxyAgent W proxy) as [[]|m]; [|by exists []].
  destruct (walletAddress W privateKey) as [address|m]; [|by exists []].
  set (h1 := h ++ [EvCreateProvider rpcUrl proxy]).
  set (q1 := dailyRewardsAvailable W h1 address).
  set (h2 := h1 ++ [EvDailyRewardsAvailable address q1]).
  set (q2 := dailyRewardsAvailable W h2 address).
  set (h3 := h2 ++ [EvDailyRewardsAvailable address q2]).
  assert (exists t,
    snd (match q2 with
         | Ok _ => submitClaim W address i n h3
         | Throw m => (Throw m, h3)
         end) = h ++ EvCreateProvider rpcUrl proxy :: t /\
    forallb afterProvider t = true /\
    (forall b, fst (match q2 with
                    | Ok _ => submitClaim W address i n h3
                    | Throw m => (Throw m, h3)
                    end) = Ok b ->
       b = true /\ Ok tt = Ok tt /\
       exists address0, Ok address = Ok address0 :> Result string)) as Hrest.
  { destruct q2 as [v2|m] eqn:E2.
    - destruct (submitClaim_trace address i n h3) as (t & Ht & Hq & Hb).
      exists ([EvDailyRewardsAvailable address q1;
               EvDailyRewardsAvailable address (Ok v2)] ++ t).
      split; [|split].
      + rewrite Ht. subst h3 h2 h1. by rewrite <- !app_assoc.
      + done.
      + intros b Hbb. split; [by apply Hb|]. split; [done|]. by exists address.
    - exists [EvDailyRewardsAvailable address q1;
              EvDailyRewardsAvailable address (Throw m)].
      split; [|done]. subst h3 h2 h1. by rewrite <- !app_assoc. }
  destruct q1 as [v1|m1] eqn:E1; [|exact Hrest].
  destruct v1; [|exact Hrest..].
  exists [EvDailyRewardsAvailable address (Ok 0%Z)].
  split; [subst h2 h1; by rewrite <- !app_assoc|].
  split; [done|]. intros b [= <-]. split; [done|].
  split; [done|]. by exists address.
Qed.

(** The loop of [claimReward], case by case. *)
Lemma retryLoop_cases (P : nat -> Trace -> Result bool * Trace -> Prop)
    (privateKey : string) (proxy : option string) (i n : nat) :
  (forall k h b h',
     k <= MAX_RETRIES cfg ->
     Hum.attempt W rpcUrl privateKey proxy i n h = (Ok b, h') ->
     P k h (Ok b, h')) ->
  (forall h m h',
     Hum.attempt W rpcUrl privateKey proxy i n h = (Throw m, h') ->
     P (MAX_RETRIES cfg) h (giveUp W m i n (MAX_RETRIES cfg) h')) ->
  (forall k h m h',
     k < MAX_RETRIES cfg ->
     Hum.attempt W rpcUrl privateKey proxy i n h = (Throw m, h') ->
     let h'' := if (0 <? RETRY_DELAY cfg)%Z
                then h' ++ [EvDelay (RETRY_DELAY cfg)] else h' in
     P (k + 1) h'' (Hum.retryLoop cfg W rpcUrl privateKey proxy i n (k + 1) h'') ->
     P k h (Hum.retryLoop cfg W rpcUrl privateKey proxy i n (k + 1) h'')) ->
  (forall k h, MAX_RETRIES cfg < k -> P k h (Ok false, h)) ->
  forall k h, P k h (Hum.retryLoop cfg W rpcUrl privateKey proxy i n k h).
Proof.
  intros Hok Hlast Hagain Hout k.
  remember (MAX_RETRIES cfg + 1 - k) as fuel eqn:Hfuel.
  revert k Hfuel. induction fuel as [fuel IH] using lt_wf_ind. intros k -> h.
  rewrite Hum.retryLoop_equation_1.
  destruct (decide (k <= MAX_RETRIES cfg)) as [Hle|Hgt]; [|apply Hout; lia].
  unfold try_catch.
  destruct (Hum.attempt W rpcUrl privateKey proxy i n h) as [[b|m] h'] eqn:Hatt.
  { by apply Hok. }
  destruct (decide (MAX_RETRIES cfg <= k)) as [Hge|Hlt].
  { assert (k = MAX_RETRIES cfg) as -> by lia. by apply Hlast. }
  unfold bind.
  assert ((if (0 <? RETRY_DELAY cfg)%Z then delay (RETRY_DELAY cfg) else ret tt) h'
          = (Ok tt, if (0 <? RETRY_DELAY cfg)%Z
                    then h' ++ [EvDelay (RETRY_DELAY cfg)] else h')) as ->.
  { by destruct (0 <? RETRY_DELAY cfg)%Z. }
  eapply Hagain; [lia|exact Hatt|].
  eapply IH; [|reflexivity]. lia.
Qed.

Lemma giveUp_run (m : string) (i n k : nat) (h : Trace) :
  giveUp W m i n k h =
  (Ok false,
   h ++ [EvNow (clock W h);
         EvAppendFile claim_error_log
           (errorEntry (toISOString W (clock W h)) i n m k)]).
Proof. munfold. simpl. by rewrite <- app_assoc. Qed.

Lemma attempts_app (t1 t2 : Trace) : attempts (t1 ++ t2) = attempts t1 + attempts t2.
Proof. unfold attempts. by rewrite List.filter_app, length_app. Qed.

Lemma delays_app (t1 t2 : Trace) : delays (t1 ++ t2) = delays t1 ++ delays t2.
Proof. apply omap_app. Qed.

Lemma claims_app (t1 t2 : Trace) : claims (t1 ++ t2) = claims t1 ++ claims t2.
Proof. apply omap_app. Qed.

Lemma invocations_app (t1 t2 : Trace) :
  invocations (t1 ++ t2) = invocations t1 ++ invocations t2.
Proof. apply omap_app. Qed.

Lemma appended_app (f : string) (t1 t2 : Trace) :
  appended f (t1 ++ t2) = appended f t1 ++ appended f t2.
Proof. apply omap_app. Qed.

(** [claimReward] always returns; it never throws, it makes no nested call
    of itself, and it can only return [true] for a key and a proxy from
    which a wallet and a provider can be built. *)
Lemma retryLoop_returns (privateKey : string) (proxy : option string)
    (i n k : nat) (h : Trace) :
  exists b t,
    Hum.retryLoop cfg W rpcUrl privateKey proxy i n k h = (Ok b, h ++ t) /\
    invocations t = [] /\
    (b = true ->
     proxyAgent W proxy = Ok tt /\
     exists address, walletAddress W privateKey = Ok address).
Proof.
  revert k h.
  apply (retryLoop_cases (fun k h r =>
    exists b t, r = (Ok b, h ++ t) /\ invocations t = [] /\
      (b = true -> proxyAgent W proxy = Ok tt /\
       exists address, walletAddress W privateKey = Ok address))).
  - intros k h b h' _ Hatt.
    destruct (attempt_trace privateKey proxy i n h) as (t & Ht & Hq & Hb).
    rewrite Hatt in Ht, Hb. simpl in Ht, Hb. subst h'.
    apply afterProvider_quiet in Hq as (_ & _ & Hinv & _).
    exists b, (EvCreateProvider rpcUrl proxy :: t).
    split; [done|]. split; [done|]. intros _. by apply (Hb b).
  - intros h m h' Hatt.
    destruct (attempt_trace privateKey proxy i n h) as (t & Ht & Hq & _).
    rewrite Hatt in Ht. simpl in Ht. subst h'.
    apply afterProvider_quiet in Hq as (_ & _ & Hinv & _).
    rewrite giveUp_run. eexists false, _. rewrite <- app_assoc.
    split; [done|]. split; [|done].
    change (EvCreateProvider rpcUrl proxy :: t) with ([EvCreateProvider rpcUrl proxy] ++ t).
    by rewrite !invocations_app, Hinv.
  - intros k h m h' _ Hatt h'' (b & t' & -> & Hinv' & Hb).
    destruct (attempt_trace privateKey proxy i n h) as (t & Ht & Hq & _).
    rewrite Hatt in Ht. simpl in Ht.
    apply afterProvider_quiet in Hq as (_ & _ & Hinv & _).
    exists b, ((EvCreateProvider rpcUrl proxy :: t) ++
               (if (0 <? RETRY_DELAY cfg)%Z then [EvDelay (RETRY_DELAY cfg)] else []) ++ t').
    split; [|split; [|done]].
    + f_equal. subst h'' h'. destruct (0 <? RETRY_DELAY cfg)%Z.
      * by rewrite <- !app_assoc.
      * by rewrite <- !app_assoc.
    + change (EvCreateProvider rpcUrl proxy :: t) with ([EvCreateProvider rpcUrl proxy] ++ t).
      rewrite !invocations_app, Hinv, Hinv'. by destruct (0 <? RETRY_DELAY cfg)%Z.
  - intros k h _. exists false, []. by rewrite app_nil_r.
Qed.

Lemma claimReward_returns (privateKey : string) (proxy : option string)
    (i n : nat) (h : Trace) :
  exists b t,
    Hum.claimReward cfg W rpcUrl privateKey proxy i n h
    = (Ok b, h ++ EvClaimReward privateKey proxy i n :: t) /\
    invocations t = [] /\
    (b = true ->
     proxyAgent W proxy = Ok tt /\
     exists address, walletAddress W privateKey = Ok address).
Proof.
  unfold Hum.claimReward, bind, emit.
  destruct (retryLoop_returns privateKey proxy i n 0
              (h ++ [EvClaimReward privateKey proxy i n])) as (b & t & -> & Hinv & Hb).
  exists b, t. by rewrite <- app_assoc.
Qed.


(** *** The shuffle *)

Lemma insert_cons_Permutation {A} (l : list A) (j : nat) (x y : A) :
  l !! j = Some y -> y :: <[j := x]> l ≡ₚ x :: l.
Proof.
  revert j. induction l as [|a l IH]; intros [|j] Hj; simplify_eq/=.
  - apply perm_swap.
  - rewrite perm_swap, (IH j Hj). apply perm_swap.
Qed.

Lemma swap_Permutation {A} (i j : nat) (l : list A) : swap i j l ≡ₚ l.
Proof.
  unfold swap.
  destruct (l !! i) as [x|] eqn:Hi; [|done].
  destruct (l !! j) as [y|] eqn:Hj; [|done].
  destruct (decide (i = j)) as [->|Hne].
  - rewrite Hi in Hj. injection Hj as <-.
    rewrite list_insert_insert_eq. by rewrite list_insert_id.
  - apply (Permutation_cons_inv (a := y)).
    rewrite (insert_cons_Permutation (<[i := y]> l) j x y).
    + by apply insert_cons_Permutation.
    + by rewrite list_lookup_insert_ne.
Qed.

Lemma idle_quiet (t : Trace) :
  forallb idle t = true ->
  invocations t = [] /\ claims t = [] /\
  forall f, appended f t = [].
Proof.
  induction t as [|e t IH]; [done|]. simpl. intros [He Ht]%andb_prop.
  destruct (IH Ht) as (IH1 & IH2 & IH3).
  destruct e; simpl in *; try done.
Qed.

Lemma shuffle_from_run {A} (i : nat) (l : list A) (h : Trace) :
  exists l' t,
    shuffle_from W i l h = (Ok l', h ++ t) /\ l' ≡ₚ l /\
    forallb idle t = true.
Proof.
  revert l h. induction i as [|i IH]; intros l h.
  - exists l, []. by rewrite app_nil_r.
  - cbn [shuffle_from]. unfold bind at 1, randomBelow.
    destruct (IH (swap (S i) (random W h mod (S i + 1)) l)
                 (h ++ [EvRandom (random W h mod (S i + 1))]))
      as (l' & t & -> & Hperm & Hidle).
    exists l', (EvRandom (random W h mod (S i + 1)) :: t).
    rewrite <- app_assoc. split; [done|]. split; [|done].
    by rewrite Hperm, swap_Permutation.
Qed.

Lemma randomPause_run (i total : nat) (h : Trace) :
  exists t,
    randomPause cfg W i total h = (Ok tt, h ++ t) /\ forallb idle t = true.
Proof.
  unfold randomPause. destruct (i <? total - 1).
  - munfold. simpl. eexists [_; _]. by rewrite <- app_assoc.
  - exists []. by rewrite app_nil_r.
Qed.

(** *** The cycle *)

Lemma tally_run (privateKey address : string) (proxy : option string)
    (c : Hum.Counts) (h : Trace) :
  proxyAgent W proxy = Ok tt ->
  walletAddress W privateKey = Ok address ->
  let h1 := h ++ [EvCreateProvider rpcUrl proxy] in
  let q := dailyRewardsAvailable W h1 address in
  Hum.tally W rpcUrl privateKey proxy true c h =
  (Ok (match q with
       | Ok 0%Z => {| Hum.nSuccess := Hum.nSuccess c;
                      Hum.nSkipped := Hum.nSkipped c + 1;
                      Hum.nFail := Hum.nFail c |}
       | _ => {| Hum.nSuccess := Hum.nSuccess c + 1;
                 Hum.nSkipped := Hum.nSkipped c;
                 Hum.nFail := Hum.nFail c |}
       end),
   h ++ [EvCreateProvider rpcUrl proxy; EvDailyRewardsAvailable address q]).
Proof.
  intros Hagent Hw. cbv zeta. unfold Hum.tally, bind, newWallet, lift.
  rewrite Hw, createProvider_run, Hagent, hasClaimedToday_run.
  rewrite <- app_assoc.
  destruct (dailyRewardsAvailable W _ address) as [v|m]; [|done].
  destruct v; done.
Qed.

Lemma cycleStep_returns (proxies : list string) (total : nat)
    (privateKey : string) (i : nat) (c : Hum.Counts) (h : Trace) :
  exists c' t,
    Hum.cycleStep cfg W rpcUrl proxies total privateKey i c h
    = (Ok c',
       h ++ EvClaimReward privateKey (selectProxy proxies i) i total :: t) /\
    invocations t = [].
Proof.
  unfold Hum.cycleStep. cbv zeta. unfold bind.
  destruct (claimReward_returns privateKey (selectProxy proxies i) i total h)
    as (b & t1 & -> & Hinv1 & Hb).
  set (h1 := h ++ _ :: t1).
  assert (exists c1 t2,
    Hum.tally W rpcUrl privateKey (selectProxy proxies i) b c h1
    = (Ok c1, h1 ++ t2) /\ invocations t2 = []) as (c1 & t2 & -> & Hinv2).
  { destruct b.
    - destruct Hb as (Hagent & address & Hw); [done|].
      rewrite (tally_run _ _ _ _ _ Hagent Hw). by eexists _, [_; _].
    - eexists _, []. unfold Hum.tally, ret. by rewrite app_nil_r. }
  destruct (randomPause_run i total (h1 ++ t2)) as (t3 & -> & Hidle).
  apply idle_quiet in Hidle as (Hinv3 & _).
  exists c1, (t1 ++ t2 ++ t3). unfold ret. subst h1. split.
  - f_equal. by rewrite <- !app_assoc.
  - by rewrite !invocations_app, Hinv1, Hinv2, Hinv3.
Qed.

Lemma cycleLoop_returns (proxies : list string) (total : nat)
    (keys : list string) (i : nat) (c : Hum.Counts) (h : Trace) :
  exists c' t,
    Hum.cycleLoop cfg W rpcUrl proxies total keys i c h = (Ok c', h ++ t) /\
    invocations t
    = imap (fun j k => (k, selectProxy proxies (i + j))) keys.
Proof.
  revert i c h. induction keys as [|k keys IH]; intros i c h.
  - exists c, []. by rewrite app_nil_r.
  - cbn [Hum.cycleLoop]. unfold bind at 1.
    destruct (cycleStep_returns proxies total k i c h) as (c1 & t1 & -> & Hinv1).
    destruct (IH (i + 1) c1 (h ++ EvClaimReward k (selectProxy proxies i) i total :: t1))
      as (c2 & t2 & -> & Hinv2).
    exists c2, ((EvClaimReward k (selectProxy proxies i) i total :: t1) ++ t2).
    rewrite <- app_assoc. split; [done|].
    rewrite invocations_app. simpl. rewrite Hinv1, Hinv2. simpl.
    rewrite Nat.add_0_r. f_equal. apply imap_ext. intros j x _. simpl.
    f_equal. f_equal. lia.
Qed.

Lemma runClaimCycle_returns (privateKeys proxies : list string) (h : Trace) :
  exists stats shuffledKeys t,
    Hum.runClaimCycle cfg W rpcUrl privateKeys proxies h = (Ok stats, h ++ t) /\
    shuffledKeys ≡ₚ privateKeys /\
    Hum.totalWallets stats = length privateKeys /\
    invocations t = imap (fun j k => (k, selectProxy proxies j)) shuffledKeys.
Proof.
  unfold Hum.runClaimCycle, shuffleArray. unfold bind at 1.
  destruct (shuffle_from_run (length privateKeys - 1) privateKeys h)
    as (l & t0 & -> & Hperm & Hidle).
  apply idle_quiet in Hidle as (Hinv0 & _).
  unfold bind at 1, newDate. unfold bind at 1.
  destruct (cycleLoop_returns proxies (length l) l 0
              {| Hum.nSuccess := 0; Hum.nSkipped := 0; Hum.nFail := 0 |}
              ((h ++ t0) ++ [EvNow (clock W (h ++ t0))]))
    as (c & t1 & -> & Hinv1).
  unfold bind at 1, ret.
  eexists _, l, (t0 ++ [EvNow _] ++ t1 ++ [EvNow _]).
  split; [f_equal; by rewrite <- !app_assoc|].
  split; [done|]. split; [simpl; by rewrite Hperm|].
  rewrite !invocations_app, Hinv0, Hinv1. simpl. by rewrite app_nil_r.
Qed.

(** *** An attempt that succeeds at once ends [claimReward] *)

Lemma claimReward_first (privateKey : string) (proxy : option string)
    (i n : nat) (h h' : Trace) (b : bool) :
  Hum.attempt W rpcUrl privateKey proxy i n
    (h ++ [EvClaimReward privateKey proxy i n]) = (Ok b, h') ->
  Hum.claimReward cfg W rpcUrl privateKey proxy i n h = (Ok b, h').
Proof.
  intros Hatt. unfold Hum.claimReward, bind, emit.
  rewrite Hum.retryLoop_equation_1.
  destruct (decide (0 <= MAX_RETRIES cfg)) as [_|]; [|lia].
  unfold try_catch. by rewrite Hatt.
Qed.

(** *** Wallets with nothing to claim, wallets with a reward *)

Section Accounts.

Hypothesis fees : forall h, exists feeData, getFeeData W h = Ok feeData.
Hypothesis sends :
  forall h address feeData, exists tx, claimRewardTx W h address feeData = Ok tx.
Hypothesis confirms : forall h tx, exists receipt, txWait W h tx = Ok receipt.

Lemma cycleStep_skipped (proxies : list string) (total : nat)
    (key address : string) (i : nat) (c : Hum.Counts) (h : Trace) :
  proxyAgent W (selectProxy proxies i) = Ok tt ->
  walletAddress W key = Ok address ->
  (forall h, dailyRewardsAvailable W h address = Ok 0%Z) ->
  exists t,
    Hum.cycleStep cfg W rpcUrl proxies total key i c h
    = (Ok {| Hum.nSuccess := Hum.nSuccess c;
             Hum.nSkipped := Hum.nSkipped c + 1;
             Hum.nFail := Hum.nFail c |}, h ++ t) /\
    claims t = [] /\ forall f, appended f t = [].
Proof.
  intros Hagent Hw Hzero. unfold Hum.cycleStep. cbv zeta. unfold bind.
  erewrite claimReward_first; last first.
  { rewrite attempt_run. cbv zeta. by rewrite Hagent, Hw, Hzero. }
  rewrite (tally_run _ _ _ _ _ Hagent Hw). cbv zeta. rewrite Hzero.
  match goal with |- context [randomPause cfg W i total ?h0] =>
    destruct (randomPause_run i total h0) as (t & -> & Hidle) end.
  apply idle_quiet in Hidle as (_ & Hcl & Happ).
  eexists ([_; _; _; _; _] ++ t). unfold ret. rewrite <- !app_assoc.
  split; [reflexivity|]. rewrite claims_app. split.
  - by rewrite Hcl.
  - intros f. by rewrite appended_app, Happ.
Qed.

Lemma cycleStep_claimed (proxies : list string) (total : nat)
    (key address : string) (i : nat) (c : Hum.Counts) (h : Trace) :
  proxyAgent W (selectProxy proxies i) = Ok tt ->
  walletAddress W key = Ok address ->
  (forall h, exists v, dailyRewardsAvailable W h address = Ok v /\ (0 < v)%Z) ->
  exists t timestamp tx,
    Hum.cycleStep cfg W rpcUrl proxies total key i c h
    = (Ok {| Hum.nSuccess := Hum.nSuccess c + 1;
             Hum.nSkipped := Hum.nSkipped c;
             Hum.nFail := Hum.nFail c |}, h ++ t) /\
    claims t = [address] /\
    appended claim_log t = [logEntry timestamp i total address tx] /\
    appended claim_error_log t = [].
Proof.
  intros Hagent Hw Hpos. unfold Hum.cycleStep. cbv zeta. unfold bind.
  set (p := selectProxy proxies i) in *.
  set (h0 := h ++ [EvClaimReward key p i total]).
  destruct (Hpos (h0 ++ [EvCreateProvider rpcUrl p])) as (v1 & Hv1 & Hp1).
  set (h2 := (h0 ++ [EvCreateProvider rpcUrl p]) ++
             [EvDailyRewardsAvailable address (Ok v1)]).
  destruct (Hpos h2) as (v2 & Hv2 & Hp2).
  set (h3 := h2 ++ [EvDailyRewardsAvailable address (Ok v2)]).
  destruct (fees h3) as (feeData & Hfee).
  set (h4 := h3 ++ [EvGetFeeData (Ok feeData)]).
  destruct (sends h4 address feeData) as (tx & Htx).
  set (h5 := h4 ++ [EvClaim address (Ok tx)]).
  destruct (confirms h5 tx) as (receipt & Hrc).
  set (h6 := h5 ++ [EvWait tx (Ok receipt)]).
  set (h7 := h6 ++ [EvNow (clock W h6)] ++
             [EvAppendFile claim_log
                (logEntry (toISOString W (clock W h6)) i total address (hash receipt))]).
  assert (Hum.attempt W rpcUrl key p i total h0 = (Ok true, h7)) as Hatt.
  { rewrite attempt_run. cbv zeta. rewrite Hagent, Hw, Hv1.
    assert (forall X (x y : X), match v1 with 0%Z => x | _ => y end = y) as ->.
    { intros. destruct v1; [lia|done..]. }
    fold h2. rewrite Hv2. fold h3. rewrite submitClaim_run. cbv zeta.
    rewrite Hfee. fold h4. rewrite Htx. fold h5. rewrite Hrc. done. }
  rewrite (claimReward_first _ _ _ _ _ _ _ Hatt).
  rewrite (tally_run _ _ _ _ _ Hagent Hw). cbv zeta.
  destruct (Hpos (h7 ++ [EvCreateProvider rpcUrl p])) as (v3 & Hv3 & Hp3).
  rewrite Hv3.
  assert (forall X (x y : X), match v3 with 0%Z => x | _ => y end = y) as ->.
  { intros. destruct v3; [lia|done..]. }
  match goal with |- context [randomPause cfg W i total ?hh] =>
    destruct (randomPause_run i total hh) as (t & -> & Hidle) end.
  apply idle_quiet in Hidle as (_ & Hcl & Happ).
  eexists ([_; _; _; _; _; _; _; _; _; _; _] ++ t), _, _. unfold ret.
  subst h7 h6 h5 h4 h3 h2 h0. rewrite <- !app_assoc.
  split; [reflexivity|]. rewrite claims_app, !appended_app, Hcl, !Happ.
  done.
Qed.

(** Two credentials [A] and [B], no proxy, a chain on which every call
    succeeds, nothing to claim for the account of [A], and a reward for the
    account of [B] that still reads positive after its claim.  On such a
    chain, whatever order the shuffle picks, the cycle returns the
    statistics success 1, skipped 1, failed 0, total 2; the only submission
    is made by the account of [B], the success log gains exactly one line,
    for that account, and the error log none.  A chain on which a claimed
    reward reads zero is the subject of [two_wallets_claimed_counts_as_skipped]
    below. *)
Theorem runClaimCycle_two_wallets (A B a b : string) (h : Trace) :
  walletAddress W A = Ok a ->
  walletAddress W B = Ok b ->
  (forall h, dailyRewardsAvailable W h a = Ok 0%Z) ->
  (forall h, exists v, dailyRewardsAvailable W h b = Ok v /\ (0 < v)%Z) ->
  exists stats t timestamp index tx,
    Hum.runClaimCycle cfg W rpcUrl [A; B] [] h = (Ok stats, h ++ t) /\
    Hum.successCount stats = 1 /\ Hum.skippedCount stats = 1 /\
    Hum.failCount stats = 0 /\ Hum.totalWallets stats = 2 /\
    claims t = [b] /\
    appended claim_log t = [logEntry timestamp index 2 b tx] /\
    appended claim_error_log t = [].
Proof.
  intros HwA HwB Hzero Hpos.
  unfold Hum.runClaimCycle, shuffleArray. unfold bind at 1.
  destruct (shuffle_from_run (length [A; B] - 1) [A; B] h)
    as (l & t0 & -> & Hperm & Hidle0).
  apply idle_quiet in Hidle0 as (_ & Hcl0 & Happ0).
  unfold bind at 1, newDate.
  set (h1 := (h ++ t0) ++ [EvNow (clock W (h ++ t0))]).
  set (c0 := {| Hum.nSuccess := 0; Hum.nSkipped := 0; Hum.nFail := 0 |}).
  symmetry in Hperm. apply Permutation_length_2_inv in Hperm as [->| ->].
  - cbn [Hum.cycleLoop length]. unfold bind.
    destruct (cycleStep_skipped [] 2 A a 0 c0 h1 eq_refl HwA Hzero)
      as (t1 & -> & Hcl1 & Happ1).
    destruct (cycleStep_claimed [] 2 B b (0 + 1)
                {| Hum.nSuccess := Hum.nSuccess c0;
                   Hum.nSkipped := Hum.nSkipped c0 + 1;
                   Hum.nFail := Hum.nFail c0 |} (h1 ++ t1) eq_refl HwB Hpos)
      as (t2 & timestamp & tx & -> & Hcl2 & Hlog2 & Herr2).
    unfold ret.
    eexists _, (t0 ++ [EvNow _] ++ t1 ++ t2 ++ [EvNow _]), timestamp, (0 + 1), tx.
    subst h1. rewrite <- !app_assoc. split; [reflexivity|].
    rewrite !claims_app, !appended_app, Hcl0, Hcl1, Hcl2, !Happ0, !Happ1,
      Hlog2, Herr2.
    done.
  - cbn [Hum.cycleLoop length]. unfold bind.
    destruct (cycleStep_claimed [] 2 B b 0 c0 h1 eq_refl HwB Hpos)
      as (t1 & timestamp & tx & -> & Hcl1 & Hlog1 & Herr1).
    destruct (cycleStep_skipped [] 2 A a (0 + 1)
                {| Hum.nSuccess := Hum.nSuccess c0 + 1;
                   Hum.nSkipped := Hum.nSkipped c0;
                   Hum.nFail := Hum.nFail c0 |} (h1 ++ t1) eq_refl HwA Hzero)
      as (t2 & -> & Hcl2 & Happ2).
    unfold ret.
    eexists _, (t0 ++ [EvNow _] ++ t1 ++ t2 ++ [EvNow _]), timestamp, 0, tx.
    subst h1. rewrite <- !app_assoc. split; [reflexivity|].
    rewrite !claims_app, !appended_app, Hcl0, Hcl1, Hcl2, !Happ0, !Happ2,
      Hlog1, Herr1.
    done.
Qed.

End Accounts.

End HumFacts.

(** ** The variant with backoff *)

Section BackoffFacts.

Variable cfg : Config.
Variable W : World.
Variable rpcUrl : string.

(** What one pass through the [try] block does, call by call. *)
Lemma backoff_attempt_run (privateKey : string) (proxy : option string)
    (i n : nat) (h : Trace) :
  Backoff.attempt W rpcUrl privateKey proxy i n h =
  let h1 := h ++ [EvCreateProvider rpcUrl proxy] in
  match proxyAgent W proxy with
  | Throw m => (Throw m, h1)
  | Ok _ =>
      match walletAddress W privateKey with
      | Throw m => (Throw m, h1)
      | Ok address =>
          let q := dailyRewardsAvailable W h1 address in
          let h2 := h1 ++ [EvDailyRewardsAvailable address q] in
          match q with
          | Ok 0%Z => (Ok true, h2)
          | _ => submitClaim W address i n h2
          end
      end
  end.
Proof.
  unfold Backoff.attempt. unfold bind at 1. rewrite createProvider_run.
  destruct (proxyAgent W proxy) as [[]|m]; [|done].
  unfold bind at 1, newWallet, lift.
  destruct (walletAddress W privateKey) as [address|m]; [|done].
  unfold bind at 1.
  pose proof (hasClaimedToday_run W address (h ++ [EvCreateProvider rpcUrl proxy])) as Hq.
  unfold hasClaimedToday in Hq. rewrite Hq. cbv zeta.
  destruct (dailyRewardsAvailable W _ address) as [v|m]; [|done].
  destruct v; done.
Qed.

Lemma backoff_attempt_trace (privateKey : string) (proxy : option string)
    (i n : nat) (h : Trace) :
  exists t,
    snd (Backoff.attempt W rpcUrl privateKey proxy i n h)
    = h ++ EvCreateProvider rpcUrl proxy :: t /\
    forallb afterProvider t = true.
Proof.
  rewrite backoff_attempt_run. cbv zeta.
  destruct (proxyAgent W proxy) as [[]|m]; [|by exists []].
  destruct (walletAddress W privateKey) as [address|m]; [|by exists []].
  set (h1 := h ++ [EvCreateProvider rpcUrl proxy]).
  set (q := dailyRewardsAvailable W h1 address).
  set (h2 := h1 ++ [EvDailyRewardsAvailable address q]).
  assert (exists t,
    snd (submitClaim W address i n h2) = h ++ EvCreateProvider rpcUrl proxy :: t /\
    forallb afterProvider t = true) as Hrest.
  { destruct (submitClaim_trace W address i n h2) as (t & Ht & Hq & _).
    exists (EvDailyRewardsAvailable address q :: t).
    split; [|done]. rewrite Ht. subst h2 h1. by rewrite <- !app_assoc. }
  destruct q as [v|m] eqn:E; [|exact Hrest].
  destruct v; [|exact Hrest..].
  exists [EvDailyRewardsAvailable address (Ok 0%Z)].
  split; [|done]. subst h2 h1. by rewrite <- !app_assoc.
Qed.

(** The loop of [claimReward], case by case. *)
Lemma backoff_retryLoop_cases
    (P : nat -> Z -> Trace -> Result bool * Trace -> Prop)
    (privateKey : string) (proxy : option string) (i n : nat) :
  (forall k d h b h',
     k <= MAX_RETRIES cfg ->
     Backoff.attempt W rpcUrl privateKey proxy i n h = (Ok b, h') ->
     P k d h (Ok b, h')) ->
  (forall d h m h',
     Backoff.attempt W rpcUrl privateKey proxy i n h = (Throw m, h') ->
     P (MAX_RETRIES cfg) d h (giveUp W m i n (MAX_RETRIES cfg) h')) ->
  (forall k d h m h',
     k < MAX_RETRIES cfg ->
     Backoff.attempt W rpcUrl privateKey proxy i n h = (Throw m, h') ->
     let h'' := h' ++ [EvDelay d] in
     let d' := Backoff.escalate cfg d in
     P (k + 1) d' h''
       (Backoff.backoffLoop cfg W rpcUrl privateKey proxy i n (k + 1) d' h'') ->
     P k d h
       (Backoff.backoffLoop cfg W rpcUrl privateKey proxy i n (k + 1) d' h'')) ->
  (forall k d h, MAX_RETRIES cfg < k -> P k d h (Ok false, h)) ->
  forall k d h,
    P k d h (Backoff.backoffLoop cfg W rpcUrl privateKey proxy i n k d h).
Proof.
  intros Hok Hlast Hagain Hout k.
  remember (MAX_RETRIES cfg + 1 - k) as fuel eqn:Hfuel.
  revert k Hfuel. induction fuel as [fuel IH] using lt_wf_ind. intros k -> d h.
  rewrite Backoff.backoffLoop_equation_1.
  destruct (decide (k <= MAX_RETRIES cfg)) as [Hle|Hgt]; [|apply Hout; lia].
  unfold try_catch.
  destruct (Backoff.attempt W rpcUrl privateKey proxy i n h) as [[b|m] h'] eqn:Hatt.
  { by apply Hok. }
  destruct (decide (MAX_RETRIES cfg <= k)) as [Hge|Hlt].
  { assert (k = MAX_RETRIES cfg) as -> by lia. by apply Hlast. }
  unfold bind, delay, emit.
  eapply Hagain; [lia|exact Hatt|].
  eapply IH; [|reflexivity]. lia.
Qed.

(** [claimReward] always returns, and makes no nested call of itself;
    its waits are the successive values of [currentDelay]. *)
Lemma backoff_retryLoop_returns (privateKey : string) (proxy : option string)
    (i n k : nat) (d : Z) (h : Trace) :
  exists b t retries,
    Backoff.backoffLoop cfg W rpcUrl privateKey proxy i n k d h = (Ok b, h ++ t) /\
    invocations t = [] /\
    retries <= MAX_RETRIES cfg - k /\
    delays t = Backoff.waits cfg retries d.
Proof.
  revert k d h.
  apply (backoff_retryLoop_cases (fun k d h r =>
    exists b t retries, r = (Ok b, h ++ t) /\ invocations t = [] /\
      retries <= MAX_RETRIES cfg - k /\
      delays t = Backoff.waits cfg retries d)).
  - intros k d h b h' _ Hatt.
    destruct (backoff_attempt_trace privateKey proxy i n h) as (t & Ht & Hq).
    rewrite Hatt in Ht. simpl in Ht. subst h'.
    apply afterProvider_quiet in Hq as (_ & Hdel & Hinv & _).
    exists b, (EvCreateProvider rpcUrl proxy :: t), 0.
    split; [done|]. split; [done|]. split; [lia|done].
  - intros d h m h' Hatt.
    destruct (backoff_attempt_trace privateKey proxy i n h) as (t & Ht & Hq).
    rewrite Hatt in Ht. simpl in Ht. subst h'.
    apply afterProvider_quiet in Hq as (_ & Hdel & Hinv & _).
    rewrite giveUp_run. eexists false, _, 0. rewrite <- app_assoc.
    split; [done|].
    change (EvCreateProvider rpcUrl proxy :: t) with ([EvCreateProvider rpcUrl proxy] ++ t).
    rewrite !invocations_app, !delays_app, Hinv, Hdel.
    split; [done|]. split; [lia|done].
  - intros k d h m h' Hlt Hatt h'' d' (b & t' & retries & -> & Hinv' & Hle & Hdel').
    destruct (backoff_attempt_trace privateKey proxy i n h) as (t & Ht & Hq).
    rewrite Hatt in Ht. simpl in Ht.
    apply afterProvider_quiet in Hq as (_ & Hdel & Hinv & _).
    exists b, (([EvCreateProvider rpcUrl proxy] ++ t) ++ [EvDelay d] ++ t'),
      (S retries).
    split; [|split; [|split]].
    + f_equal. subst h'' h'. by rewrite <- !app_assoc.
    + by rewrite !invocations_app, Hinv, Hinv'.
    + lia.
    + rewrite !delays_app, Hdel, Hdel'. done.
  - intros k d h _. exists false, [], 0. rewrite app_nil_r.
    split; [done|]. split; [done|]. split; [lia|done].
Qed.

Lemma backoff_claimReward_returns (privateKey : string) (proxy : option string)
    (i n : nat) (h : Trace) :
  exists b t retries,
    Backoff.claimReward cfg W rpcUrl privateKey proxy i n h
    = (Ok b, h ++ EvClaimReward privateKey proxy i n :: t) /\
    invocations t = [] /\
    retries <= MAX_RETRIES cfg /\
    delays t = Backoff.waits cfg retries (RETRY_DELAY cfg).
Proof.
  unfold Backoff.claimReward, bind, emit.
  destruct (backoff_retryLoop_returns privateKey proxy i n 0 (RETRY_DELAY cfg)
              (h ++ [EvClaimReward privateKey proxy i n]))
    as (b & t & retries & -> & Hinv & Hle & Hdel).
  exists b, t, retries. rewrite <- app_assoc.
  split; [done|]. split; [done|]. split; [lia|done].
Qed.


(** *** The waits *)

Lemma waits_lookup (retries j : nat) (d w : Z) :
  Backoff.waits cfg retries d !! j = Some w ->
  w = Nat.iter j (Backoff.escalate cfg) d.
Proof.
  revert j d. induction retries as [|r IH]; intros j d; [done|].
  destruct j as [|j]; simpl.
  - by intros [= <-].
  - intros H%IH. rewrite H. clear H. revert d.
    induction j as [|j IHj]; intros d; [done|]. simpl. by rewrite IHj.
Qed.

(** The delays of a run are doubles: an escalation of one that is gives
    one that is, so that [escalate] is the computation in doubles all
    along a run that starts from a double. *)
Lemma escalate_number (d : Z) :
  (0 <= ESCALATION_FACTOR cfg)%Q -> (0 <= d)%Z ->
  isNumber (inject_Z d) = true ->
  (0 <= Backoff.escalate cfg d)%Z /\
  isNumber (inject_Z (Backoff.escalate cfg d)) = true.
Proof.
  intros Hf Hd Hnum. unfold Backoff.escalate. rewrite Hnum.
  apply floor_binary64_number. apply Qmult_le_0_compat.
  - change 0%Q with (inject_Z 0). by rewrite <- Zle_Qle.
  - unfold Backoff.factor. change 0%Q with (binary64 0).
    apply binary64_le; [apply Qle_refl|exact Hf].
Qed.

Lemma waits_numbers (retries : nat) (d : Z) :
  (0 <= ESCALATION_FACTOR cfg)%Q -> (0 <= d)%Z ->
  isNumber (inject_Z d) = true ->
  Forall (fun w => isNumber (inject_Z w) = true) (Backoff.waits cfg retries d).
Proof.
  intros Hf. revert d. induction retries as [|r IH]; intros d Hd Hnum.
  - constructor.
  - cbn [Backoff.waits]. constructor; [exact Hnum|].
    destruct (escalate_number d Hf Hd Hnum). by apply IH.
Qed.

Lemma iter_escalate_number (j : nat) (d : Z) :
  (0 <= ESCALATION_FACTOR cfg)%Q -> (0 <= d)%Z ->
  isNumber (inject_Z d) = true ->
  Nat.iter j (Backoff.escalate cfg) d
  = Nat.iter j
      (fun w => Qfloor (binary64 (inject_Z w * binary64 (ESCALATION_FACTOR cfg))))
      d.
Proof.
  intros Hf. revert d. induction j as [|j IH]; intros d Hd Hnum; [done|].
  rewrite !Nat.iter_succ_r.
  destruct (escalate_number d Hf Hd Hnum) as [Hd' Hnum'].
  rewrite (IH _ Hd' Hnum'). f_equal. unfold Backoff.escalate. by rewrite Hnum.
Qed.

Lemma factor_ge_1 :
  (1 <= ESCALATION_FACTOR cfg)%Q -> (1 <= Backoff.factor cfg)%Q.
Proof.
  intros Hf. unfold Backoff.factor.
  assert (binary64 1 == 1)%Q as <- by reflexivity.
  by apply binary64_le.
Qed.

(** Where nothing is rounded, an escalation is the floor of the exact
    product. *)
Lemma escalate_exact (d : Z) :
  isNumber (inject_Z d) = true ->
  isNumber (inject_Z d * Backoff.factor cfg) = true ->
  Backoff.escalate cfg d = Qfloor (inject_Z d * Backoff.factor cfg).
Proof.
  intros Hd Hp. unfold Backoff.escalate. rewrite Hd.
  apply Qfloor_comp. by apply Qeq_bool_eq.
Qed.

Lemma iter_escalate_exact (j : nat) (d : Z) :
  exactEscalations cfg j d = true ->
  Nat.iter j (Backoff.escalate cfg) d
  = Nat.iter j (fun w => Qfloor (inject_Z w * Backoff.factor cfg)) d.
Proof.
  revert d. induction j as [|j IH]; intros d; [done|].
  cbn [exactEscalations]. intros [[Hd Hp]%andb_prop Hrest]%andb_prop.
  rewrite !Nat.iter_succ_r, (IH _ Hrest). f_equal. by apply escalate_exact.
Qed.

Lemma iter_floor_le (j : nat) (d : Z) :
  (1 <= Backoff.factor cfg)%Q ->
  (inject_Z (Nat.iter j (fun w => Qfloor (inject_Z w * Backoff.factor cfg)) d)
   <= inject_Z d * Backoff.factor cfg ^ Z.of_nat j)%Q.
Proof.
  intros Hf. induction j as [|j IH].
  - simpl. rewrite Qmult_1_r. apply Qle_refl.
  - rewrite Nat.iter_succ. eapply Qle_trans; [apply Qfloor_le|].
    rewrite Nat2Z.inj_succ, <- Z.add_1_r, Qpower_plus.
    + rewrite Qmult_assoc.
      change (Backoff.factor cfg ^ 1)%Q with (Backoff.factor cfg).
      apply Qmult_le_compat_r; [exact IH|].
      eapply Qle_trans; [|exact Hf]. done.
    + intros H0. rewrite H0 in Hf. by apply Qle_not_lt in Hf.
Qed.

Lemma iter_floor_integer (j : nat) (d z : Z) :
  (Backoff.factor cfg == inject_Z z)%Q ->
  Nat.iter j (fun w => Qfloor (inject_Z w * Backoff.factor cfg)) d
  = (d * z ^ Z.of_nat j)%Z.
Proof.
  intros Hf. induction j as [|j IH].
  - simpl. lia.
  - rewrite Nat.iter_succ, IH.
    rewrite Hf, <- inject_Z_mult, Qfloor_Z.
    rewrite Nat2Z.inj_succ, Z.pow_succ_r by lia. lia.
Qed.

End BackoffFacts.

(** ** More on the two scripts *)

Section MoreFacts.

Variable cfg : Config.
Variable W : World.
Variable rpcUrl : string.

(** In [hum/multiWalletClaim.js] every wait between two attempts is
    [RETRY_DELAY], and none is requested unless [RETRY_DELAY > 0]. *)
Lemma retryLoop_delays (privateKey : string) (proxy : option string)
    (i n k : nat) (h : Trace) :
  exists t,
    snd (Hum.retryLoop cfg W rpcUrl privateKey proxy i n k h) = h ++ t /\
    Forall (fun w => w = RETRY_DELAY cfg /\ (0 < w)%Z) (delays t).
Proof.
  revert k h.
  apply (retryLoop_cases cfg W rpcUrl (fun k h r =>
    exists t, snd r = h ++ t /\
      Forall (fun w => w = RETRY_DELAY cfg /\ (0 < w)%Z) (delays t))).
  - intros k h b h' _ Hatt.
    destruct (attempt_trace W rpcUrl privateKey proxy i n h) as (t & Ht & Hq & _).
    rewrite Hatt in Ht. simpl in Ht. subst h'.
    apply afterProvider_quiet in Hq as (_ & Hdel & _).
    exists (EvCreateProvider rpcUrl proxy :: t). simpl. by rewrite Hdel.
  - intros h m h' Hatt.
    destruct (attempt_trace W rpcUrl privateKey proxy i n h) as (t & Ht & Hq & _).
    rewrite Hatt in Ht. simpl in Ht. subst h'.
    apply afterProvider_quiet in Hq as (_ & Hdel & _).
    rewrite giveUp_run. eexists. rewrite <- app_assoc. split; [done|].
    change (EvCreateProvider rpcUrl proxy :: t) with ([EvCreateProvider rpcUrl proxy] ++ t).
    by rewrite !delays_app, Hdel.
  - intros k h m h' _ Hatt h'' (t' & Ht' & Hdel').
    destruct (attempt_trace W rpcUrl privateKey proxy i n h) as (t & Ht & Hq & _).
    rewrite Hatt in Ht. simpl in Ht.
    apply afterProvider_quiet in Hq as (_ & Hdel & _).
    exists (([EvCreateProvider rpcUrl proxy] ++ t) ++
            (if (0 <? RETRY_DELAY cfg)%Z then [EvDelay (RETRY_DELAY cfg)] else []) ++ t').
    split.
    + rewrite Ht'. subst h'' h'. destruct (0 <? RETRY_DELAY cfg)%Z.
      * by rewrite <- !app_assoc.
      * by rewrite <- !app_assoc.
    + rewrite !delays_app, Hdel. simpl.
      destruct (0 <? RETRY_DELAY cfg)%Z eqn:E; simpl; [|done].
      constructor; [|done]. split; [done|]. by apply Z.ltb_lt.
  - intros k h _. exists []. by rewrite app_nil_r.
Qed.

(** An attempt that returns ends the loop, at any [retryCount] within the
    bound. *)
Lemma retryLoop_ok (privateKey : string) (proxy : option string)
    (i n k : nat) (h h' : Trace) (b : bool) :
  k <= MAX_RETRIES cfg ->
  Hum.attempt W rpcUrl privateKey proxy i n h = (Ok b, h') ->
  Hum.retryLoop cfg W rpcUrl privateKey proxy i n k h = (Ok b, h').
Proof.
  intros Hk Hatt. rewrite Hum.retryLoop_equation_1.
  destruct (decide (k <= MAX_RETRIES cfg)); [|lia].
  unfold try_catch. by rewrite Hatt.
Qed.

Lemma backoff_retryLoop_ok (privateKey : string) (proxy : option string)
    (i n k : nat) (d : Z) (h h' : Trace) (b : bool) :
  k <= MAX_RETRIES cfg ->
  Backoff.attempt W rpcUrl privateKey proxy i n h = (Ok b, h') ->
  Backoff.backoffLoop cfg W rpcUrl privateKey proxy i n k d h = (Ok b, h').
Proof.
  intros Hk Hatt. rewrite Backoff.backoffLoop_equation_1.
  destruct (decide (k <= MAX_RETRIES cfg)); [|lia].
  unfold try_catch. by rewrite Hatt.
Qed.

(** *** The loop of [main] in the variant with backoff *)

Lemma mainStep_returns (proxies : list string) (total : nat)
    (privateKey : string) (i : nat) (c : nat * nat) (h : Trace) :
  exists c' t,
    Backoff.mainStep cfg W rpcUrl proxies total privateKey i c h
    = (Ok c', h ++ EvClaimReward privateKey (selectProxy proxies i) i total :: t) /\
    invocations t = [].
Proof.
  unfold Backoff.mainStep. cbv zeta. unfold bind.
  destruct (backoff_claimReward_returns cfg W rpcUrl privateKey
              (selectProxy proxies i) i total h)
    as (b & t1 & retries & -> & Hinv1 & _).
  match goal with |- context [randomPause cfg W i total ?h0] =>
    destruct (randomPause_run cfg W i total h0) as (t2 & -> & Hidle) end.
  apply idle_quiet in Hidle as (Hinv2 & _).
  eexists _, (t1 ++ t2). unfold ret. split.
  - f_equal. by rewrite <- !app_assoc.
  - by rewrite invocations_app, Hinv1, Hinv2.
Qed.

Lemma mainLoop_returns (proxies : list string) (total : nat)
    (keys : list string) (i : nat) (c : nat * nat) (h : Trace) :
  exists c' t,
    Backoff.mainLoop cfg W rpcUrl proxies total keys i c h = (Ok c', h ++ t) /\
    invocations t = imap (fun j k => (k, selectProxy proxies (i + j))) keys.
Proof.
  revert i c h. induction keys as [|k keys IH]; intros i c h.
  - exists c, []. by rewrite app_nil_r.
  - cbn [Backoff.mainLoop]. unfold bind at 1.
    destruct (mainStep_returns proxies total k i c h) as (c1 & t1 & -> & Hinv1).
    destruct (IH (i + 1) c1 (h ++ EvClaimReward k (selectProxy proxies i) i total :: t1))
      as (c2 & t2 & -> & Hinv2).
    exists c2, ((EvClaimReward k (selectProxy proxies i) i total :: t1) ++ t2).
    rewrite <- app_assoc. split; [done|].
    rewrite invocations_app. simpl. rewrite Hinv1, Hinv2. simpl.
    rewrite Nat.add_0_r. f_equal. apply imap_ext. intros j x _. simpl.
    f_equal. f_equal. lia.
Qed.

Lemma main_returns (privateKeys proxies : list string) (h : Trace) :
  exists c shuffledKeys t,
    Backoff.main cfg W rpcUrl privateKeys proxies h = (Ok c, h ++ t) /\
    shuffledKeys ≡ₚ privateKeys /\
    invocations t = imap (fun j k => (k, selectProxy proxies j)) shuffledKeys.
Proof.
  unfold Backoff.main, shuffleArray. unfold bind at 1.
  destruct (shuffle_from_run W (length privateKeys - 1) privateKeys h)
    as (l & t0 & -> & Hperm & Hidle).
  apply idle_quiet in Hidle as (Hinv0 & _).
  unfold bind at 1, newDate. unfold bind at 1.
  destruct (mainLoop_returns proxies (length l) l 0 (0, 0)
              ((h ++ t0) ++ [EvNow (clock W (h ++ t0))]))
    as (c & t1 & -> & Hinv1).
  unfold bind at 1, ret.
  eexists _, l, (t0 ++ [EvNow _] ++ t1 ++ [EvNow _]).
  split; [f_equal; by rewrite <- !app_assoc|].
  split; [done|].
  rewrite !invocations_app, Hinv0, Hinv1. simpl. by rewrite app_nil_r.
Qed.

Lemma selectProxy_spec (proxies : list string) (i : nat) :
  (proxies = [] -> selectProxy proxies i = None) /\
  (proxies <> [] ->
   selectProxy proxies i = proxies !! (i mod length proxies) /\
   is_Some (selectProxy proxies i)).
Proof.
  unfold selectProxy. destruct proxies as [|p proxies]; [done|].
  split; [done|]. intros _. split; [done|]. cbn [length Nat.ltb Nat.leb].
  apply lookup_lt_is_Some. apply Nat.mod_upper_bound. done.
Qed.

Lemma imap_keys {A B} (g : nat -> A -> A * B) (l : list A) :
  (forall j k, (g j k).1 = k) -> (imap g l).*1 = l.
Proof.
  revert g. induction l as [|x l IH]; intros g Hg; [done|].
  rewrite imap_cons, fmap_cons, Hg. f_equal. apply IH. intros j k. apply Hg.
Qed.

(** *** A reward query that always fails

    In [hum/multiWalletClaim.js] the amount is read twice in an attempt,
    and only the first read is guarded: when the query fails at every call,
    no attempt gets as far as the submission. *)
Lemma attempt_query_down (privateKey : string) (proxy : option string)
    (i n : nat) (h : Trace) :
  (forall h' address, exists m, dailyRewardsAvailable W h' address = Throw m) ->
  exists m t,
    Hum.attempt W rpcUrl privateKey proxy i n h = (Throw m, h ++ t) /\
    claims t = [].
Proof.
  intros Hdown. rewrite attempt_run. cbv zeta.
  destruct (proxyAgent W proxy) as [[]|m]; [|by eexists m, [_]].
  destruct (walletAddress W privateKey) as [address|m]; [|by eexists m, [_]].
  destruct (Hdown (h ++ [EvCreateProvider rpcUrl proxy]) address) as [m1 ->].
  match goal with |- context [dailyRewardsAvailable W ?h2 address] =>
    destruct (Hdown h2 address) as [m2 ->] end.
  eexists m2, [_; _; _]. by rewrite <- !app_assoc.
Qed.

Lemma claimReward_query_down (privateKey : string) (proxy : option string)
    (i n : nat) (h : Trace) :
  (forall h' address, exists m, dailyRewardsAvailable W h' address = Throw m) ->
  exists t,
    Hum.claimReward cfg W rpcUrl privateKey proxy i n h = (Ok false, h ++ t) /\
    claims t = [].
Proof.
  intros Hdown. unfold Hum.claimReward, bind, emit.
  assert (forall k h0, exists t,
            Hum.retryLoop cfg W rpcUrl privateKey proxy i n k h0
            = (Ok false, h0 ++ t) /\ claims t = []) as Hloop.
  { apply (retryLoop_cases cfg W rpcUrl (fun k h0 r =>
      exists t, r = (Ok false, h0 ++ t) /\ claims t = [])).
    - intros k h0 b h' _ Hatt.
      destruct (attempt_query_down privateKey proxy i n h0 Hdown) as (m & t & Ht & _).
      rewrite Hatt in Ht. discriminate.
    - intros h0 m h' Hatt.
      destruct (attempt_query_down privateKey proxy i n h0 Hdown) as (m' & t & Ht & Hcl).
      rewrite Hatt in Ht. injection Ht as -> ->.
      rewrite giveUp_run. eexists. rewrite <- app_assoc. split; [done|].
      by rewrite claims_app, Hcl.
    - intros k h0 m h' _ Hatt h'' (t' & -> & Hcl').
      destruct (attempt_query_down privateKey proxy i n h0 Hdown) as (m' & t & Ht & Hcl).
      rewrite Hatt in Ht. injection Ht as -> ->.
      exists (t ++ (if (0 <? RETRY_DELAY cfg)%Z
                    then [EvDelay (RETRY_DELAY cfg)] else []) ++ t').
      split.
      + f_equal. subst h''. destruct (0 <? RETRY_DELAY cfg)%Z.
        * by rewrite <- !app_assoc.
        * by rewrite <- !app_assoc.
      + rewrite !claims_app, Hcl, Hcl'. by destruct (0 <? RETRY_DELAY cfg)%Z.
    - intros k h0 _. exists []. by rewrite app_nil_r. }
  destruct (Hloop 0 (h ++ [EvClaimReward privateKey proxy i n])) as (t & -> & Hcl).
  exists (EvClaimReward privateKey proxy i n :: t). by rewrite <- app_assoc.
Qed.

End MoreFacts.

(** * The claims *)

(** C1 — A reward query that raises is meant not to block the claim; in
    [hum/multiWalletClaim.js] it does.  [hasClaimedToday] catches the failure
    of its own query, but [claimReward] then reads the amount a second time,
    outside any [try] of its own: on a chain whose reward query fails every
    time the second read throws, the attempt ends there, and so do the ten
    retries; no claim is ever submitted and the wallet ends in the error log.
    The variant with backoff, which guards its only query, submits the claim
    in its first attempt on the same chain. *)
Theorem failed_query_blocks_claim :
  let run := Hum.claimReward hum_config queryDown "rpc" "K" None 0 1 [] in
  let older := Backoff.claimReward backoff_config queryDown "rpc" "K" None 0 1 [] in
  fst run = Ok false /\
  claims (snd run) = [] /\
  attempts (snd run) = 11 /\
  length (appended claim_error_log (snd run)) = 1 /\
  fst older = Ok true /\
  claims (snd older) = ["addr:K"] /\
  attempts (snd older) = 1.
Proof. vm_compute. repeat split; reflexivity. Qed.



(** C4 — In any attempt, if the reward query answers zero, the attempt ends
    there: it has created its provider and asked for the reward, it submits
    no claim, appends nothing to the logs, and [claimReward] returns [true]
    from that point, which is how it reports a wallet as already claimed.
    This holds of both scripts, at every [retryCount] within the bound. *)
Theorem zero_reward_skips_claim (cfg : Config) (W : World)
    (rpcUrl privateKey address : string) (proxy : option string)
    (i n k : nat) (d : Z) (h : Trace) :
  proxyAgent W proxy = Ok tt ->
  walletAddress W privateKey = Ok address ->
  dailyRewardsAvailable W (h ++ [EvCreateProvider rpcUrl proxy]) address
  = Ok 0%Z ->
  k <= MAX_RETRIES cfg ->
  let t := [EvCreateProvider rpcUrl proxy;
            EvDailyRewardsAvailable address (Ok 0%Z)] in
  claims t = [] /\ (forall f, appended f t = []) /\
  Hum.attempt W rpcUrl privateKey proxy i n h = (Ok true, h ++ t) /\
  Hum.retryLoop cfg W rpcUrl privateKey proxy i n k h = (Ok true, h ++ t) /\
  Backoff.attempt W rpcUrl privateKey proxy i n h = (Ok true, h ++ t) /\
  Backoff.backoffLoop cfg W rpcUrl privateKey proxy i n k d h = (Ok true, h ++ t).
Proof.
  intros Hagent Hw Hzero Hk t.
  assert (Hum.attempt W rpcUrl privateKey proxy i n h = (Ok true, h ++ t)) as Hhum.
  { rewrite attempt_run. cbv zeta. rewrite Hagent, Hw, Hzero.
    by rewrite <- app_assoc. }
  assert (Backoff.attempt W rpcUrl privateKey proxy i n h = (Ok true, h ++ t)) as Hold.
  { rewrite backoff_attempt_run. cbv zeta. rewrite Hagent, Hw, Hzero.
    by rewrite <- app_assoc. }
  split; [done|]. split; [done|]. split; [done|].
  split; [by apply retryLoop_ok|]. split; [done|].
  by apply backoff_retryLoop_ok.
Qed.

Lemma zero_reward_skips_claim_witness :
  Hum.attempt (steadyWorld rewardAB) "rpc" "A" None 0 2 []
  = (Ok true, [EvCreateProvider "rpc" None;
               EvDailyRewardsAvailable "addr:A" (Ok 0%Z)]).
Proof.
  apply (zero_reward_skips_claim hum_config (steadyWorld rewardAB) "rpc" "A"
           "addr:A" None 0 2 0 0%Z []); [reflexivity..|].
  vm_compute. lia.
Defined.

(** C5, as stated — the wait before retry [k] would be [d * f^(k-1)].  With
    the constants of the variant with backoff ([d = 5000], [f = 1.5]) and a
    network that cannot be reached, the wait before the fifth retry is
    25312 ms, while [5000 * 1.5^4 = 25312.5]: each escalated delay is rounded
    down by [Math.floor]. *)
Lemma backoff_wait_is_rounded :
  let t := snd (Backoff.claimReward backoff_config offline "rpc" "K" None 0 1 []) in
  (1 <= ESCALATION_FACTOR backoff_config)%Q /\
  delays t !! (5 - 1) = Some 25312%Z /\
  ~ (inject_Z 25312
     == inject_Z (RETRY_DELAY backoff_config)
        * ESCALATION_FACTOR backoff_config ^ Z.of_nat (5 - 1))%Q.
Proof.
  split; [by vm_compute|]. split; [by vm_compute|]. vm_compute. discriminate.
Qed.

(** C5, amended — In the variant with backoff, for a base delay [d] and a
    factor [f >= 1], the wait before retry [k] ([k >= 1]) is [d] escalated
    [k - 1] times, each escalation being [Math.floor] of the product with
    the factor, taken in doubles.  As long as no product is rounded (so with
    the script's 5000 and 1.5) each escalation is [w ↦ ⌊w * f⌋], the wait
    never exceeds [d * f^(k-1)], and it equals it when [f] is an integer.
    In [hum/multiWalletClaim.js] the factor is never read: every wait its
    retry loop makes is [RETRY_DELAY], and it makes one only when that is
    positive (the script sets 0). *)
Theorem wait_before_retry (cfg : Config) (W : World)
    (rpcUrl privateKey : string) (proxy : option string) (i n : nat)
    (h : Trace) (k : nat) (w : Z) :
  (1 <= ESCALATION_FACTOR cfg)%Q ->
  1 <= k ->
  (delays (drop (length h)
             (snd (Backoff.claimReward cfg W rpcUrl privateKey proxy i n h)))
   !! (k - 1) = Some w ->
   let f := binary64 (ESCALATION_FACTOR cfg) in
   ((0 <= RETRY_DELAY cfg)%Z -> isNumber (inject_Z (RETRY_DELAY cfg)) = true ->
    w = Nat.iter (k - 1) (fun w => Qfloor (binary64 (inject_Z w * f)))
          (RETRY_DELAY cfg)) /\
   (exactEscalations cfg (k - 1) (RETRY_DELAY cfg) = true ->
    w = Nat.iter (k - 1) (fun w => Qfloor (inject_Z w * f)) (RETRY_DELAY cfg) /\
    (inject_Z w <= inject_Z (RETRY_DELAY cfg) * f ^ Z.of_nat (k - 1))%Q /\
    (forall z, (f == inject_Z z)%Q ->
       (inject_Z w == inject_Z (RETRY_DELAY cfg) * f ^ Z.of_nat (k - 1))%Q)))
  /\
  (delays (drop (length h)
             (snd (Hum.claimReward cfg W rpcUrl privateKey proxy i n h)))
   !! (k - 1) = Some w ->
   w = RETRY_DELAY cfg /\ (0 < RETRY_DELAY cfg)%Z).
Proof.
  intros Hf Hk. split.
  - destruct (backoff_claimReward_returns cfg W rpcUrl privateKey proxy i n h)
      as (b & t & retries & -> & _ & _ & Hdel).
    cbn [snd]. rewrite drop_app_length.
    change (delays (_ :: t)) with (delays t). rewrite Hdel.
    intros Hw%waits_lookup. cbv zeta.
    change (binary64 (ESCALATION_FACTOR cfg)) with (Backoff.factor cfg).
    split.
    { intros Hd Hnum. rewrite Hw. apply iter_escalate_number; [|done..].
      eapply Qle_trans; [|exact Hf]. done. }
    intros Hexact.
    rewrite (iter_escalate_exact cfg _ _ Hexact) in Hw.
    split; [exact Hw|]. subst w.
    split; [apply iter_floor_le; by apply factor_ge_1|].
    intros z Hz.
    rewrite (iter_floor_integer cfg _ _ z Hz), Hz.
    rewrite inject_Z_mult. apply Qmult_comp; [reflexivity|].
    generalize (k - 1). intros j. induction j as [|j IH]; [reflexivity|].
    rewrite Nat2Z.inj_succ, Z.pow_succ_r by lia.
    rewrite <- Z.add_1_r, Qpower_plus', inject_Z_mult, IH by lia.
    rewrite Qmult_comm. reflexivity.
  - unfold Hum.claimReward, bind, emit.
    destruct (retryLoop_delays cfg W rpcUrl privateKey proxy i n 0
                (h ++ [EvClaimReward privateKey proxy i n])) as (t & Ht & Hdel).
    rewrite Ht, <- app_assoc, drop_app_length.
    change (delays (_ ++ t)) with (delays t). intros Hw.
    rewrite Forall_lookup in Hdel. destruct (Hdel _ _ Hw) as [-> Hpos].
    done.
Qed.

Lemma wait_before_retry_witness :
  25312%Z
  = Nat.iter (5 - 1)
      (fun w => Qfloor (binary64 (inject_Z w * binary64 (3 # 2)))) 5000%Z /\
  (inject_Z 25312 <= 5000 * binary64 (3 # 2) ^ 4)%Q /\
  3000%Z = RETRY_DELAY steady_config.
Proof.
  destruct (wait_before_retry backoff_config offline "rpc" "K" None 0 1 [] 5
              25312%Z) as [Hold _].
  { vm_compute. discriminate. }
  { lia. }
  destruct Hold as (Hiter & Hexact); [by vm_compute|].
  destruct Hexact as (_ & Hle & _); [by vm_compute|].
  split; [apply Hiter; by vm_compute|]. split; [exact Hle|].
  destruct (wait_before_retry steady_config offline "rpc" "K" None 0 1 [] 2
              3000%Z) as [_ Hhum].
  { vm_compute. discriminate. }
  { lia. }
  destruct Hhum as [Hw _]; [by vm_compute|exact Hw].
Defined.

(** [setHours] past the hour read by [getHours] gives the instant whose
    local time is the local time of the date moved by whole hours. *)
Lemma setHours_getHours (tz : TimeZone) (date hours : Z) :
  Hum.setHours tz date (Hum.getHours tz date + hours)
  = Hum.UTC tz (Hum.LocalTime tz date + hours * Hum.msPerHour)%Z.
Proof.
  unfold Hum.setHours, Hum.getHours, Hum.msPerDay, Hum.msPerHour. cbv zeta.
  set (l := Hum.LocalTime tz date). f_equal.
  pose proof (Z.div_mod l 3600000 ltac:(lia)) as Hl.
  pose proof (Z.div_mod (l / 3600000) 24 ltac:(lia)) as Hq.
  assert (l / 86400000 = l / 3600000 / 24)%Z as ->.
  { rewrite Z.div_div by lia. done. }
  lia.
Qed.

Lemma calculateNextRunTime_run (W : World) (sched : Schedule) (tz : TimeZone)
    (lastRunStats : Hum.CycleStats) (h : Trace) :
  Hum.calculateNextRunTime W sched tz lastRunStats h
  = (let hours := if 0 <? Hum.successCount lastRunStats
                   then HOURS_TO_WAIT_AFTER_CLAIM sched
                   else DAILY_CHECK_INTERVAL sched in
     (Ok (Hum.UTC tz (Hum.LocalTime tz (clock W h) + hours * Hum.msPerHour)%Z),
      h ++ [EvNow (clock W h)])).
Proof.
  unfold Hum.calculateNextRunTime, bind, newDate, ret.
  destruct (0 <? Hum.successCount lastRunStats);
    by rewrite setHours_getHours.
Qed.

(** What one round of the loop of [main] does after its cycle. *)
Lemma mainRound_run (cfg : Config) (W : World) (rpcUrl : string)
    (sched : Schedule) (tz : TimeZone) (privateKeys proxies : list string)
    (h : Trace) :
  exists stats h1,
    Hum.runClaimCycle cfg W rpcUrl privateKeys proxies h = (Ok stats, h1) /\
    let now1 := clock W h1 in
    let now2 := clock W (h1 ++ [EvNow now1]) in
    let hours := if 0 <? Hum.successCount stats
                 then HOURS_TO_WAIT_AFTER_CLAIM sched
                 else DAILY_CHECK_INTERVAL sched in
    Hum.mainRound cfg W rpcUrl sched tz privateKeys proxies h
    = (Ok tt,
       h1 ++ [EvNow now1; EvNow now2;
              EvDelay (Hum.UTC tz (Hum.LocalTime tz now1 + hours * Hum.msPerHour)
                       - now2)%Z]).
Proof.
  destruct (runClaimCycle_returns cfg W rpcUrl privateKeys proxies h)
    as (stats & l & t & Hrun & _).
  exists stats, (h ++ t). split; [done|]. cbv zeta.
  unfold Hum.mainRound. unfold bind at 1. rewrite Hrun.
  unfold bind at 1.
  rewrite calculateNextRunTime_run. cbv zeta.
  unfold bind, newDate, delay, emit. by rewrite <- !app_assoc.
Qed.




(** X16 — What [main] waits after a cycle: the scheduled number of hours,
    less the time that went by between the two readings of the clock, the
    one of [calculateNextRunTime] and the one of [main], and less what the
    zone's offset gains between now and the local time aimed at (an hour
    where the clocks are put forward in between, minus an hour where they
    are put back, nothing otherwise). *)
Lemma mainRound_wait (cfg : Config) (W : World) (rpcUrl : string)
    (sched : Schedule) (tz : TimeZone) (privateKeys proxies : list string)
    (h : Trace) :
  exists stats h1,
    Hum.runClaimCycle cfg W rpcUrl privateKeys proxies h = (Ok stats, h1) /\
    let now1 := clock W h1 in
    let now2 := clock W (h1 ++ [EvNow now1]) in
    let hours := if 0 <? Hum.successCount stats
                 then HOURS_TO_WAIT_AFTER_CLAIM sched
                 else DAILY_CHECK_INTERVAL sched in
    let gain := (tz (now1 + tz now1 true + hours * Hum.msPerHour) false
                 - tz now1 true)%Z in
    Hum.mainRound cfg W rpcUrl sched tz privateKeys proxies h
    = (Ok tt,
       h1 ++ [EvNow now1; EvNow now2;
              EvDelay (hours * Hum.msPerHour - (now2 - now1) - gain)%Z]).
Proof.
  destruct (mainRound_run cfg W rpcUrl sched tz privateKeys proxies h)
    as (stats & h1 & Hrun & Hmain).
  exists stats, h1. split; [done|]. cbv zeta in *. rewrite Hmain.
  unfold Hum.UTC, Hum.LocalTime.
  set (hours := if 0 <? Hum.successCount stats
                then HOURS_TO_WAIT_AFTER_CLAIM sched
                else DAILY_CHECK_INTERVAL sched).
  set (now1 := clock W h1). set (now2 := clock W (h1 ++ [EvNow now1])).
  set (ms := (hours * Hum.msPerHour)%Z).
  set (offset := tz (now1 + tz now1 true + ms)%Z false).
  assert (now1 + tz now1 true + ms - offset - now2
          = ms - (now2 - now1) - (offset - tz now1 true))%Z as -> by lia.
  done.
Qed.

(** C7 — In a cycle, [claimReward] is called once for each position of the
    shuffled keys, and the call at position [i] is given the proxy
    [proxies[i mod |proxies|]] when there are proxies, and none when there
    are not.  This holds of [runClaimCycle] and of the loop of [main] in the
    variant with backoff. *)
Theorem proxy_by_position_modulo_pool (cfg : Config) (W : World)
    (rpcUrl : string) (privateKeys proxies : list string) (h : Trace) :
  (exists stats t,
     Hum.runClaimCycle cfg W rpcUrl privateKeys proxies h = (Ok stats, h ++ t) /\
     length (invocations t) = length privateKeys /\
     forall i key proxy,
       invocations t !! i = Some (key, proxy) ->
       (proxies = [] -> proxy = None) /\
       (proxies <> [] ->
        proxy = proxies !! (i mod length proxies) /\ is_Some proxy))
  /\
  (exists c t,
     Backoff.main cfg W rpcUrl privateKeys proxies h = (Ok c, h ++ t) /\
     length (invocations t) = length privateKeys /\
     forall i key proxy,
       invocations t !! i = Some (key, proxy) ->
       (proxies = [] -> proxy = None) /\
       (proxies <> [] ->
        proxy = proxies !! (i mod length proxies) /\ is_Some proxy)).
Proof.
  split.
  - destruct (runClaimCycle_returns cfg W rpcUrl privateKeys proxies h)
      as (stats & l & t & Hrun & Hperm & _ & Hinv).
    exists stats, t. split; [done|]. rewrite Hinv, length_imap. split.
    { by rewrite Hperm. }
    intros i key proxy Hi. rewrite list_lookup_imap in Hi.
    destruct (l !! i) as [k|]; [|done]. injection Hi as <- <-.
    apply selectProxy_spec.
  - destruct (main_returns cfg W rpcUrl privateKeys proxies h)
      as (c & l & t & Hrun & Hperm & Hinv).
    exists c, t. split; [done|]. rewrite Hinv, length_imap. split.
    { by rewrite Hperm. }
    intros i key proxy Hi. rewrite list_lookup_imap in Hi.
    destruct (l !! i) as [k|]; [|done]. injection Hi as <- <-.
    apply selectProxy_spec.
Qed.

Lemma proxy_by_position_modulo_pool_witness :
  exists stats t,
    Hum.runClaimCycle hum_config (steadyWorld rewardAB) "rpc"
      ["A"; "B"; "C"; "D"] ["p1"; "p2"; "p3"] [] = (Ok stats, t) /\
    invocations t !! 3 = Some ("A", Some "p1") /\
    Some "p1" = ["p1"; "p2"; "p3"] !! (3 mod 3).
Proof.
  destruct (proxy_by_position_modulo_pool hum_config (steadyWorld rewardAB) "rpc"
              ["A"; "B"; "C"; "D"] ["p1"; "p2"; "p3"] [])
    as [(stats & t & Hrun & Hlen & Hproxy) _].
  exists stats, t. split; [exact Hrun|].
  assert (invocations t !! 3 = Some ("A", Some "p1")) as H3.
  { revert Hrun. vm_compute. intros [= _ <-]. reflexivity. }
  split; [exact H3|].
  destruct (Hproxy 3 "A" (Some "p1") H3) as [_ Hsome].
  destruct Hsome as [Heq _]; [discriminate|]. exact Heq.
Defined.

(** C8 — In a cycle, [claimReward] is called exactly once per credential:
    the credentials it is called with, in the order of the calls, are a
    permutation of the credentials given, and the cycle always comes to its
    end. *)
Theorem runClaimCycle_attempts_each_credential_once (cfg : Config) (W : World)
    (rpcUrl : string) (privateKeys proxies : list string) (h : Trace) :
  exists stats t,
    Hum.runClaimCycle cfg W rpcUrl privateKeys proxies h = (Ok stats, h ++ t) /\
    (invocations t).*1 ≡ₚ privateKeys /\
    Hum.totalWallets stats = length privateKeys.
Proof.
  destruct (runClaimCycle_returns cfg W rpcUrl privateKeys proxies h)
    as (stats & l & t & Hrun & Hperm & Htotal & Hinv).
  exists stats, t. split; [done|]. split; [|done].
  by rewrite Hinv, imap_keys.
Qed.

(** *** The trimmed form of a line is unique *)

Lemma allWhiteSpace_append (a b : string) :
  allWhiteSpace (a +:+ b) = allWhiteSpace a && allWhiteSpace b.
Proof.
  induction a as [|c a IH]; [done|]. rewrite append_String. simpl.
  by rewrite IH, andb_assoc.
Qed.

Lemma trimStart_allWhiteSpace (s : string) :
  allWhiteSpace s = true -> trimStart s = "".
Proof.
  induction s as [|c s IH]; [done|]. simpl. intros [Hc Hs]%andb_prop.
  rewrite Hc. auto.
Qed.

Lemma trimEnd_allWhiteSpace (s : string) :
  allWhiteSpace s = true -> trimEnd s = "".
Proof.
  induction s as [|c s IH]; [done|]. simpl. intros [Hc Hs]%andb_prop.
  by rewrite (IH Hs), Hc.
Qed.

Lemma trimStart_append (a s : string) :
  allWhiteSpace a = true -> startsWithWhiteSpace s = false ->
  trimStart (a +:+ s) = s.
Proof.
  intros Ha Hs. induction a as [|c a IH].
  - destruct s as [|d s]; [done|]. simpl in *. by rewrite Hs.
  - simpl in Ha. apply andb_prop in Ha as [Hc Ha].
    rewrite append_String. simpl. rewrite Hc. auto.
Qed.

Lemma trimEnd_append (t b : string) :
  allWhiteSpace b = true -> endsWithWhiteSpace t = false ->
  trimEnd (t +:+ b) = t.
Proof.
  intros Hb. induction t as [|c t IH]; intros Ht.
  - by apply trimEnd_allWhiteSpace.
  - rewrite append_String. cbn [trimEnd]. destruct t as [|d t].
    + change ("" +:+ b) with b. rewrite (trimEnd_allWhiteSpace b Hb).
      simpl in Ht. by rewrite Ht.
    + rewrite IH; [done|]. exact Ht.
Qed.

Lemma Trimmed_trim (line t : string) : Trimmed line t -> t = trim line.
Proof.
  intros (a & b & -> & Ha & Hb & Hstart & Hend). unfold trim.
  destruct t as [|c t].
  - change ("" +:+ b) with b. rewrite trimStart_allWhiteSpace; [done|].
    by rewrite allWhiteSpace_append, Ha, Hb.
  - rewrite trimStart_append; [|done|exact Hstart].
    by rewrite trimEnd_append.
Qed.

Lemma TrimmedNonEmpty_parse (lines out : list string) :
  TrimmedNonEmpty lines out ->
  out = List.filter nonEmpty (List.map trim lines).
Proof.
  induction 1 as [|line lines out Ht _ IH|line t lines out Ht Hne _ IH]; simpl.
  - done.
  - apply Trimmed_trim in Ht. by rewrite <- Ht.
  - apply Trimmed_trim in Ht. rewrite <- Ht.
    apply nonEmpty_spec in Hne. rewrite Hne. by rewrite IH.
Qed.

(** C9 — A readable file is a sequence of lines joined by line feeds; both
    loaders return the trimmed non-empty lines of that sequence, in order,
    and nothing else.  When the credential file is missing or cannot be
    read, [readPrivateKeys] throws an error that carries the reason; a
    missing proxy file makes [readProxies] return the empty sequence. *)
Theorem loaders_contract (fs : FileSystem) (filePath : string) :
  (forall lines out,
     lines <> [] -> forallb lineFeedFree lines = true ->
     fs filePath = Readable (join_lines lines) ->
     TrimmedNonEmpty lines out ->
     readPrivateKeys fs filePath = Ok out /\ readProxies fs filePath = out) /\
  (forall content,
     fs filePath = Readable content ->
     exists lines out,
       lines <> [] /\ forallb lineFeedFree lines = true /\
       content = join_lines lines /\ TrimmedNonEmpty lines out) /\
  (fs filePath = Missing ->
   readPrivateKeys fs filePath
   = Throw ("读取私钥文件失败: " +:+ ENOENT filePath) /\
   readProxies fs filePath = []) /\
  (forall message,
     fs filePath = Unreadable message ->
     readPrivateKeys fs filePath = Throw ("读取私钥文件失败: " +:+ message)).
Proof.
  unfold readPrivateKeys, readProxies, readFileSync, existsSync, parseLines.
  split; [|split; [|split]].
  - intros lines out Hne Hfree -> Hout. simpl.
    rewrite (split_join_lines lines Hne Hfree).
    by rewrite (TrimmedNonEmpty_parse lines out Hout).
  - intros content _. destruct (join_split_lines content) as [Hjoin Hfree].
    exists (split_lines content), (List.filter nonEmpty (List.map trim (split_lines content))).
    split; [apply split_lines_nonempty|]. split; [done|]. split; [done|].
    apply parse_TrimmedNonEmpty.
  - by intros ->.
  - by intros message ->.
Qed.

Lemma loaders_contract_witness :
  readPrivateKeys exampleFiles "pk.txt" = Ok ["0xabc"; "0xdef"] /\
  readProxies exampleFiles "pk.txt" = ["0xabc"; "0xdef"] /\
  readProxies exampleFiles "proxies.txt" = [].
Proof.
  destruct (loaders_contract exampleFiles "pk.txt") as (Hread & _).
  destruct (loaders_contract exampleFiles "proxies.txt") as (_ & _ & Hmiss & _).
  destruct (Hread [" 0xabc "; ""; "0xdef" +:+ String "013" ""; "  "]
              ["0xabc"; "0xdef"]) as [Hkeys Hproxies].
  - discriminate.
  - reflexivity.
  - reflexivity.
  - apply tne_keep.
    + exists " ", " ". repeat split; reflexivity.
    + discriminate.
    + apply tne_blank.
      * exists "", "". repeat split; reflexivity.
      * apply tne_keep.
        -- exists "", (String "013" ""). repeat split; reflexivity.
        -- discriminate.
        -- apply tne_blank; [|apply tne_nil].
           exists "  ", "". repeat split; reflexivity.
  - split; [exact Hkeys|]. split; [exact Hproxies|].
    destruct Hmiss as [_ Hempty]; [reflexivity|exact Hempty].
Defined.

(** Once the fee data are there, the claim is submitted. *)
Lemma submitClaim_claims (W : World) (address : string) (i n : nat) (h : Trace) :
  (exists feeData, getFeeData W h = Ok feeData) ->
  claims (snd (submitClaim W address i n h)) = claims h ++ [address].
Proof.
  intros [feeData Hfee]. rewrite submitClaim_run. cbv zeta. rewrite Hfee.
  destruct (claimRewardTx W _ address feeData) as [tx|m].
  - destruct (txWait W _ tx) as [r|m]; cbn [snd];
      rewrite !claims_app; cbn; by rewrite ?app_nil_r.
  - cbn [snd]. rewrite !claims_app. cbn. by rewrite ?app_nil_r.
Qed.

(** C10 — The test for "already claimed" is the test for zero.  The text
    printed by [formatEther] is ["0.0"] for the amount 0 and for no other;
    so [hasClaimedToday] answers [true] exactly when the query returns 0, and
    in an attempt whose query returns an amount other than 0, however small,
    the claim is submitted as soon as the reads before it succeed (the second
    reading of the amount in [hum/multiWalletClaim.js], the fee data in
    both scripts). *)
Theorem already_claimed_iff_zero (W : World) (rpcUrl privateKey address : string)
    (proxy : option string) (i n : nat) (h : Trace) (v : Z) :
  (String.eqb (formatEther v) "0.0" = true <-> v = 0%Z) /\
  (dailyRewardsAvailable W h address = Ok v ->
   (fst (hasClaimedToday W address h) = Ok true <-> v = 0%Z)) /\
  (proxyAgent W proxy = Ok tt ->
   walletAddress W privateKey = Ok address ->
   dailyRewardsAvailable W (h ++ [EvCreateProvider rpcUrl proxy]) address = Ok v ->
   v <> 0%Z ->
   (forall h', exists feeData, getFeeData W h' = Ok feeData) ->
   ((forall h', exists v', dailyRewardsAvailable W h' address = Ok v') ->
    claims (snd (Hum.attempt W rpcUrl privateKey proxy i n h))
    = claims h ++ [address]) /\
   claims (snd (Backoff.attempt W rpcUrl privateKey proxy i n h))
   = claims h ++ [address]).
Proof.
  split; [|split].
  - rewrite String.eqb_eq. apply formatEther_zero_iff.
  - intros Hq. rewrite hasClaimedToday_run, Hq. cbn [fst]. split.
    + intros [= Hb]. by apply bool_decide_eq_true in Hb.
    + intros ->. done.
  - intros Hagent Hw Hq Hv Hfee.
    assert (forall X (x y : X), match v with 0%Z => x | _ => y end = y) as Hmatch.
    { intros. by destruct v. }
    split.
    + intros Hreads. rewrite attempt_run. cbv zeta.
      rewrite Hagent, Hw, Hq, Hmatch.
      match goal with |- context [dailyRewardsAvailable W ?h2 address] =>
        destruct (Hreads h2) as [v' ->] end.
      rewrite submitClaim_claims by apply Hfee.
      rewrite !claims_app. cbn. by rewrite !app_nil_r.
    + rewrite backoff_attempt_run. cbv zeta.
      rewrite Hagent, Hw, Hq, Hmatch.
      rewrite submitClaim_claims by apply Hfee.
      rewrite !claims_app. cbn. by rewrite !app_nil_r.
Qed.

Lemma already_claimed_iff_zero_witness :
  claims (snd (Hum.attempt (steadyWorld (fun _ => 1%Z)) "rpc" "K" None 0 1 []))
  = ["addr:K"] /\
  formatEther 1 <> "0.0".
Proof.
  pose proof (already_claimed_iff_zero (steadyWorld (fun _ => 1%Z)) "rpc" "K"
                "addr:K" None 0 1 [] 1%Z) as (Hfmt & _ & Hsub).
  assert (1%Z <> 0%Z) as Hv by discriminate.
  assert (forall h' : Trace, exists feeData,
            getFeeData (steadyWorld (fun _ => 1%Z)) h' = Ok feeData) as Hfee.
  { intros h'. eexists. reflexivity. }
  destruct (Hsub eq_refl eq_refl eq_refl Hv Hfee) as [Hhum _].
  split.
  - apply Hhum. intros h'. eexists. reflexivity.
  - intros H. apply String.eqb_eq in H. apply Hfmt in H. discriminate.
Defined.

Lemma runClaimCycle_two_wallets_witness :
  exists stats t,
    Hum.runClaimCycle hum_config (steadyWorld rewardAB) "rpc" ["A"; "B"] [] []
    = (Ok stats, t) /\
    Hum.successCount stats = 1 /\ Hum.skippedCount stats = 1 /\
    Hum.failCount stats = 0 /\ Hum.totalWallets stats = 2 /\
    claims t = ["addr:B"] /\
    length (appended claim_log t) = 1.
Proof.
  assert (forall h : Trace, exists feeData,
            getFeeData (steadyWorld rewardAB) h = Ok feeData) as Hfees.
  { intros h. eexists. reflexivity. }
  assert (forall (h : Trace) (address : string) (feeData : FeeData), exists tx,
            claimRewardTx (steadyWorld rewardAB) h address feeData = Ok tx) as Hsends.
  { intros h address feeData. eexists. reflexivity. }
  assert (forall (h : Trace) (tx : string), exists receipt,
            txWait (steadyWorld rewardAB) h tx = Ok receipt) as Hconfirms.
  { intros h tx. eexists. reflexivity. }
  assert (forall h : Trace,
            dailyRewardsAvailable (steadyWorld rewardAB) h "addr:A" = Ok 0%Z) as Hzero.
  { intros h. reflexivity. }
  assert (forall h : Trace, exists v,
            dailyRewardsAvailable (steadyWorld rewardAB) h "addr:B" = Ok v /\
            (0 < v)%Z) as Hpos.
  { intros h. eexists. split; [reflexivity|]. reflexivity. }
  destruct (runClaimCycle_two_wallets hum_config (steadyWorld rewardAB) "rpc"
              Hfees Hsends Hconfirms "A" "B" "addr:A" "addr:B" []
              eq_refl eq_refl Hzero Hpos)
    as (stats & t & timestamp & index & tx & Hrun & H1 & H2 & H3 & H4 & H5 & H6 & _).
  exists stats, t. split; [exact Hrun|]. repeat (split; [assumption|]).
  rewrite H6. reflexivity.
Defined.


(** * Further properties of the scripts *)

(** ** [shuffleArray] and [getRandomNumber] *)

Lemma shuffle_from_draws {A} (W : World) (i : nat) (l : list A) (h : Trace) :
  exists l' t,
    shuffle_from W i l h = (Ok l', h ++ t) /\ l' ≡ₚ l /\
    length t = i /\ forallb isDraw t = true.
Proof.
  revert l h. induction i as [|i IH]; intros l h.
  - exists l, []. by rewrite app_nil_r.
  - cbn [shuffle_from]. unfold bind at 1, randomBelow.
    destruct (IH (swap (S i) (random W h mod (S i + 1)) l)
                 (h ++ [EvRandom (random W h mod (S i + 1))]))
      as (l' & t & -> & Hperm & Hlen & Hdraw).
    exists l', (EvRandom (random W h mod (S i + 1)) :: t).
    rewrite <- app_assoc. split; [done|]. split.
    + by rewrite Hperm, swap_Permutation.
    + simpl. by rewrite Hlen, Hdraw.
Qed.

(** X1 — [shuffleArray] returns a permutation of its argument, of the same
    length, and does nothing but draw random numbers: one draw less than
    there are elements, none for an empty array or an array of one
    element. *)
Theorem shuffleArray_permutes {A} (W : World) (array : list A) (h : Trace) :
  exists newArray t,
    shuffleArray W array h = (Ok newArray, h ++ t) /\
    newArray ≡ₚ array /\
    length newArray = length array /\
    length t = length array - 1 /\
    forallb isDraw t = true.
Proof.
  unfold shuffleArray.
  destruct (shuffle_from_draws W (length array - 1) array h)
    as (l & t & Hrun & Hperm & Hlen & Hdraw).
  exists l, t. split; [done|]. split; [done|]. split; [by rewrite Hperm|done].
Qed.

(** X2 — For [min <= max], [getRandomNumber(min, max)] makes one draw and
    returns an integer between [min] and [max], both included. *)
Theorem getRandomNumber_in_range (W : World) (min max : Z) (h : Trace) :
  (min <= max)%Z ->
  exists r j,
    getRandomNumber W min max h = (Ok r, h ++ [EvRandom j]) /\
    (min <= r <= max)%Z.
Proof.
  intros Hle. unfold getRandomNumber, bind, randomBelow, ret.
  eexists _, _. split; [reflexivity|].
  pose proof (Nat.mod_upper_bound (random W h) (Z.to_nat (max - min + 1))
                ltac:(lia)) as Hlt.
  lia.
Qed.

Lemma getRandomNumber_in_range_witness :
  exists r j,
    getRandomNumber (steadyWorld rewardAB) 10 60 [] = (Ok r, [EvRandom j]) /\
    (10 <= r <= 60)%Z.
Proof.
  apply (getRandomNumber_in_range (steadyWorld rewardAB) 10 60 []). lia.
Defined.

(** ** The loaders, once more *)

Lemma lineFeedFree_trimStart (s : string) :
  lineFeedFree s = true -> lineFeedFree (trimStart s) = true.
Proof.
  induction s as [|c s IH]; [done|]. simpl. intros [Hc Hs]%andb_prop.
  destruct (isWhiteSpace c); [auto|]. simpl. by rewrite Hc, Hs.
Qed.

Lemma lineFeedFree_trimEnd (s : string) :
  lineFeedFree s = true -> lineFeedFree (trimEnd s) = true.
Proof.
  induction s as [|c s IH]; [done|]. simpl. intros [Hc Hs]%andb_prop.
  specialize (IH Hs). destruct (trimEnd s) as [|d t].
  - destruct (isWhiteSpace c); [done|]. simpl. by rewrite Hc.
  - simpl in *. by rewrite Hc, IH.
Qed.

Lemma trim_idempotent (s : string) : trim (trim s) = trim s.
Proof.
  symmetry. apply Trimmed_trim.
  destruct (trim_Trimmed s) as (_ & _ & _ & _ & _ & Hstart & Hend).
  exists "", "". change ("" +:+ ?x) with x. rewrite append_empty_r. done.
Qed.

Lemma parseLines_loaded (content : string) :
  Forall loadedLine (parseLines content).
Proof.
  unfold parseLines. destruct (join_split_lines content) as [_ Hfree].
  induction (split_lines content) as [|line lines IH]; [constructor|].
  simpl in Hfree. apply andb_prop in Hfree as [Hline Hlines]. simpl.
  destruct (nonEmpty (trim line)) eqn:E; [|auto].
  constructor; [|auto]. split; [done|]. split; [apply trim_idempotent|].
  by apply lineFeedFree_trimEnd, lineFeedFree_trimStart.
Qed.

Lemma parseLines_join (keys : list string) :
  Forall loadedLine keys -> parseLines (join_lines keys) = keys.
Proof.
  intros Hkeys. unfold parseLines. destruct keys as [|k keys]; [done|].
  rewrite split_join_lines; [|done|].
  - induction Hkeys as [|x l (Hne & Htrim & _) _ IH]; [done|].
    simpl. by rewrite Htrim, Hne, IH.
  - induction Hkeys as [|x l (_ & _ & Hfree) _ IH]; [done|].
    simpl. by rewrite Hfree, IH.
Qed.

(** X3 — Every line a loader returns is non-empty, has no white space at
    its ends and no line feed; so a file made of the loaded lines, one per
    line, loads to the same lines. *)
Theorem loaded_lines_reload (fs fs' : FileSystem) (filePath filePath' : string)
    (keys : list string) :
  readPrivateKeys fs filePath = Ok keys ->
  Forall loadedLine keys /\
  (fs' filePath' = Readable (join_lines keys) ->
   readPrivateKeys fs' filePath' = Ok keys /\ readProxies fs' filePath' = keys).
Proof.
  unfold readPrivateKeys, readProxies, existsSync, readFileSync.
  destruct (fs filePath) as [|m|content]; [done..|]. intros [= <-].
  split; [apply parseLines_loaded|]. intros ->. simpl.
  by rewrite parseLines_join by apply parseLines_loaded.
Qed.

Lemma loaded_lines_reload_witness :
  readPrivateKeys (fun _ => Readable (join_lines ["0xabc"; "0xdef"])) "copy.txt"
  = Ok ["0xabc"; "0xdef"].
Proof.
  destruct (loaded_lines_reload exampleFiles
              (fun _ => Readable (join_lines ["0xabc"; "0xdef"]))
              "pk.txt" "copy.txt" ["0xabc"; "0xdef"] eq_refl) as [_ Hreload].
  destruct (Hreload eq_refl) as [Hkeys _]. exact Hkeys.
Defined.

(** ** [hasClaimedToday] *)

(** X4 — [hasClaimedToday] never throws: it queries the reward once, does
    nothing else, answers [true] exactly when the query answers 0, and
    [false] when the query fails. *)
Theorem hasClaimedToday_never_throws (W : World) (address : string) (h : Trace) :
  exists claimed,
    hasClaimedToday W address h
    = (Ok claimed,
       h ++ [EvDailyRewardsAvailable address (dailyRewardsAvailable W h address)]) /\
    (claimed = true <-> dailyRewardsAvailable W h address = Ok 0%Z) /\
    forall m, dailyRewardsAvailable W h address = Throw m -> claimed = false.
Proof.
  rewrite hasClaimedToday_run. eexists. split; [reflexivity|].
  destruct (dailyRewardsAvailable W h address) as [v|m'].
  - split; [|done]. rewrite bool_decide_eq_true. split; congruence.
  - split; [|done]. split; discriminate.
Qed.

Lemma hasClaimedToday_never_throws_witness :
  fst (hasClaimedToday queryDown "addr:K" []) = Ok false.
Proof.
  destruct (hasClaimedToday_never_throws queryDown "addr:K" [])
    as (claimed & Hrun & _ & Hfalse).
  rewrite Hrun. cbn [fst]. f_equal.
  apply (Hfalse "could not decode result data"). reflexivity.
Defined.

(** ** [claimReward], whatever the chain does *)

Section Accounting.

Variable cfg : Config.
Variable W : World.
Variable rpcUrl : string.

Lemma submitClaim_accounts (address : string) (i n : nat) (h : Trace) :
  exists r t,
    submitClaim W address i n h = (r, h ++ t) /\
    forallb afterProvider t = true /\
    length (claims t) <= 1 /\
    match r with
    | Ok b => b = true /\ length (appended claim_log t) = 1 /\ accepted t = [address]
    | Throw _ => appended claim_log t = []
    end.
Proof.
  rewrite submitClaim_run. cbv zeta.
  destruct (getFeeData W h) as [fee|m].
  2:{ eexists _, [_]. split; [reflexivity|]. simpl. repeat split; lia. }
  destruct (claimRewardTx W _ address fee) as [tx|m].
  2:{ eexists _, [_; _]. rewrite <- !app_assoc. split; [reflexivity|].
      simpl. repeat split; lia. }
  destruct (txWait W _ tx) as [r|m].
  2:{ eexists _, [_; _; _]. rewrite <- !app_assoc. split; [reflexivity|].
      simpl. repeat split; lia. }
  eexists _, [_; _; _; _; _]. rewrite <- !app_assoc. split; [reflexivity|].
  simpl. repeat split; lia.
Qed.

Lemma attempt_accounts (privateKey : string) (proxy : option string)
    (i n : nat) (h : Trace) :
  exists r t,
    Hum.attempt W rpcUrl privateKey proxy i n h
    = (r, h ++ EvCreateProvider rpcUrl proxy :: t) /\
    forallb afterProvider t = true /\
    length (claims t) <= 1 /\
    match r with
    | Ok b => b = true /\ length (appended claim_log t) <= 1
    | Throw _ => appended claim_log t = []
    end.
Proof.
  rewrite attempt_run. cbv zeta.
  destruct (proxyAgent W proxy) as [[]|m].
  2:{ eexists _, []. split; [reflexivity|]. simpl. repeat split; lia. }
  destruct (walletAddress W privateKey) as [address|m].
  2:{ eexists _, []. split; [reflexivity|]. simpl. repeat split; lia. }
  set (h1 := h ++ [EvCreateProvider rpcUrl proxy]).
  set (q1 := dailyRewardsAvailable W h1 address).
  set (h2 := h1 ++ [EvDailyRewardsAvailable address q1]).
  set (q2 := dailyRewardsAvailable W h2 address).
  set (h3 := h2 ++ [EvDailyRewardsAvailable address q2]).
  assert (exists r t,
    match q2 with
    | Ok _ => submitClaim W address i n h3
    | Throw m => (Throw m, h3)
    end = (r, h ++ EvCreateProvider rpcUrl proxy :: t) /\
    forallb afterProvider t = true /\
    length (claims t) <= 1 /\
    match r with
    | Ok b => b = true /\ length (appended claim_log t) <= 1
    | Throw _ => appended claim_log t = []
    end) as Hrest.
  { destruct q2 as [v2|m] eqn:E2.
    - destruct (submitClaim_accounts address i n h3) as (r & t & -> & Hq & Hcl & Hr).
      exists r, ([EvDailyRewardsAvailable address q1;
                  EvDailyRewardsAvailable address (Ok v2)] ++ t).
      split; [subst h3 h2 h1; by rewrite <- !app_assoc|].
      split; [done|]. rewrite claims_app, appended_app. split; [done|].
      destruct r as [b|m]; [|done]. destruct Hr as (Hb & Hlog & _).
      split; [done|]. simpl. lia.
    - eexists _, [EvDailyRewardsAvailable address q1;
                  EvDailyRewardsAvailable address (Throw m)].
      split; [subst h3 h2 h1; by rewrite <- !app_assoc|].
      simpl. repeat split; lia. }
  destruct q1 as [v1|m1] eqn:E1; [|exact Hrest].
  destruct v1; [|exact Hrest..].
  eexists _, [EvDailyRewardsAvailable address (Ok 0%Z)].
  split; [subst h2 h1; by rewrite <- !app_assoc|]. simpl. repeat split; lia.
Qed.

Lemma retryLoop_accounts (privateKey : string) (proxy : option string)
    (i n k : nat) (h : Trace) :
  exists b t,
    Hum.retryLoop cfg W rpcUrl privateKey proxy i n k h = (Ok b, h ++ t) /\
    (k <= MAX_RETRIES cfg ->
     1 <= attempts t /\ attempts t + k <= MAX_RETRIES cfg + 1 /\
     length (delays t)
     = (if (0 <? RETRY_DELAY cfg)%Z then attempts t - 1 else 0) /\
     (b = false ->
      attempts t + k = MAX_RETRIES cfg + 1 /\
      length (appended claim_error_log t) = 1)) /\
    length (claims t) <= attempts t /\
    (b = true ->
     appended claim_error_log t = [] /\ length (appended claim_log t) <= 1) /\
    (b = false -> appended claim_log t = []).
Proof.
  revert k h.
  apply (retryLoop_cases cfg W rpcUrl (fun k h r =>
    exists b t, r = (Ok b, h ++ t) /\
      (k <= MAX_RETRIES cfg ->
       1 <= attempts t /\ attempts t + k <= MAX_RETRIES cfg + 1 /\
       length (delays t)
       = (if (0 <? RETRY_DELAY cfg)%Z then attempts t - 1 else 0) /\
       (b = false ->
        attempts t + k = MAX_RETRIES cfg + 1 /\
        length (appended claim_error_log t) = 1)) /\
      length (claims t) <= attempts t /\
      (b = true ->
       appended claim_error_log t = [] /\ length (appended claim_log t) <= 1) /\
      (b = false -> appended claim_log t = []))).
  - intros k h b h' Hk Hatt.
    destruct (attempt_accounts privateKey proxy i n h) as (r & t & Ht & Hq & Hcl & Hr).
    rewrite Hatt in Ht. injection Ht as <- ->. destruct Hr as [-> Hlog].
    apply afterProvider_quiet in Hq as (Hatts & Hdel & _ & Herr).
    exists true, (EvCreateProvider rpcUrl proxy :: t). split; [done|].
    change (EvCreateProvider rpcUrl proxy :: t)
      with ([EvCreateProvider rpcUrl proxy] ++ t).
    rewrite attempts_app, delays_app, claims_app, !appended_app, Hatts, Hdel, Herr.
    unfold attempts. simpl.
    destruct (0 <? RETRY_DELAY cfg)%Z;
      repeat split; intros; try discriminate; try done; lia.
  - intros h m h' Hatt.
    destruct (attempt_accounts privateKey proxy i n h) as (r & t & Ht & Hq & Hcl & Hr).
    rewrite Hatt in Ht. injection Ht as <- ->.
    apply afterProvider_quiet in Hq as (Hatts & Hdel & _ & Herr).
    rewrite giveUp_run. eexists false, _. rewrite <- app_assoc.
    split; [reflexivity|].
    change (EvCreateProvider rpcUrl proxy :: t)
      with ([EvCreateProvider rpcUrl proxy] ++ t).
    rewrite !attempts_app, !delays_app, !claims_app, !appended_app,
      Hatts, Hdel, Herr, Hr.
    unfold attempts. simpl. rewrite app_nil_r.
    destruct (0 <? RETRY_DELAY cfg)%Z;
      repeat split; intros; try discriminate; try done; lia.
  - intros k h m h' Hlt Hatt h'' (b & t' & -> & Hin & Hcl' & Htrue & Hfalse).
    destruct Hin as (Hone & Hmax & Hdel' & Hused); [lia|].
    destruct (attempt_accounts privateKey proxy i n h) as (r & t & Ht & Hq & Hcl & Hr).
    rewrite Hatt in Ht. injection Ht as <- Ht.
    apply afterProvider_quiet in Hq as (Hatts & Hdel & _ & Herr).
    exists b, (([EvCreateProvider rpcUrl proxy] ++ t) ++
               (if (0 <? RETRY_DELAY cfg)%Z then [EvDelay (RETRY_DELAY cfg)] else []) ++ t').
    split.
    { f_equal. subst h'' h'. destruct (0 <? RETRY_DELAY cfg)%Z.
      - by rewrite <- !app_assoc.
      - by rewrite <- !app_assoc. }
    rewrite !attempts_app, !delays_app, !claims_app, !appended_app,
      Hatts, Hdel, Herr, Hr.
    assert (attempts [EvCreateProvider rpcUrl proxy] = 1) as -> by done.
    assert (claims [EvCreateProvider rpcUrl proxy] = []) as -> by done.
    assert (appended claim_error_log [EvCreateProvider rpcUrl proxy] = []) as -> by done.
    assert (appended claim_log [EvCreateProvider rpcUrl proxy] = []) as -> by done.
    destruct b.
    + destruct (Htrue eq_refl) as [Herr' Hlog'].
      destruct (0 <? RETRY_DELAY cfg)%Z; simpl; rewrite ?length_app; simpl;
        repeat split; intros; try discriminate; try done; lia.
    + destruct (Hused eq_refl) as [Hall Herr'].
      specialize (Hfalse eq_refl).
      destruct (0 <? RETRY_DELAY cfg)%Z; simpl; rewrite ?length_app; simpl;
        repeat split; intros; try discriminate; try done; lia.
  - intros k h Hgt. exists false, []. rewrite app_nil_r. split; [done|].
    unfold attempts. simpl.
    repeat split; intros; try discriminate; try done; lia.
Qed.

(** X5 — [claimReward] of [hum/multiWalletClaim.js] always returns a
    boolean, whatever the chain does: an error of any call is caught.  It
    makes at least one attempt and at most [MAX_RETRIES + 1]; it returns
    [false] only after all of them; it submits at most one claim per
    attempt; and it waits once between two attempts when [RETRY_DELAY > 0],
    never otherwise. *)
Theorem claimReward_always_returns (privateKey : string) (proxy : option string)
    (i n : nat) (h : Trace) :
  exists b t,
    Hum.claimReward cfg W rpcUrl privateKey proxy i n h = (Ok b, h ++ t) /\
    1 <= attempts t <= MAX_RETRIES cfg + 1 /\
    (if b then True else attempts t = MAX_RETRIES cfg + 1) /\
    length (claims t) <= attempts t /\
    length (delays t)
    = (if (0 <? RETRY_DELAY cfg)%Z then attempts t - 1 else 0).
Proof.
  unfold Hum.claimReward, bind, emit.
  destruct (retryLoop_accounts privateKey proxy i n 0
              (h ++ [EvClaimReward privateKey proxy i n]))
    as (b & t & -> & Hin & Hcl & _).
  destruct Hin as (Hone & Hmax & Hdel & Hused); [lia|].
  exists b, ([EvClaimReward privateKey proxy i n] ++ t).
  rewrite <- app_assoc. split; [done|].
  rewrite attempts_app, claims_app, delays_app.
  assert (attempts [EvClaimReward privateKey proxy i n] = 0) as -> by done.
  simpl. split; [lia|]. split; [|split; [lia|done]].
  destruct b; [done|]. destruct (Hused eq_refl). lia.
Qed.

(** X6 — The logs tell the result of [claimReward]: when it returns [true]
    the error log is left alone and the success log gains at most one line
    (none for a wallet that was skipped); when it returns [false] the error
    log gains exactly one line and the success log none. *)
Theorem claimReward_logs (privateKey : string) (proxy : option string)
    (i n : nat) (h : Trace) :
  exists b t,
    Hum.claimReward cfg W rpcUrl privateKey proxy i n h = (Ok b, h ++ t) /\
    if b
    then appended claim_error_log t = [] /\ length (appended claim_log t) <= 1
    else length (appended claim_error_log t) = 1 /\ appended claim_log t = [].
Proof.
  unfold Hum.claimReward, bind, emit.
  destruct (retryLoop_accounts privateKey proxy i n 0
              (h ++ [EvClaimReward privateKey proxy i n]))
    as (b & t & -> & Hin & _ & Htrue & Hfalse).
  destruct Hin as (_ & _ & _ & Hused); [lia|].
  exists b, ([EvClaimReward privateKey proxy i n] ++ t).
  rewrite <- app_assoc. split; [done|]. rewrite !appended_app.
  assert (forall f, appended f [EvClaimReward privateKey proxy i n] = []) as Hnil by done.
  rewrite !Hnil. simpl. destruct b.
  - by apply Htrue.
  - destruct (Hused eq_refl). split; [done|]. by apply Hfalse.
Qed.

(** *** The variant with backoff *)

Lemma backoff_attempt_accounts (privateKey : string) (proxy : option string)
    (i n : nat) (h : Trace) :
  exists r t,
    Backoff.attempt W rpcUrl privateKey proxy i n h
    = (r, h ++ EvCreateProvider rpcUrl proxy :: t) /\
    forallb afterProvider t = true /\
    length (claims t) <= 1 /\
    match r with
    | Ok b => b = true /\ length (appended claim_log t) <= 1
    | Throw _ => appended claim_log t = []
    end.
Proof.
  rewrite backoff_attempt_run. cbv zeta.
  destruct (proxyAgent W proxy) as [[]|m].
  2:{ eexists _, []. split; [reflexivity|]. simpl. repeat split; lia. }
  destruct (walletAddress W privateKey) as [address|m].
  2:{ eexists _, []. split; [reflexivity|]. simpl. repeat split; lia. }
  set (h1 := h ++ [EvCreateProvider rpcUrl proxy]).
  set (q := dailyRewardsAvailable W h1 address).
  set (h2 := h1 ++ [EvDailyRewardsAvailable address q]).
  assert (exists r t,
    submitClaim W address i n h2 = (r, h ++ EvCreateProvider rpcUrl proxy :: t) /\
    forallb afterProvider t = true /\
    length (claims t) <= 1 /\
    match r with
    | Ok b => b = true /\ length (appended claim_log t) <= 1
    | Throw _ => appended claim_log t = []
    end) as Hrest.
  { destruct (submitClaim_accounts address i n h2) as (r & t & -> & Hq & Hcl & Hr).
    exists r, ([EvDailyRewardsAvailable address q] ++ t).
    split; [subst h2 h1; by rewrite <- !app_assoc|].
    split; [done|]. rewrite claims_app, appended_app. split; [done|].
    destruct r as [b|m]; [|done]. destruct Hr as (Hb & Hlog & _).
    split; [done|]. simpl. lia. }
  destruct q as [v|m] eqn:E; [|exact Hrest].
  destruct v; [|exact Hrest..].
  eexists _, [EvDailyRewardsAvailable address (Ok 0%Z)].
  split; [subst h2 h1; by rewrite <- !app_assoc|]. simpl. repeat split; lia.
Qed.

Lemma backoffLoop_accounts (privateKey : string) (proxy : option string)
    (i n k : nat) (d : Z) (h : Trace) :
  exists b t,
    Backoff.backoffLoop cfg W rpcUrl privateKey proxy i n k d h = (Ok b, h ++ t) /\
    (k <= MAX_RETRIES cfg ->
     1 <= attempts t /\ attempts t + k <= MAX_RETRIES cfg + 1 /\
     length (delays t) = attempts t - 1 /\
     (b = false ->
      attempts t + k = MAX_RETRIES cfg + 1 /\
      length (appended claim_error_log t) = 1)) /\
    length (claims t) <= attempts t /\
    (b = true ->
     appended claim_error_log t = [] /\ length (appended claim_log t) <= 1) /\
    (b = false -> appended claim_log t = []).
Proof.
  revert k d h.
  apply (backoff_retryLoop_cases cfg W rpcUrl (fun k d h r =>
    exists b t, r = (Ok b, h ++ t) /\
      (k <= MAX_RETRIES cfg ->
       1 <= attempts t /\ attempts t + k <= MAX_RETRIES cfg + 1 /\
       length (delays t) = attempts t - 1 /\
       (b = false ->
        attempts t + k = MAX_RETRIES cfg + 1 /\
        length (appended claim_error_log t) = 1)) /\
      length (claims t) <= attempts t /\
      (b = true ->
       appended claim_error_log t = [] /\ length (appended claim_log t) <= 1) /\
      (b = false -> appended claim_log t = []))).
  - intros k d h b h' Hk Hatt.
    destruct (backoff_attempt_accounts privateKey proxy i n h)
      as (r & t & Ht & Hq & Hcl & Hr).
    rewrite Hatt in Ht. injection Ht as <- ->. destruct Hr as [-> Hlog].
    apply afterProvider_quiet in Hq as (Hatts & Hdel & _ & Herr).
    exists true, (EvCreateProvider rpcUrl proxy :: t). split; [done|].
    change (EvCreateProvider rpcUrl proxy :: t)
      with ([EvCreateProvider rpcUrl proxy] ++ t).
    rewrite attempts_app, delays_app, claims_app, !appended_app, Hatts, Hdel, Herr.
    unfold attempts. simpl.
    repeat split; intros; try discriminate; try done; lia.
  - intros d h m h' Hatt.
    destruct (backoff_attempt_accounts privateKey proxy i n h)
      as (r & t & Ht & Hq & Hcl & Hr).
    rewrite Hatt in Ht. injection Ht as <- ->.
    apply afterProvider_quiet in Hq as (Hatts & Hdel & _ & Herr).
    rewrite giveUp_run. eexists false, _. rewrite <- app_assoc.
    split; [reflexivity|].
    change (EvCreateProvider rpcUrl proxy :: t)
      with ([EvCreateProvider rpcUrl proxy] ++ t).
    rewrite !attempts_app, !delays_app, !claims_app, !appended_app,
      Hatts, Hdel, Herr, Hr.
    unfold attempts. simpl. rewrite app_nil_r.
    repeat split; intros; try discriminate; try done; lia.
  - intros k d h m h' Hlt Hatt h'' d' (b & t' & -> & Hin & Hcl' & Htrue & Hfalse).
    destruct Hin as (Hone & Hmax & Hdel' & Hused); [lia|].
    destruct (backoff_attempt_accounts privateKey proxy i n h)
      as (r & t & Ht & Hq & Hcl & Hr).
    rewrite Hatt in Ht. injection Ht as <- Ht.
    apply afterProvider_quiet in Hq as (Hatts & Hdel & _ & Herr).
    exists b, (([EvCreateProvider rpcUrl proxy] ++ t) ++ [EvDelay d] ++ t').
    split; [f_equal; subst h'' h'; by rewrite <- !app_assoc|].
    rewrite !attempts_app, !delays_app, !claims_app, !appended_app,
      Hatts, Hdel, Herr, Hr.
    assert (attempts [EvCreateProvider rpcUrl proxy] = 1) as -> by done.
    assert (claims [EvCreateProvider rpcUrl proxy] = []) as -> by done.
    assert (appended claim_error_log [EvCreateProvider rpcUrl proxy] = []) as -> by done.
    assert (appended claim_log [EvCreateProvider rpcUrl proxy] = []) as -> by done.
    destruct b.
    + destruct (Htrue eq_refl) as [Herr' Hlog'].
      simpl; rewrite ?length_app; simpl;
        repeat split; intros; try discriminate; try done; lia.
    + destruct (Hused eq_refl) as [Hall Herr'].
      specialize (Hfalse eq_refl).
      simpl; rewrite ?length_app; simpl;
        repeat split; intros; try discriminate; try done; lia.
  - intros k d h Hgt. exists false, []. rewrite app_nil_r. split; [done|].
    unfold attempts. simpl.
    repeat split; intros; try discriminate; try done; lia.
Qed.

(** X7 — [claimReward] of the variant with backoff always returns a boolean
    too; it makes between one and [MAX_RETRIES + 1] attempts, all of them
    before it returns [false], waits exactly once between two attempts, and
    writes its logs as the other script does: one error line for [false],
    at most one success line for [true]. *)
Theorem backoff_claimReward_always_returns (privateKey : string)
    (proxy : option string) (i n : nat) (h : Trace) :
  exists b t,
    Backoff.claimReward cfg W rpcUrl privateKey proxy i n h = (Ok b, h ++ t) /\
    1 <= attempts t <= MAX_RETRIES cfg + 1 /\
    length (delays t) = attempts t - 1 /\
    length (claims t) <= attempts t /\
    if b
    then appended claim_error_log t = [] /\ length (appended claim_log t) <= 1
    else attempts t = MAX_RETRIES cfg + 1 /\
         length (appended claim_error_log t) = 1 /\ appended claim_log t = [].
Proof.
  unfold Backoff.claimReward, bind, emit.
  destruct (backoffLoop_accounts privateKey proxy i n 0 (RETRY_DELAY cfg)
              (h ++ [EvClaimReward privateKey proxy i n]))
    as (b & t & -> & Hin & Hcl & Htrue & Hfalse).
  destruct Hin as (Hone & Hmax & Hdel & Hused); [lia|].
  exists b, ([EvClaimReward privateKey proxy i n] ++ t).
  rewrite <- app_assoc. split; [done|].
  rewrite attempts_app, claims_app, delays_app, !appended_app.
  assert (attempts [EvClaimReward privateKey proxy i n] = 0) as -> by done.
  assert (forall f, appended f [EvClaimReward privateKey proxy i n] = []) as Hnil by done.
  rewrite !Hnil. simpl. split; [lia|]. split; [done|]. split; [done|].
  destruct b.
  - by apply Htrue.
  - destruct (Hused eq_refl). split; [lia|]. split; [done|]. by apply Hfalse.
Qed.

(** *** The cycle *)

Lemma randomPause_accounts (i total : nat) (h : Trace) :
  exists t,
    randomPause cfg W i total h = (Ok tt, h ++ t) /\
    forallb idle t = true /\
    length (delays t) = (if i <? total - 1 then 1 else 0) /\
    ((MIN_PAUSE cfg <= MAX_PAUSE cfg)%Z ->
     Forall (fun p => (MIN_PAUSE cfg * 1000 <= p <= MAX_PAUSE cfg * 1000)%Z)
       (delays t)).
Proof.
  unfold randomPause. destruct (i <? total - 1).
  - unfold bind.
    eexists [EvRandom _; EvDelay _].
    unfold getRandomNumber, bind, randomBelow, ret, delay, emit.
    rewrite <- app_assoc. split; [reflexivity|]. split; [done|]. split; [done|].
    intros Hle. constructor; [|constructor].
    pose proof (Nat.mod_upper_bound (random W h)
                  (Z.to_nat (MAX_PAUSE cfg - MIN_PAUSE cfg + 1)) ltac:(lia)).
    lia.
  - exists []. rewrite app_nil_r. done.
Qed.

Lemma claimReward_accounts (privateKey : string) (proxy : option string)
    (i n : nat) (h : Trace) :
  exists b t,
    Hum.claimReward cfg W rpcUrl privateKey proxy i n h = (Ok b, h ++ t) /\
    (b = true ->
     proxyAgent W proxy = Ok tt /\
     exists address, walletAddress W privateKey = Ok address) /\
    (if b
     then appended claim_error_log t = [] /\ length (appended claim_log t) <= 1
     else length (appended claim_error_log t) = 1 /\ appended claim_log t = []) /\
    length (delays t)
    = (if (0 <? RETRY_DELAY cfg)%Z then attempts t - 1 else 0).
Proof.
  destruct (claimReward_returns cfg W rpcUrl privateKey proxy i n h)
    as (b & t0 & Hrun & _ & Hb).
  remember (EvClaimReward privateKey proxy i n :: t0) as t eqn:Et. clear Et.
  exists b, t. split; [exact Hrun|]. split; [exact Hb|].
  revert Hrun. unfold Hum.claimReward, bind, emit.
  destruct (retryLoop_accounts privateKey proxy i n 0
              (h ++ [EvClaimReward privateKey proxy i n]))
    as (b1 & t1 & -> & Hin & _ & Htrue & Hfalse).
  rewrite <- app_assoc. intros [= -> Ht%app_inv_head]. subst t.
  destruct Hin as (_ & _ & Hdel & Hused); [lia|].
  change (EvClaimReward privateKey proxy i n :: t1)
    with ([EvClaimReward privateKey proxy i n] ++ t1).
  rewrite !appended_app, delays_app, attempts_app.
  assert (forall f, appended f [EvClaimReward privateKey proxy i n] = []) as Hnil by done.
  assert (attempts [EvClaimReward privateKey proxy i n] = 0) as -> by done.
  rewrite !Hnil. simpl. split; [|exact Hdel]. destruct b.
  - by apply Htrue.
  - destruct (Hused eq_refl). split; [done|]. by apply Hfalse.
Qed.

Lemma tally_accounts (privateKey : string) (proxy : option string)
    (b : bool) (c : Hum.Counts) (h : Trace) :
  (b = true ->
   proxyAgent W proxy = Ok tt /\
   exists address, walletAddress W privateKey = Ok address) ->
  exists c' t,
    Hum.tally W rpcUrl privateKey proxy b c h = (Ok c', h ++ t) /\
    (forall f, appended f t = []) /\ delays t = [] /\ claims t = [] /\
    countsTotal c' = countsTotal c + 1 /\
    Hum.nFail c' = Hum.nFail c + (if b then 0 else 1).
Proof.
  intros Hb. destruct b.
  - destruct Hb as (Hagent & address & Hw); [done|].
    rewrite (tally_run W rpcUrl _ _ _ _ _ Hagent Hw). cbv zeta.
    eexists _, [_; _]. split; [reflexivity|].
    split; [done|]. split; [done|]. split; [done|].
    destruct (dailyRewardsAvailable W _ address) as [[| |]|];
      unfold countsTotal; simpl; lia.
  - eexists _, []. unfold Hum.tally, ret. rewrite app_nil_r.
    split; [reflexivity|]. unfold countsTotal. simpl. repeat split; lia.
Qed.

Lemma cycleStep_accounts (proxies : list string) (total : nat)
    (privateKey : string) (i : nat) (c : Hum.Counts) (h : Trace) :
  exists c' t,
    Hum.cycleStep cfg W rpcUrl proxies total privateKey i c h = (Ok c', h ++ t) /\
    countsTotal c' = countsTotal c + 1 /\
    Hum.nFail c' = Hum.nFail c + length (appended claim_error_log t) /\
    length (appended claim_log t) + Hum.nFail c' <= Hum.nFail c + 1 /\
    ((0 <? RETRY_DELAY cfg)%Z = false ->
     length (delays t) = (if i <? total - 1 then 1 else 0) /\
     ((MIN_PAUSE cfg <= MAX_PAUSE cfg)%Z ->
      Forall (fun p => (MIN_PAUSE cfg * 1000 <= p <= MAX_PAUSE cfg * 1000)%Z)
        (delays t))).
Proof.
  unfold Hum.cycleStep. cbv zeta. unfold bind.
  destruct (claimReward_accounts privateKey (selectProxy proxies i) i total h)
    as (b & t1 & -> & Hb & Hlogs & Hdel1).
  destruct (tally_accounts privateKey (selectProxy proxies i) b c (h ++ t1) Hb)
    as (c1 & t2 & -> & Happ2 & Hdel2 & _ & Htot & Hfail).
  destruct (randomPause_accounts i total ((h ++ t1) ++ t2))
    as (t3 & -> & Hidle & Hlen3 & Hrange3).
  apply idle_quiet in Hidle as (_ & _ & Happ3).
  exists c1, (t1 ++ t2 ++ t3). unfold ret.
  split; [by rewrite <- !app_assoc|]. split; [done|].
  rewrite !appended_app, !Happ2, !Happ3, !delays_app, Hdel2, !app_nil_r.
  rewrite !length_app.
  split; [|split].
  - destruct b; destruct Hlogs as [Herr Hlog]; rewrite Hfail, Herr; simpl; lia.
  - destruct b; destruct Hlogs as [Herr Hlog]; rewrite Hfail, ?Hlog; simpl; lia.
  - intros Hpos. rewrite Hpos in Hdel1.
    apply length_zero_iff_nil in Hdel1. rewrite Hdel1. simpl.
    split; [done|]. exact Hrange3.
Qed.

Lemma cycleLoop_accounts (proxies : list string) (total : nat)
    (keys : list string) (i : nat) (c : Hum.Counts) (h : Trace) :
  i + length keys = total ->
  exists c' t,
    Hum.cycleLoop cfg W rpcUrl proxies total keys i c h = (Ok c', h ++ t) /\
    countsTotal c' = countsTotal c + length keys /\
    Hum.nFail c' = Hum.nFail c + length (appended claim_error_log t) /\
    length (appended claim_log t) + Hum.nFail c' <= Hum.nFail c + length keys /\
    ((0 <? RETRY_DELAY cfg)%Z = false ->
     length (delays t) = length keys - 1 /\
     ((MIN_PAUSE cfg <= MAX_PAUSE cfg)%Z ->
      Forall (fun p => (MIN_PAUSE cfg * 1000 <= p <= MAX_PAUSE cfg * 1000)%Z)
        (delays t))).
Proof.
  revert i c h. induction keys as [|k keys IH]; intros i c h Htotal.
  - exists c, []. rewrite app_nil_r. simpl. repeat split; try lia; done.
  - cbn [Hum.cycleLoop]. unfold bind at 1.
    destruct (cycleStep_accounts proxies total k i c h)
      as (c1 & t1 & -> & Htot1 & Hfail1 & Hlog1 & Hpause1).
    destruct (IH (i + 1) c1 (h ++ t1)) as (c2 & t2 & -> & Htot2 & Hfail2 & Hlog2 & Hpause2).
    { simpl in Htotal. lia. }
    exists c2, (t1 ++ t2). rewrite <- app_assoc. split; [done|].
    rewrite !appended_app, !delays_app, !length_app. simpl.
    split; [lia|]. split; [lia|]. split; [lia|].
    intros Hpos. destruct (Hpause1 Hpos) as [Hlen1 Hrange1].
    destruct (Hpause2 Hpos) as [Hlen2 Hrange2]. split.
    + rewrite Hlen1, Hlen2. simpl in Htotal.
      destruct (i <? total - 1) eqn:E.
      * apply Nat.ltb_lt in E. lia.
      * apply Nat.ltb_ge in E. lia.
    + intros Hle. apply Forall_app. split; auto.
Qed.

(** X8 — The counters of a cycle add up: success, skipped and failed
    together are the number of credentials, which is the total reported.
    The failures counted are the lines the cycle adds to the error log, and
    the success log gains at most one line per wallet not counted as
    failed. *)
Theorem runClaimCycle_counts (privateKeys proxies : list string) (h : Trace) :
  exists stats t,
    Hum.runClaimCycle cfg W rpcUrl privateKeys proxies h = (Ok stats, h ++ t) /\
    Hum.successCount stats + Hum.skippedCount stats + Hum.failCount stats
    = length privateKeys /\
    Hum.totalWallets stats = length privateKeys /\
    Hum.failCount stats = length (appended claim_error_log t) /\
    length (appended claim_log t)
    <= Hum.successCount stats + Hum.skippedCount stats.
Proof.
  unfold Hum.runClaimCycle, shuffleArray. unfold bind at 1.
  destruct (shuffle_from_run W (length privateKeys - 1) privateKeys h)
    as (l & t0 & -> & Hperm & Hidle).
  apply idle_quiet in Hidle as (_ & _ & Happ0).
  unfold bind at 1, newDate. unfold bind at 1.
  destruct (cycleLoop_accounts proxies (length l) l 0
              {| Hum.nSuccess := 0; Hum.nSkipped := 0; Hum.nFail := 0 |}
              ((h ++ t0) ++ [EvNow (clock W (h ++ t0))]) eq_refl)
    as (c & t1 & -> & Htot & Hfail & Hlog & _).
  unfold bind at 1, ret.
  eexists _, (t0 ++ [EvNow _] ++ t1 ++ [EvNow _]).
  split; [f_equal; by rewrite <- !app_assoc|].
  rewrite !appended_app, !Happ0. unfold countsTotal in Htot.
  assert (length l = length privateKeys) as Hlen by by rewrite Hperm.
  simpl in *. rewrite !app_nil_r. repeat split; lia.
Qed.

(** X9 — With [RETRY_DELAY] at 0, as the script sets it, the only waits of a
    cycle are the pauses between wallets: one after every wallet but the
    last, so one less than there are credentials, and, for
    [MIN_PAUSE <= MAX_PAUSE], each of [MIN_PAUSE] to [MAX_PAUSE] seconds. *)
Theorem runClaimCycle_pauses (privateKeys proxies : list string) (h : Trace) :
  (RETRY_DELAY cfg <= 0)%Z ->
  (MIN_PAUSE cfg <= MAX_PAUSE cfg)%Z ->
  exists stats t,
    Hum.runClaimCycle cfg W rpcUrl privateKeys proxies h = (Ok stats, h ++ t) /\
    length (delays t) = length privateKeys - 1 /\
    Forall (fun p => (MIN_PAUSE cfg * 1000 <= p <= MAX_PAUSE cfg * 1000)%Z)
      (delays t).
Proof.
  intros Hzero Hle.
  unfold Hum.runClaimCycle, shuffleArray. unfold bind at 1.
  destruct (shuffle_from_draws W (length privateKeys - 1) privateKeys h)
    as (l & t0 & -> & Hperm & _ & Hdraw).
  assert (delays t0 = []) as Hdel0.
  { clear -Hdraw. induction t0 as [|e t0 IH]; [done|].
    simpl in Hdraw. apply andb_prop in Hdraw as [He Ht]. destruct e; try done.
    by apply IH. }
  unfold bind at 1, newDate. unfold bind at 1.
  destruct (cycleLoop_accounts proxies (length l) l 0
              {| Hum.nSuccess := 0; Hum.nSkipped := 0; Hum.nFail := 0 |}
              ((h ++ t0) ++ [EvNow (clock W (h ++ t0))]) eq_refl)
    as (c & t1 & -> & _ & _ & _ & Hpause).
  destruct Hpause as [Hlen Hrange].
  { apply Z.ltb_ge. lia. }
  unfold bind at 1, ret.
  eexists _, (t0 ++ [EvNow _] ++ t1 ++ [EvNow _]).
  split; [f_equal; by rewrite <- !app_assoc|].
  rewrite !delays_app, Hdel0. simpl. rewrite app_nil_r.
  split; [by rewrite Hlen, Hperm|auto].
Qed.


End Accounting.

Lemma runClaimCycle_pauses_witness :
  exists stats t,
    Hum.runClaimCycle hum_config (steadyWorld rewardAB) "rpc"
      ["A"; "B"; "C"] [] [] = (Ok stats, t) /\
    length (delays t) = 2.
Proof.
  destruct (runClaimCycle_pauses hum_config (steadyWorld rewardAB) "rpc"
              ["A"; "B"; "C"] [] []) as (stats & t & Hrun & Hlen & _).
  - vm_compute. discriminate.
  - vm_compute. discriminate.
  - exists stats, t. split; [exact Hrun|exact Hlen].
Defined.

(** ** A chain on which a reward is claimed once

    After [claimReward] has returned [true], [runClaimCycle] asks the
    contract once more whether the wallet has anything left, and counts the
    wallet as skipped when it has not. *)

Section Settled.

Variable cfg : Config.
Variable W : World.
Variable rpcUrl : string.

(** Once a claim of an account is confirmed its reward reads zero, and a
    reward that reads zero keeps reading zero. *)
Hypothesis confirmed_zero : forall h a tx r,
  dailyRewardsAvailable W (h ++ [EvClaim a (Ok tx); EvWait tx (Ok r)]) a = Ok 0%Z.
Hypothesis zero_stays : forall h h' a,
  dailyRewardsAvailable W h a = Ok 0%Z ->
  dailyRewardsAvailable W (h ++ h') a = Ok 0%Z.

Lemma submitClaim_settles (address : string) (i n : nat) (b : bool)
    (h h' : Trace) :
  submitClaim W address i n h = (Ok b, h') ->
  forall h'', dailyRewardsAvailable W (h' ++ h'') address = Ok 0%Z.
Proof.
  rewrite submitClaim_run. cbv zeta.
  destruct (getFeeData W h) as [fee|m]; [|done].
  destruct (claimRewardTx W _ address fee) as [tx|m]; [|done].
  destruct (txWait W _ tx) as [r|m]; [|done].
  intros [= _ <-] h''. rewrite <- !app_assoc.
  rewrite (app_assoc h [_]).
  change ([EvClaim address (Ok tx)] ++ [EvWait tx (Ok r)] ++ ?l)
    with ([EvClaim address (Ok tx); EvWait tx (Ok r)] ++ l).
  rewrite (app_assoc (h ++ [_])). apply zero_stays, confirmed_zero.
Qed.

Lemma attempt_settles (privateKey : string) (proxy : option string)
    (i n : nat) (b : bool) (h h' : Trace) :
  Hum.attempt W rpcUrl privateKey proxy i n h = (Ok b, h') ->
  exists address,
    walletAddress W privateKey = Ok address /\
    forall h'', dailyRewardsAvailable W (h' ++ h'') address = Ok 0%Z.
Proof.
  rewrite attempt_run. cbv zeta.
  destruct (proxyAgent W proxy) as [[]|m]; [|done].
  destruct (walletAddress W privateKey) as [address|m]; [|done].
  intros Hrun. exists address. split; [done|]. revert Hrun.
  set (h1 := h ++ [EvCreateProvider rpcUrl proxy]).
  destruct (dailyRewardsAvailable W h1 address) as [v1|m1] eqn:E1.
  - destruct v1.
    + intros [= _ <-] h''. rewrite <- app_assoc. by apply zero_stays.
    + destruct (dailyRewardsAvailable W (h1 ++ _) address); [|done].
      apply submitClaim_settles.
    + destruct (dailyRewardsAvailable W (h1 ++ _) address); [|done].
      apply submitClaim_settles.
  - destruct (dailyRewardsAvailable W (h1 ++ _) address); [|done].
    apply submitClaim_settles.
Qed.

Lemma retryLoop_settles (privateKey : string) (proxy : option string)
    (i n k : nat) (h h' : Trace) :
  Hum.retryLoop cfg W rpcUrl privateKey proxy i n k h = (Ok true, h') ->
  exists address,
    walletAddress W privateKey = Ok address /\
    forall h'', dailyRewardsAvailable W (h' ++ h'') address = Ok 0%Z.
Proof.
  revert k h h'.
  apply (retryLoop_cases cfg W rpcUrl (fun k h r =>
    forall h', r = (Ok true, h') ->
    exists address,
      walletAddress W privateKey = Ok address /\
      forall h'', dailyRewardsAvailable W (h' ++ h'') address = Ok 0%Z)).
  - intros k h b h' _ Hatt h0 [= -> <-]. by eapply attempt_settles.
  - intros h m h' _ h0. by rewrite giveUp_run.
  - intros k h m h' _ _ h'' IH. exact IH.
  - intros k h _ h0 [=].
Qed.

Lemma tally_settled (privateKey : string) (proxy : option string)
    (b : bool) (c : Hum.Counts) (h : Trace) :
  (b = true ->
   proxyAgent W proxy = Ok tt /\
   exists address,
     walletAddress W privateKey = Ok address /\
     forall h'', dailyRewardsAvailable W (h ++ h'') address = Ok 0%Z) ->
  exists c' t,
    Hum.tally W rpcUrl privateKey proxy b c h = (Ok c', h ++ t) /\
    Hum.nSuccess c' = Hum.nSuccess c.
Proof.
  intros Hb. destruct b.
  - destruct Hb as (Hagent & address & Hw & Hzero); [done|].
    rewrite (tally_run W rpcUrl _ _ _ _ _ Hagent Hw). cbv zeta.
    rewrite Hzero. by eexists _, [_; _].
  - eexists _, []. unfold Hum.tally, ret. by rewrite app_nil_r.
Qed.

Lemma cycleStep_settled (proxies : list string) (total : nat)
    (privateKey : string) (i : nat) (c : Hum.Counts) (h : Trace) :
  exists c' t,
    Hum.cycleStep cfg W rpcUrl proxies total privateKey i c h = (Ok c', h ++ t) /\
    Hum.nSuccess c' = Hum.nSuccess c.
Proof.
  unfold Hum.cycleStep. cbv zeta. unfold bind.
  destruct (claimReward_returns cfg W rpcUrl privateKey (selectProxy proxies i)
              i total h) as (b & t1 & Hrun & _ & Hb).
  rewrite Hrun.
  destruct (tally_settled privateKey (selectProxy proxies i) b c
              (h ++ EvClaimReward privateKey (selectProxy proxies i) i total :: t1))
    as (c1 & t2 & -> & Hsame).
  { intros ->. destruct (Hb eq_refl) as [Hagent _]. split; [done|].
    revert Hrun. unfold Hum.claimReward, bind, emit. apply retryLoop_settles. }
  destruct (randomPause_run cfg W i total
              ((h ++ EvClaimReward privateKey (selectProxy proxies i) i total :: t1)
               ++ t2)) as (t3 & -> & _).
  exists c1, ((EvClaimReward privateKey (selectProxy proxies i) i total :: t1)
              ++ t2 ++ t3).
  unfold ret. split; [by rewrite <- !app_assoc|done].
Qed.

Lemma cycleLoop_settled (proxies : list string) (total : nat)
    (keys : list string) (i : nat) (c : Hum.Counts) (h : Trace) :
  exists c' t,
    Hum.cycleLoop cfg W rpcUrl proxies total keys i c h = (Ok c', h ++ t) /\
    Hum.nSuccess c' = Hum.nSuccess c.
Proof.
  revert i c h. induction keys as [|k keys IH]; intros i c h.
  - exists c, []. by rewrite app_nil_r.
  - cbn [Hum.cycleLoop]. unfold bind at 1.
    destruct (cycleStep_settled proxies total k i c h) as (c1 & t1 & -> & Hsame1).
    destruct (IH (i + 1) c1 (h ++ t1)) as (c2 & t2 & -> & Hsame2).
    exists c2, (t1 ++ t2). rewrite <- app_assoc. split; [done|]. congruence.
Qed.

(** X10 — On a chain where a confirmed claim leaves a reward of zero, and a
    reward of zero stays zero, a cycle counts no success, however many
    claims it made: every wallet that did not fail is counted as skipped.
    [main] then asks for a wait of [DAILY_CHECK_INTERVAL] hours, never of
    [HOURS_TO_WAIT_AFTER_CLAIM], less the time between its two readings of
    the clock and less what the zone's offset gains up to the local time
    aimed at. *)
Theorem settled_chain_counts_no_success (sched : Schedule) (tz : TimeZone)
    (privateKeys proxies : list string) (h : Trace) :
  exists stats h1,
    Hum.runClaimCycle cfg W rpcUrl privateKeys proxies h = (Ok stats, h1) /\
    Hum.successCount stats = 0 /\
    Hum.skippedCount stats + Hum.failCount stats = length privateKeys /\
    let now1 := clock W h1 in
    let now2 := clock W (h1 ++ [EvNow now1]) in
    let interval := (DAILY_CHECK_INTERVAL sched * Hum.msPerHour)%Z in
    let gain := (tz (now1 + tz now1 true + interval) false - tz now1 true)%Z in
    Hum.mainRound cfg W rpcUrl sched tz privateKeys proxies h
    = (Ok tt,
       h1 ++ [EvNow now1; EvNow now2;
              EvDelay (interval - (now2 - now1) - gain)%Z]).
Proof.
  assert (exists stats h1,
    Hum.runClaimCycle cfg W rpcUrl privateKeys proxies h = (Ok stats, h1) /\
    Hum.successCount stats = 0 /\
    Hum.skippedCount stats + Hum.failCount stats = length privateKeys)
    as (stats & h1 & Hrun & Hnone & Hsum).
  { unfold Hum.runClaimCycle, shuffleArray. unfold bind at 1.
    destruct (shuffle_from_run W (length privateKeys - 1) privateKeys h)
      as (l & t0 & -> & Hperm & _).
    unfold bind at 1, newDate. unfold bind at 1.
    destruct (cycleLoop_settled proxies (length l) l 0
                {| Hum.nSuccess := 0; Hum.nSkipped := 0; Hum.nFail := 0 |}
                ((h ++ t0) ++ [EvNow (clock W (h ++ t0))]))
      as (c & t1 & Hloop & Hsame).
    destruct (cycleLoop_accounts cfg W rpcUrl proxies (length l) l 0
                {| Hum.nSuccess := 0; Hum.nSkipped := 0; Hum.nFail := 0 |}
                ((h ++ t0) ++ [EvNow (clock W (h ++ t0))]) eq_refl)
      as (c' & t1' & Hloop' & Htot & _).
    rewrite Hloop in Hloop'. injection Hloop' as <- _. rewrite Hloop.
    unfold bind at 1, ret. eexists _, _. split; [reflexivity|].
    unfold countsTotal in Htot. simpl in *. rewrite <- Hperm. lia. }
  exists stats, h1. split; [done|]. split; [done|]. split; [done|]. cbv zeta.
  unfold Hum.mainRound. unfold bind at 1. rewrite Hrun. unfold bind at 1.
  rewrite calculateNextRunTime_run, Hnone. cbv zeta.
  unfold bind, newDate, delay, emit. rewrite <- !app_assoc. simpl.
  unfold Hum.UTC, Hum.LocalTime.
  set (now1 := clock W h1). set (now2 := clock W (h1 ++ [EvNow now1])).
  set (ms := (DAILY_CHECK_INTERVAL sched * Hum.msPerHour)%Z).
  set (offset := tz (now1 + tz now1 true + ms)%Z false).
  assert (now1 + tz now1 true + ms - offset - now2
          = ms - (now2 - now1) - (offset - tz now1 true))%Z as -> by lia.
  done.
Qed.

End Settled.

Lemma accepted_app (t1 t2 : Trace) : accepted (t1 ++ t2) = accepted t1 ++ accepted t2.
Proof. apply omap_app. Qed.

Lemma settledWorld_confirmed_zero (h : Trace) (a tx : string) (r : Receipt) :
  dailyRewardsAvailable settledWorld
    (h ++ [EvClaim a (Ok tx); EvWait tx (Ok r)]) a = Ok 0%Z.
Proof.
  cbn [dailyRewardsAvailable settledWorld].
  rewrite accepted_app, existsb_app.
  change (accepted [EvClaim a (Ok tx); EvWait tx (Ok r)]) with [a].
  cbn [existsb]. by rewrite String.eqb_refl, orb_true_r.
Qed.

Lemma settledWorld_zero_stays (h h' : Trace) (a : string) :
  dailyRewardsAvailable settledWorld h a = Ok 0%Z ->
  dailyRewardsAvailable settledWorld (h ++ h') a = Ok 0%Z.
Proof.
  cbn [dailyRewardsAvailable settledWorld].
  rewrite accepted_app, existsb_app.
  by destruct (existsb (String.eqb a) (accepted h)).
Qed.

Lemma settled_chain_counts_no_success_witness :
  exists stats h1,
    Hum.runClaimCycle hum_config settledWorld "rpc" ["A"; "B"] [] []
    = (Ok stats, h1) /\
    Hum.successCount stats = 0 /\
    Hum.skippedCount stats = 2 /\
    claims h1 = ["addr:B"; "addr:A"].
Proof.
  destruct (settled_chain_counts_no_success hum_config settledWorld "rpc"
              settledWorld_confirmed_zero settledWorld_zero_stays
              hum_schedule (fixedZone 0) ["A"; "B"] [] [])
    as (stats & h1 & Hrun & Hnone & _).
  exists stats, h1. split; [exact Hrun|]. split; [exact Hnone|].
  vm_compute in Hrun. injection Hrun as <- <-. split; reflexivity.
Defined.

(** ** The loop of [main] in the variant with backoff, counted *)

Section BackoffMain.

Variable cfg : Config.
Variable W : World.
Variable rpcUrl : string.

Lemma backoff_claimReward_accounts (privateKey : string)
    (proxy : option string) (i n : nat) (h : Trace) :
  exists b t,
    Backoff.claimReward cfg W rpcUrl privateKey proxy i n h = (Ok b, h ++ t) /\
    1 <= attempts t /\
    length (delays t) = attempts t - 1 /\
    length (appended claim_error_log t) = (if b then 0 else 1) /\
    length (appended claim_log t) <= (if b then 1 else 0).
Proof.
  unfold Backoff.claimReward, bind, emit.
  destruct (backoffLoop_accounts cfg W rpcUrl privateKey proxy i n 0
              (RETRY_DELAY cfg) (h ++ [EvClaimReward privateKey proxy i n]))
    as (b & t & -> & Hin & _ & Htrue & Hfalse).
  destruct Hin as (Hone & _ & Hdel & Hused); [lia|].
  exists b, ([EvClaimReward privateKey proxy i n] ++ t).
  rewrite <- app_assoc. split; [done|].
  rewrite attempts_app, delays_app, !appended_app.
  assert (attempts [EvClaimReward privateKey proxy i n] = 0) as -> by done.
  assert (forall f, appended f [EvClaimReward privateKey proxy i n] = []) as Hnil by done.
  rewrite !Hnil. simpl. split; [lia|]. split; [done|].
  destruct b.
  - destruct (Htrue eq_refl) as [-> Hlog]. done.
  - destruct (Hused eq_refl) as [_ ->]. by rewrite Hfalse.
Qed.

Lemma attempts_idle (t : Trace) : forallb idle t = true -> attempts t = 0.
Proof.
  unfold attempts. induction t as [|e t IH]; [done|].
  simpl. intros [He Ht]%andb_prop. destruct e; try done; by apply IH.
Qed.

Lemma draws_quiet (t : Trace) :
  forallb isDraw t = true ->
  attempts t = 0 /\ delays t = [] /\ forall f, appended f t = [].
Proof.
  unfold attempts. induction t as [|e t IH]; [done|].
  simpl. intros [He Ht]%andb_prop. destruct e; try done. by apply IH.
Qed.

Lemma mainStep_accounts (proxies : list string) (total : nat)
    (privateKey : string) (i : nat) (c : nat * nat) (h : Trace) :
  exists c' t,
    Backoff.mainStep cfg W rpcUrl proxies total privateKey i c h = (Ok c', h ++ t) /\
    fst c' + snd c' = fst c + snd c + 1 /\
    snd c' = snd c + length (appended claim_error_log t) /\
    length (appended claim_log t) + fst c <= fst c' /\
    1 <= attempts t /\
    length (delays t) = attempts t - 1 + (if i <? total - 1 then 1 else 0).
Proof.
  unfold Backoff.mainStep. cbv zeta. unfold bind.
  destruct (backoff_claimReward_accounts privateKey (selectProxy proxies i)
              i total h) as (b & t1 & -> & Hone & Hdel & Herr & Hlog).
  destruct (randomPause_accounts cfg W i total (h ++ t1))
    as (t2 & -> & Hidle & Hlen & _).
  pose proof (attempts_idle _ Hidle) as Hatt2.
  apply idle_quiet in Hidle as (_ & _ & Happ).
  eexists _, (t1 ++ t2). unfold ret. rewrite <- app_assoc.
  split; [reflexivity|].
  rewrite !appended_app, !Happ, attempts_app, delays_app, !length_app, Hatt2,
    ?app_nil_r, Hlen, Hdel, Herr.
  destruct b; simpl in *; repeat split; lia.
Qed.

Lemma mainLoop_accounts (proxies : list string) (total : nat)
    (keys : list string) (i : nat) (c : nat * nat) (h : Trace) :
  i + length keys = total ->
  exists c' t,
    Backoff.mainLoop cfg W rpcUrl proxies total keys i c h = (Ok c', h ++ t) /\
    fst c' + snd c' = fst c + snd c + length keys /\
    snd c' = snd c + length (appended claim_error_log t) /\
    length (appended claim_log t) + fst c <= fst c' /\
    length keys <= attempts t /\
    length (delays t) = attempts t - 1 /\
    (keys = [] -> attempts t = 0).
Proof.
  revert i c h. induction keys as [|k keys IH]; intros i c h Htotal.
  - exists c, []. rewrite app_nil_r. simpl. repeat split; try lia; done.
  - cbn [Backoff.mainLoop]. unfold bind at 1.
    destruct (mainStep_accounts proxies total k i c h)
      as (c1 & t1 & -> & Htot1 & Hfail1 & Hlog1 & Hone1 & Hdel1).
    destruct (IH (i + 1) c1 (h ++ t1))
      as (c2 & t2 & -> & Htot2 & Hfail2 & Hlog2 & Hatt2 & Hdel2 & Hnil2).
    { simpl in Htotal. lia. }
    exists c2, (t1 ++ t2). rewrite <- app_assoc. split; [done|].
    rewrite !appended_app, attempts_app, delays_app, !length_app.
    simpl in *. split; [lia|]. split; [lia|]. split; [lia|]. split; [lia|].
    split; [|done].
    rewrite Hdel1, Hdel2. destruct (i <? total - 1) eqn:E.
    + apply Nat.ltb_lt in E. lia.
    + apply Nat.ltb_ge in E. assert (length keys = 0) as Hk by lia.
      destruct keys; [|done]. rewrite (Hnil2 eq_refl). lia.
Qed.

(** X11 — In the script with backoff, [main] counts every credential as a
    success or as a failure; the failures are the lines added to the error
    log, and the success log gains at most one line per success (none for a
    wallet that had nothing to claim).  Every attempt but the first of the
    run comes after a wait: a backoff wait within a wallet, a random pause
    between two wallets. *)
Theorem backoff_main_counts (privateKeys proxies : list string) (h : Trace) :
  exists c t,
    Backoff.main cfg W rpcUrl privateKeys proxies h = (Ok c, h ++ t) /\
    fst c + snd c = length privateKeys /\
    snd c = length (appended claim_error_log t) /\
    length (appended claim_log t) <= fst c /\
    length privateKeys <= attempts t /\
    length (delays t) = attempts t - 1.
Proof.
  unfold Backoff.main, shuffleArray. unfold bind at 1.
  destruct (shuffle_from_draws W (length privateKeys - 1) privateKeys h)
    as (l & t0 & -> & Hperm & _ & Hdraws).
  apply draws_quiet in Hdraws as (Hatt0 & Hdel0 & Happ0).
  unfold bind at 1, newDate. unfold bind at 1.
  destruct (mainLoop_accounts proxies (length l) l 0 (0, 0)
              ((h ++ t0) ++ [EvNow (clock W (h ++ t0))]) eq_refl)
    as (c & t1 & -> & Htot & Hfail & Hlog & Hatt & Hdel & _).
  unfold bind at 1, ret.
  eexists _, (t0 ++ [EvNow _] ++ t1 ++ [EvNow _]).
  split; [f_equal; by rewrite <- !app_assoc|].
  rewrite !appended_app, !attempts_app, !delays_app, !Happ0, Hdel0, Hatt0.
  assert (length l = length privateKeys) as Hlen by by rewrite Hperm.
  assert (forall ms, attempts [EvNow ms] = 0) as Hnow by done.
  rewrite !Hnow. simpl in *. rewrite !app_nil_r.
  repeat split; lia.
Qed.

End BackoffMain.

(** ** The single-wallet script *)

Section ClamFacts.

Variable cfg : Config.
Variable W : World.
Variable rpcUrl : string.

(** What one pass through the [try] block does, call by call. *)
Lemma clam_attempt_run (privateKey : string) (h : Trace) :
  Clam.attempt W rpcUrl privateKey h =
  let h1 := h ++ [EvCreateProvider rpcUrl None] in
  match walletAddress W privateKey with
  | Throw m => (Throw m, h1)
  | Ok address =>
      let q := dailyRewardsAvailable W h1 address in
      let h2 := h1 ++ [EvDailyRewardsAvailable address q] in
      let fee := getFeeData W h2 in
      let h3 := h2 ++ [EvGetFeeData fee] in
      match fee with
      | Throw m => (Throw m, h3)
      | Ok feeData =>
          let tx := claimRewardTx W h3 address feeData in
          let h4 := h3 ++ [EvClaim address tx] in
          match tx with
          | Throw m => (Throw m, h4)
          | Ok txHash =>
              let receipt := txWait W h4 txHash in
              let h5 := h4 ++ [EvWait txHash receipt] in
              match receipt with
              | Throw m => (Throw m, h5)
              | Ok r =>
                  let now := clock W h5 in
                  (Ok tt,
                   h5 ++ [EvNow now;
                          EvAppendFile claim_log
                            (Clam.logEntry (toISOString W now) address (hash r))])
              end
          end
      end
  end.
Proof.
  unfold Clam.attempt. munfold. cbv zeta.
  destruct (walletAddress W privateKey) as [address|m]; [|done].
  destruct (dailyRewardsAvailable W _ address) as [v|m0].
  - destruct (getFeeData W _) as [fee|m]; [|done].
    destruct (claimRewardTx W _ address fee) as [tx|m]; [|done].
    destruct (txWait W _ tx) as [r|m]; [|done].
    by rewrite <- app_assoc.
  - destruct (getFeeData W _) as [fee|m]; [|done].
    destruct (claimRewardTx W _ address fee) as [tx|m]; [|done].
    destruct (txWait W _ tx) as [r|m]; [|done].
    by rewrite <- app_assoc.
Qed.

Lemma clam_giveUp_run (m : string) (k : nat) (h : Trace) :
  Clam.giveUp W m k h =
  (Ok tt,
   h ++ [EvNow (clock W h);
         EvAppendFile claim_error_log
           (Clam.errorEntry (toISOString W (clock W h)) m k)]).
Proof. unfold Clam.giveUp. munfold. simpl. by rewrite <- app_assoc. Qed.

(** The loop of [claimReward], case by case. *)
Lemma claimLoop_cases
    (P : nat -> Z -> Trace -> Result unit * Trace -> Prop)
    (privateKey : string) :
  (forall k d h h',
     k <= MAX_RETRIES cfg ->
     Clam.attempt W rpcUrl privateKey h = (Ok tt, h') ->
     P k d h (Ok tt, h')) ->
  (forall d h m h',
     Clam.attempt W rpcUrl privateKey h = (Throw m, h') ->
     P (MAX_RETRIES cfg) d h (Clam.giveUp W m (MAX_RETRIES cfg) h')) ->
  (forall k d h m h',
     k < MAX_RETRIES cfg ->
     Clam.attempt W rpcUrl privateKey h = (Throw m, h') ->
     let h'' := h' ++ [EvDelay d] in
     let d' := Backoff.escalate cfg d in
     P (k + 1) d' h'' (Clam.claimLoop cfg W rpcUrl privateKey (k + 1) d' h'') ->
     P k d h (Clam.claimLoop cfg W rpcUrl privateKey (k + 1) d' h'')) ->
  (forall k d h, MAX_RETRIES cfg < k -> P k d h (Ok tt, h)) ->
  forall k d h, P k d h (Clam.claimLoop cfg W rpcUrl privateKey k d h).
Proof.
  intros Hok Hlast Hagain Hout k.
  remember (MAX_RETRIES cfg + 1 - k) as fuel eqn:Hfuel.
  revert k Hfuel. induction fuel as [fuel IH] using lt_wf_ind. intros k -> d h.
  rewrite Clam.claimLoop_equation_1.
  destruct (decide (k <= MAX_RETRIES cfg)) as [Hle|Hgt]; [|apply Hout; lia].
  unfold try_catch.
  destruct (Clam.attempt W rpcUrl privateKey h) as [[[]|m] h'] eqn:Hatt.
  { by apply Hok. }
  destruct (decide (MAX_RETRIES cfg <= k)) as [Hge|Hlt].
  { assert (k = MAX_RETRIES cfg) as -> by lia. by apply Hlast. }
  unfold bind, delay, emit.
  eapply Hagain; [lia|exact Hatt|].
  eapply IH; [|reflexivity]. lia.
Qed.

(** One pass: the events it adds after creating its provider, its claims
    and its line in the success log. *)
Lemma clam_attempt_accounts (privateKey : string) (h : Trace) :
  exists r t,
    Clam.attempt W rpcUrl privateKey h
    = (r, h ++ EvCreateProvider rpcUrl None :: t) /\
    forallb afterProvider t = true /\
    length (appended claim_log t) = (if r is Ok _ then 1 else 0) /\
    (forall address,
       walletAddress W privateKey = Ok address ->
       (forall h0, exists fee, getFeeData W h0 = Ok fee) ->
       claims t = [address]).
Proof.
  rewrite clam_attempt_run. cbv zeta.
  destruct (walletAddress W privateKey) as [address|m].
  2:{ eexists _, []. split; [reflexivity|]. by repeat split. }
  set (h1 := h ++ [EvCreateProvider rpcUrl None]).
  set (q := dailyRewardsAvailable W h1 address).
  set (h2 := h1 ++ [EvDailyRewardsAvailable address q]).
  destruct (getFeeData W h2) as [fee|m] eqn:Efee.
  2:{ exists (Throw m), [EvDailyRewardsAvailable address q; EvGetFeeData (Throw m)].
      split; [subst h2 h1; by rewrite <- !app_assoc|].
      split; [done|]. split; [done|].
      intros a _ Hfees. destruct (Hfees h2) as [fee Hfee]. congruence. }
  destruct (claimRewardTx W _ address fee) as [tx|m].
  2:{ eexists _, [_; _; _]. subst h2 h1. rewrite <- !app_assoc.
      split; [reflexivity|]. split; [done|]. split; [done|].
      by intros a [= ->] _. }
  destruct (txWait W _ tx) as [r|m].
  2:{ eexists _, [_; _; _; _]. subst h2 h1. rewrite <- !app_assoc.
      split; [reflexivity|]. split; [done|]. split; [done|].
      by intros a [= ->] _. }
  eexists _, [_; _; _; _; _; _]. subst h2 h1. rewrite <- !app_assoc.
  split; [reflexivity|]. split; [done|]. split; [done|].
  by intros a [= ->] _.
Qed.

Lemma claimLoop_accounts (privateKey : string) (k : nat) (d : Z) (h : Trace) :
  k <= MAX_RETRIES cfg ->
  exists t retries,
    Clam.claimLoop cfg W rpcUrl privateKey k d h = (Ok tt, h ++ t) /\
    attempts t = retries + 1 /\
    retries + k <= MAX_RETRIES cfg /\
    delays t = Backoff.waits cfg retries d /\
    length (appended claim_log t) + length (appended claim_error_log t) = 1 /\
    (appended claim_error_log t <> [] -> retries + k = MAX_RETRIES cfg) /\
    (forall address,
       walletAddress W privateKey = Ok address ->
       (forall h0, exists fee, getFeeData W h0 = Ok fee) ->
       claims t = repeat address (attempts t)).
Proof.
  revert k d h.
  apply (claimLoop_cases (fun k d h r =>
    k <= MAX_RETRIES cfg ->
    exists t retries,
      r = (Ok tt, h ++ t) /\
      attempts t = retries + 1 /\
      retries + k <= MAX_RETRIES cfg /\
      delays t = Backoff.waits cfg retries d /\
      length (appended claim_log t) + length (appended claim_error_log t) = 1 /\
      (appended claim_error_log t <> [] -> retries + k = MAX_RETRIES cfg) /\
      (forall address,
         walletAddress W privateKey = Ok address ->
         (forall h0, exists fee, getFeeData W h0 = Ok fee) ->
         claims t = repeat address (attempts t)))).
  - intros k d h h' _ Hatt Hk.
    destruct (clam_attempt_accounts privateKey h) as (r & t & Ht & Hq & Hlog & Hcl).
    rewrite Hatt in Ht. injection Ht as <- ->.
    apply afterProvider_quiet in Hq as (Hatts & Hdel & _ & Herr).
    exists (EvCreateProvider rpcUrl None :: t), 0. split; [done|].
    change (EvCreateProvider rpcUrl None :: t)
      with ([EvCreateProvider rpcUrl None] ++ t).
    rewrite attempts_app, delays_app, claims_app, !appended_app, Hatts, Hdel, Herr.
    assert (attempts [EvCreateProvider rpcUrl None] = 1) as -> by done.
    simpl. rewrite Hlog.
    repeat split; try done; try lia;
      try (intros a Hw Hfees; by rewrite (Hcl a Hw Hfees)).
  - intros d h m h' Hatt _.
    destruct (clam_attempt_accounts privateKey h) as (r & t & Ht & Hq & Hlog & Hcl).
    rewrite Hatt in Ht. injection Ht as <- ->.
    apply afterProvider_quiet in Hq as (Hatts & Hdel & _ & Herr).
    rewrite clam_giveUp_run. eexists _, 0. rewrite <- app_assoc.
    split; [reflexivity|].
    change (EvCreateProvider rpcUrl None :: t)
      with ([EvCreateProvider rpcUrl None] ++ t).
    match goal with |- context [_ ++ ?l] =>
      match l with [EvNow _; _] => set (tail := l) end end.
    assert (attempts tail = 0 /\ delays tail = [] /\ claims tail = [] /\
            appended claim_log tail = [] /\
            length (appended claim_error_log tail) = 1)
      as (Ha & Hd & Hc & Hl & He) by done.
    rewrite !attempts_app, !delays_app, !claims_app, !appended_app,
      Hatts, Hdel, Herr, Ha, Hd, Hc, Hl.
    assert (attempts [EvCreateProvider rpcUrl None] = 1) as -> by done.
    rewrite !length_app, Hlog, He. simpl. rewrite !app_nil_r.
    repeat split; try done; try lia;
      try (intros a Hw Hfees; by rewrite (Hcl a Hw Hfees)).
  - intros k d h m h' Hlt Hatt h'' d' IH _.
    destruct IH as (t' & retries & -> & Hatts' & Hle & Hdel' & Hlogs' & Herr' & Hcl');
      [lia|].
    destruct (clam_attempt_accounts privateKey h) as (r & t & Ht & Hq & Hlog & Hcl).
    rewrite Hatt in Ht. injection Ht as <- Ht.
    apply afterProvider_quiet in Hq as (Hatts & Hdel & _ & Herr).
    exists (([EvCreateProvider rpcUrl None] ++ t) ++ [EvDelay d] ++ t'), (S retries).
    split; [f_equal; subst h'' h'; by rewrite <- !app_assoc|].
    rewrite !attempts_app, !delays_app, !claims_app, !appended_app,
      Hatts, Hdel, Herr, Hatts', Hdel'.
    assert (attempts [EvCreateProvider rpcUrl None] = 1) as -> by done.
    assert (attempts [EvDelay d] = 0) as -> by done.
    assert (forall f, appended f [EvCreateProvider rpcUrl None] = []) as Hnil1 by done.
    assert (forall f, appended f [EvDelay d] = []) as Hnil2 by done.
    assert (claims [EvCreateProvider rpcUrl None] = []) as -> by done.
    assert (claims [EvDelay d] = []) as -> by done.
    assert (delays [EvCreateProvider rpcUrl None] = []) as -> by done.
    assert (delays [EvDelay d] = [d]) as -> by done.
    rewrite !Hnil1, !Hnil2. simpl. rewrite !length_app, Hlog. simpl.
    split; [lia|]. split; [lia|]. split; [done|]. split; [lia|].
    split; [intros H; specialize (Herr' H); lia|].
    intros a Hw Hfees. by rewrite (Hcl a Hw Hfees), (Hcl' a Hw Hfees), Hatts'.
  - intros k d h Hgt Hle. lia.
Qed.

(** X12 — [claimReward] of [clam.js] always returns, after at most
    [MAX_RETRIES] retries; its waits are the successive values of
    [currentDelay], each the floor of the one before times
    [ESCALATION_FACTOR]; and it ends with exactly one line in one of the two
    logs, the error log only after [MAX_RETRIES] retries. *)
Theorem clam_claimReward_always_returns (privateKey : string) (h : Trace) :
  exists t retries,
    Clam.claimReward cfg W rpcUrl privateKey h = (Ok tt, h ++ t) /\
    attempts t = retries + 1 /\
    retries <= MAX_RETRIES cfg /\
    delays t = Backoff.waits cfg retries (RETRY_DELAY cfg) /\
    length (appended claim_log t) + length (appended claim_error_log t) = 1 /\
    (appended claim_error_log t <> [] -> retries = MAX_RETRIES cfg).
Proof.
  unfold Clam.claimReward.
  destruct (claimLoop_accounts privateKey 0 (RETRY_DELAY cfg) h)
    as (t & retries & Hrun & Hatts & Hle & Hdel & Hlogs & Herr & _); [lia|].
  exists t, retries. rewrite Nat.add_0_r in *. done.
Qed.

(** X13 — [clam.js] never skips: for a key that gives a wallet, and as long
    as the fee data are obtained, every attempt of [claimReward] submits a
    claim for the wallet, whatever the reward query answered, zero and
    errors included. *)
Theorem clam_claims_at_every_attempt (privateKey address : string) (h : Trace) :
  walletAddress W privateKey = Ok address ->
  (forall h0, exists fee, getFeeData W h0 = Ok fee) ->
  exists t,
    Clam.claimReward cfg W rpcUrl privateKey h = (Ok tt, h ++ t) /\
    1 <= attempts t /\
    claims t = repeat address (attempts t).
Proof.
  intros Hw Hfees. unfold Clam.claimReward.
  destruct (claimLoop_accounts privateKey 0 (RETRY_DELAY cfg) h)
    as (t & retries & Hrun & Hatts & _ & _ & _ & _ & Hcl); [lia|].
  exists t. split; [done|]. split; [lia|]. by apply Hcl.
Qed.

End ClamFacts.

Lemma clam_claims_at_every_attempt_witness :
  exists t,
    Clam.claimReward backoff_config (steadyWorld (fun _ => 0%Z)) "rpc" "K" []
    = (Ok tt, t) /\
    claims t = ["addr:K"] /\
    fst (Hum.claimReward hum_config (steadyWorld (fun _ => 0%Z)) "rpc" "K" None 0 1 [])
    = Ok true /\
    claims (snd (Hum.claimReward hum_config (steadyWorld (fun _ => 0%Z))
                   "rpc" "K" None 0 1 [])) = [].
Proof.
  destruct (clam_claims_at_every_attempt backoff_config
              (steadyWorld (fun _ => 0%Z)) "rpc" "K" "addr:K" [])
    as (t & Hrun & _ & Hcl).
  - reflexivity.
  - intros h0. by exists noFee.
  - exists t. split; [exact Hrun|].
    vm_compute in Hrun. injection Hrun as <-. by vm_compute.
Defined.

(** ** The escalated waits never shrink *)

Lemma escalate_ge (cfg : Config) (d : Z) :
  (1 <= ESCALATION_FACTOR cfg)%Q -> (0 <= d)%Z ->
  (d <= Backoff.escalate cfg d)%Z.
Proof.
  intros Hf%factor_ge_1 Hd.
  assert (0 <= inject_Z d)%Q as Hd0.
  { change 0%Q with (inject_Z 0). by rewrite <- Zle_Qle. }
  assert (inject_Z d <= inject_Z d * Backoff.factor cfg)%Q as Hle.
  { apply Qle_trans with (1 * inject_Z d)%Q.
    { rewrite Qmult_1_l. apply Qle_refl. }
    apply Qle_trans with (Backoff.factor cfg * inject_Z d)%Q.
    - by apply Qmult_le_compat_r.
    - rewrite Qmult_comm. apply Qle_refl. }
  unfold Backoff.escalate.
  destruct (isNumber (inject_Z d)) eqn:Hnum.
  - rewrite <- (Qfloor_Z d) at 1. apply Qfloor_resp_le.
    apply Qeq_bool_eq in Hnum. rewrite <- Hnum at 1.
    by apply binary64_le.
  - rewrite <- (Qfloor_Z d) at 1. by apply Qfloor_resp_le.
Qed.

Lemma waits_grow (cfg : Config) (retries : nat) (d : Z) :
  (1 <= ESCALATION_FACTOR cfg)%Q -> (0 <= d)%Z ->
  Forall (Z.le d) (Backoff.waits cfg retries d) /\
  forall j w w',
    Backoff.waits cfg retries d !! j = Some w ->
    Backoff.waits cfg retries d !! S j = Some w' ->
    (w <= w')%Z.
Proof.
  intros Hf. revert d. induction retries as [|r IH]; intros d Hd.
  - split; [constructor|]. intros j w w' H. done.
  - pose proof (escalate_ge cfg d Hf Hd) as Hge.
    destruct (IH (Backoff.escalate cfg d)) as [Hall Hadj]; [lia|].
    cbn [Backoff.waits]. split.
    + constructor; [lia|]. eapply Forall_impl; [exact Hall|].
      intros w Hw. simpl in Hw. lia.
    + intros [|j] w w'.
      * intros [= <-] Hw'. simpl in Hw'.
        rewrite Forall_lookup in Hall. specialize (Hall _ _ Hw'). simpl in Hall. lia.
      * simpl. apply Hadj.
Qed.

(** X14 — With [ESCALATION_FACTOR >= 1] and [RETRY_DELAY >= 0], the waits
    of [claimReward] never shrink from one retry to the next, in the
    multi-wallet script with backoff and in [clam.js]: each is at least
    [RETRY_DELAY], and at least the wait before it. *)
Theorem backoff_waits_never_shrink (cfg : Config) (W : World)
    (rpcUrl privateKey : string) (proxy : option string) (i n : nat)
    (h : Trace) :
  (1 <= ESCALATION_FACTOR cfg)%Q ->
  (0 <= RETRY_DELAY cfg)%Z ->
  (exists b t,
     Backoff.claimReward cfg W rpcUrl privateKey proxy i n h = (Ok b, h ++ t) /\
     Forall (Z.le (RETRY_DELAY cfg)) (delays t) /\
     forall j w w',
       delays t !! j = Some w -> delays t !! S j = Some w' -> (w <= w')%Z) /\
  (exists t,
     Clam.claimReward cfg W rpcUrl privateKey h = (Ok tt, h ++ t) /\
     Forall (Z.le (RETRY_DELAY cfg)) (delays t) /\
     forall j w w',
       delays t !! j = Some w -> delays t !! S j = Some w' -> (w <= w')%Z).
Proof.
  intros Hf Hd. split.
  - destruct (backoff_claimReward_returns cfg W rpcUrl privateKey proxy i n h)
      as (b & t & retries & Hrun & _ & _ & Hdel).
    exists b, (EvClaimReward privateKey proxy i n :: t). split; [exact Hrun|].
    change (delays (_ :: t)) with (delays t). rewrite Hdel.
    by apply waits_grow.
  - unfold Clam.claimReward.
    destruct (claimLoop_accounts cfg W rpcUrl privateKey 0 (RETRY_DELAY cfg) h)
      as (t & retries & Hrun & _ & _ & Hdel & _); [lia|].
    exists t. split; [exact Hrun|]. rewrite Hdel. by apply waits_grow.
Qed.

Lemma backoff_waits_never_shrink_witness :
  exists b t,
    Backoff.claimReward backoff_config offline "rpc" "K" None 0 1 [] = (Ok b, t) /\
    delays t = [5000; 7500; 11250; 16875; 25312]%Z /\
    Forall (Z.le 5000) (delays t).
Proof.
  destruct (backoff_waits_never_shrink backoff_config offline "rpc" "K" None 0 1 [])
    as [(b & t & Hrun & Hall & _) _].
  - vm_compute. discriminate.
  - vm_compute. discriminate.
  - exists b, t. split; [exact Hrun|]. split; [|exact Hall].
    vm_compute in Hrun. injection Hrun as <- <-. reflexivity.
Defined.

(** ** The key of [clam.js] *)

Lemma Trimmed_pad (a line b t : string) :
  allWhiteSpace a = true -> allWhiteSpace b = true ->
  Trimmed line t -> Trimmed (a +:+ line +:+ b) t.
Proof.
  intros Ha Hb (before & after & -> & Hbefore & Hafter & Hstart & Hend).
  exists (a +:+ before), (after +:+ b).
  rewrite !allWhiteSpace_append, Ha, Hb, Hbefore, Hafter.
  repeat split; try done. by rewrite !append_assoc.
Qed.

Lemma trim_pad (a s b : string) :
  allWhiteSpace a = true -> allWhiteSpace b = true ->
  trim (a +:+ s +:+ b) = trim s.
Proof.
  intros Ha Hb. symmetry. apply Trimmed_trim, Trimmed_pad; try done.
  apply trim_Trimmed.
Qed.

Lemma blank_allWhiteSpace (line : string) :
  nonEmpty (trim line) = false -> allWhiteSpace line = true.
Proof.
  intros Hblank.
  assert (trim line = "") as Hempty.
  { destruct (trim line); [done|]. discriminate. }
  destruct (trim_Trimmed line) as (before & after & Heq & Hbefore & Hafter & _).
  rewrite Hempty in Heq. rewrite Heq.
  by rewrite !allWhiteSpace_append, Hbefore, Hafter.
Qed.

Lemma blank_lines_join (lines : list string) :
  List.filter nonEmpty (List.map trim lines) = [] ->
  allWhiteSpace (join_lines lines) = true.
Proof.
  induction lines as [|l rest IH]; [done|].
  cbn [List.map List.filter]. destruct (nonEmpty (trim l)) eqn:E; [done|].
  intros Hrest. specialize (IH Hrest). apply blank_allWhiteSpace in E.
  destruct rest as [|r rest]; [done|].
  cbn [join_lines] in *. rewrite allWhiteSpace_append, E. simpl. exact IH.
Qed.

Lemma one_key_join (lines : list string) (k : string) :
  List.filter nonEmpty (List.map trim lines) = [k] ->
  trim (join_lines lines) = k.
Proof.
  induction lines as [|l rest IH]; [done|].
  cbn [List.map List.filter]. destruct (nonEmpty (trim l)) eqn:E.
  - intros [= Hk Hrest]. apply blank_lines_join in Hrest.
    destruct rest as [|r rest]; [done|].
    change (join_lines (l :: r :: rest))
      with ("" +:+ l +:+ String LF (join_lines (r :: rest))).
    rewrite trim_pad; [done|done|]. simpl. exact Hrest.
  - intros Hrest. apply blank_allWhiteSpace in E.
    destruct rest as [|r rest]; [done|]. specialize (IH Hrest).
    change (join_lines (l :: r :: rest))
      with (l +:+ String LF ("" +:+ join_lines (r :: rest))).
    rewrite <- (append_empty_r (join_lines (r :: rest))).
    change (l +:+ String LF ("" +:+ (join_lines (r :: rest) +:+ "")))
      with (l +:+ (String LF "" +:+ (join_lines (r :: rest) +:+ ""))).
    rewrite <- append_assoc.
    rewrite trim_pad; [exact IH| |done].
    by rewrite allWhiteSpace_append, E.
Qed.

(** X15 — The two loaders of a key agree on a file that holds one key: when
    [readPrivateKeys] finds exactly one key in a file, [readPrivateKey] of
    [clam.js] returns that key, blank lines and white space around it
    notwithstanding. *)
Theorem readPrivateKey_one_key (fs : FileSystem) (filePath k : string) :
  readPrivateKeys fs filePath = Ok [k] ->
  Clam.readPrivateKey fs filePath = Ok k.
Proof.
  unfold readPrivateKeys, Clam.readPrivateKey.
  destruct (readFileSync fs filePath) as [content|m]; [|done].
  intros [= Hkeys]. f_equal. unfold parseLines in Hkeys.
  destruct (join_split_lines content) as [Hjoin _].
  rewrite <- Hjoin at 1. by apply one_key_join.
Qed.

Lemma readPrivateKey_one_key_witness :
  Clam.readPrivateKey
    (fun _ => Readable (join_lines [""; "  0xabc " +:+ String "013" ""; " "; ""]))
    "pk.txt"
  = Ok "0xabc".
Proof.
  apply readPrivateKey_one_key. reflexivity.
Defined.

(** ** The rounds of [main] *)

Lemma mainRound_returns (cfg : Config) (W : World) (rpcUrl : string)
    (sched : Schedule) (tz : TimeZone) (privateKeys proxies : list string)
    (h : Trace) :
  exists t ms,
    Hum.mainRound cfg W rpcUrl sched tz privateKeys proxies h
    = (Ok tt, h ++ t ++ [EvDelay ms]) /\
    length (invocations t) = length privateKeys.
Proof.
  destruct (runClaimCycle_returns cfg W rpcUrl privateKeys proxies h)
    as (stats & l & t & Hrun & Hperm & _ & Hinv).
  unfold Hum.mainRound. unfold bind at 1. rewrite Hrun. unfold bind at 1.
  rewrite calculateNextRunTime_run. cbv zeta.
  unfold bind, newDate, delay, emit.
  eexists (t ++ [EvNow _; EvNow _]), _. split.
  - f_equal. rewrite <- !app_assoc. reflexivity.
  - rewrite invocations_app, Hinv, length_app, length_imap. simpl.
    rewrite Hperm. lia.
Qed.

Lemma mainRounds_returns (cfg : Config) (W : World) (rpcUrl : string)
    (sched : Schedule) (tz : TimeZone) (privateKeys proxies : list string)
    (rounds : nat) (h : Trace) :
  exists t,
    mainRounds cfg W rpcUrl sched tz privateKeys proxies rounds h
    = (Ok tt, h ++ t) /\
    length (invocations t) = rounds * length privateKeys /\
    rounds <= length (delays t) /\
    (rounds <> 0 -> exists ms, last t = Some (EvDelay ms)) /\
    (rounds = 0 -> t = []).
Proof.
  revert h. induction rounds as [|r IH]; intros h.
  - exists []. rewrite app_nil_r. by repeat split.
  - cbn [mainRounds]. unfold bind.
    destruct (mainRound_returns cfg W rpcUrl sched tz privateKeys proxies h)
      as (t1 & ms & -> & Hinv1).
    destruct (IH (h ++ t1 ++ [EvDelay ms]))
      as (t2 & -> & Hinv2 & Hdel2 & Hlast2 & Hnil2).
    exists ((t1 ++ [EvDelay ms]) ++ t2). split; [by rewrite <- !app_assoc|].
    rewrite !invocations_app, !delays_app, !length_app, Hinv1, Hinv2.
    assert (invocations [EvDelay ms] = []) as -> by done.
    assert (delays [EvDelay ms] = [ms]) as -> by done.
    simpl. split; [lia|]. split; [lia|]. split; [|done]. intros _.
    destruct r as [|r].
    + rewrite (Hnil2 eq_refl). exists ms. by rewrite app_nil_r, last_snoc.
    + destruct Hlast2 as [ms' Hlast]; [done|]. exists ms'.
      rewrite last_app, Hlast. done.
Qed.

(** X17 — [main] never leaves its loop and keeps no memory from one round to
    the next: however the calls to the chain went, each of the first
    [rounds] rounds completes, calls [claimReward] once per credential, and
    ends with a wait. *)
Theorem main_rounds_repeat (cfg : Config) (W : World) (rpcUrl : string)
    (sched : Schedule) (tz : TimeZone) (privateKeys proxies : list string)
    (rounds : nat) (h : Trace) :
  exists t,
    mainRounds cfg W rpcUrl sched tz privateKeys proxies rounds h
    = (Ok tt, h ++ t) /\
    length (invocations t) = rounds * length privateKeys /\
    rounds <= length (delays t) /\
    match rounds with
    | 0 => t = []
    | S _ => exists ms, last t = Some (EvDelay ms)
    end.
Proof.
  destruct (mainRounds_returns cfg W rpcUrl sched tz privateKeys proxies rounds h)
    as (t & Hrun & Hinv & Hdel & Hlast & Hnil).
  exists t. split; [done|]. split; [done|]. split; [done|].
  destruct rounds; [by apply Hnil|by apply Hlast].
Qed.

(** ** The duration of a cycle *)

Lemma roundMinutes_nearest (ms : Z) :
  (Hum.roundMinutes ms * 60000 - 30000 <= ms
   < Hum.roundMinutes ms * 60000 + 30000)%Z.
Proof.
  unfold Hum.roundMinutes.
  pose proof (Z.div_mod (2 * ms + 60000) 120000 ltac:(lia)) as Hdiv.
  pose proof (Z.mod_pos_bound (2 * ms + 60000) 120000 ltac:(lia)) as Hmod.
  lia.
Qed.

(** X18 — The times of a cycle's statistics are readings of the clock.
    A cycle is made of the draws of the shuffle, the reading that gives
    [startTime], the calls of [claimReward] with all that belongs to them,
    and the reading that gives [endTime], in this order and with nothing
    else; [durationMinutes] is the whole number of minutes nearest to their
    difference, half a minute counting as a full one. *)
Theorem runClaimCycle_duration (cfg : Config) (W : World) (rpcUrl : string)
    (privateKeys proxies : list string) (h : Trace) :
  exists stats t0 t1,
    Hum.runClaimCycle cfg W rpcUrl privateKeys proxies h
    = (Ok stats,
       h ++ t0 ++ [EvNow (Hum.startTime stats)] ++ t1
         ++ [EvNow (Hum.endTime stats)]) /\
    forallb isDraw t0 = true /\
    length t0 = length privateKeys - 1 /\
    length (invocations t1) = length privateKeys /\
    Hum.startTime stats = clock W (h ++ t0) /\
    Hum.endTime stats
    = clock W (h ++ t0 ++ [EvNow (Hum.startTime stats)] ++ t1) /\
    (Hum.durationMinutes stats * 60000 - 30000
     <= Hum.endTime stats - Hum.startTime stats
     < Hum.durationMinutes stats * 60000 + 30000)%Z.
Proof.
  unfold Hum.runClaimCycle, shuffleArray. unfold bind at 1.
  destruct (shuffle_from_draws W (length privateKeys - 1) privateKeys h)
    as (l & t0 & -> & Hperm & Hlen0 & Hdraws).
  unfold bind at 1, newDate. unfold bind at 1.
  destruct (cycleLoop_returns cfg W rpcUrl proxies (length l) l 0
              {| Hum.nSuccess := 0; Hum.nSkipped := 0; Hum.nFail := 0 |}
              ((h ++ t0) ++ [EvNow (clock W (h ++ t0))]))
    as (c & t1 & -> & Hinv).
  unfold bind at 1, ret.
  eexists (Hum.Build_CycleStats _ _ _ _ _ _ _), t0, t1.
  cbn [Hum.startTime Hum.endTime Hum.durationMinutes].
  rewrite <- !app_assoc.
  split; [reflexivity|]. split; [done|]. split; [done|].
  split; [by rewrite Hinv, length_imap, Hperm|].
  split; [done|]. split; [done|].
  apply roundMinutes_nearest.
Qed.

(** ** The two-wallet scenario on a chain that settles claims *)

Lemma claims_accepted (t : Trace) : claims t = [] -> accepted t = [].
Proof.
  induction t as [|e t IH]; [done|]. destruct e; try done.
Qed.

Section SettledAccounts.

Variable cfg : Config.
Variable W : World.
Variable rpcUrl : string.

Hypothesis fees : forall h, exists feeData, getFeeData W h = Ok feeData.
Hypothesis sends :
  forall h address feeData, exists tx, claimRewardTx W h address feeData = Ok tx.
Hypothesis confirms : forall h tx, exists receipt, txWait W h tx = Ok receipt.

(** A wallet with a reward to claim, on a chain where the reward reads zero
    once the claim is accepted: the claim is made and logged, and the
    wallet is counted as skipped. *)
Lemma cycleStep_claimed_settled (proxies : list string) (total : nat)
    (key address : string) (i : nat) (c : Hum.Counts) (h : Trace) :
  proxyAgent W (selectProxy proxies i) = Ok tt ->
  walletAddress W key = Ok address ->
  (forall h, address ∉ accepted h ->
     exists v, dailyRewardsAvailable W h address = Ok v /\ (0 < v)%Z) ->
  (forall h, address ∈ accepted h -> dailyRewardsAvailable W h address = Ok 0%Z) ->
  address ∉ accepted h ->
  exists t timestamp tx,
    Hum.cycleStep cfg W rpcUrl proxies total key i c h
    = (Ok {| Hum.nSuccess := Hum.nSuccess c;
             Hum.nSkipped := Hum.nSkipped c + 1;
             Hum.nFail := Hum.nFail c |}, h ++ t) /\
    claims t = [address] /\
    appended claim_log t = [logEntry timestamp i total address tx] /\
    appended claim_error_log t = [].
Proof.
  intros Hagent Hw Hpos Hzero Hfresh. unfold Hum.cycleStep. cbv zeta. unfold bind.
  set (p := selectProxy proxies i) in *.
  set (h0 := h ++ [EvClaimReward key p i total]).
  destruct (Hpos (h0 ++ [EvCreateProvider rpcUrl p])) as (v1 & Hv1 & Hp1).
  { subst h0. by rewrite !accepted_app, !app_nil_r. }
  set (h2 := (h0 ++ [EvCreateProvider rpcUrl p]) ++
             [EvDailyRewardsAvailable address (Ok v1)]).
  destruct (Hpos h2) as (v2 & Hv2 & Hp2).
  { subst h2 h0. by rewrite !accepted_app, !app_nil_r. }
  set (h3 := h2 ++ [EvDailyRewardsAvailable address (Ok v2)]).
  destruct (fees h3) as (feeData & Hfee).
  set (h4 := h3 ++ [EvGetFeeData (Ok feeData)]).
  destruct (sends h4 address feeData) as (tx & Htx).
  set (h5 := h4 ++ [EvClaim address (Ok tx)]).
  destruct (confirms h5 tx) as (receipt & Hrc).
  set (h6 := h5 ++ [EvWait tx (Ok receipt)]).
  set (h7 := h6 ++ [EvNow (clock W h6)] ++
             [EvAppendFile claim_log
                (logEntry (toISOString W (clock W h6)) i total address (hash receipt))]).
  assert (Hum.attempt W rpcUrl key p i total h0 = (Ok true, h7)) as Hatt.
  { rewrite attempt_run. cbv zeta. rewrite Hagent, Hw, Hv1.
    assert (forall X (x y : X), match v1 with 0%Z => x | _ => y end = y) as ->.
    { intros. destruct v1; [lia|done..]. }
    fold h2. rewrite Hv2. fold h3. rewrite submitClaim_run. cbv zeta.
    rewrite Hfee. fold h4. rewrite Htx. fold h5. rewrite Hrc. done. }
  rewrite (claimReward_first cfg W rpcUrl _ _ _ _ _ _ _ Hatt).
  rewrite (tally_run W rpcUrl _ _ _ _ _ Hagent Hw). cbv zeta.
  rewrite Hzero.
  2:{ subst h7 h6 h5. rewrite !accepted_app.
      assert (accepted [EvClaim address (Ok tx)] = [address]) as -> by done.
      assert (address ∈ [address]) as Hin by constructor.
      rewrite !elem_of_app. tauto. }
  match goal with |- context [randomPause cfg W i total ?hh] =>
    destruct (randomPause_run cfg W i total hh) as (t & -> & Hidle) end.
  apply idle_quiet in Hidle as (_ & Hcl & Happ).
  eexists ([_; _; _; _; _; _; _; _; _; _; _] ++ t), _, _. unfold ret.
  subst h7 h6 h5 h4 h3 h2 h0. rewrite <- !app_assoc.
  split; [reflexivity|]. rewrite claims_app, !appended_app, Hcl, !Happ.
  done.
Qed.

(** C2 — End to end on a chain that settles claims: two credentials [A] and
    [B], no proxy, every chain call succeeds, nothing to claim for the
    account of [A], and for the account of [B] a positive reward that reads
    zero once its claim is accepted.  Whatever order the shuffle picks, the
    account of [A] submits nothing, the account of [B] submits the only
    claim, the success log gains exactly one line, for that account, and the
    error log none: all as expected.  But the statistics are success 0,
    skipped 2, failed 0, total 2: the wallet that claimed is counted as
    skipped, because [runClaimCycle] asks for its reward once more after the
    claim. *)
Theorem two_wallets_claimed_counts_as_skipped (A B a b : string) (h : Trace) :
  walletAddress W A = Ok a ->
  walletAddress W B = Ok b ->
  (forall h, dailyRewardsAvailable W h a = Ok 0%Z) ->
  (forall h, b ∉ accepted h ->
     exists v, dailyRewardsAvailable W h b = Ok v /\ (0 < v)%Z) ->
  (forall h, b ∈ accepted h -> dailyRewardsAvailable W h b = Ok 0%Z) ->
  b ∉ accepted h ->
  exists stats t timestamp index tx,
    Hum.runClaimCycle cfg W rpcUrl [A; B] [] h = (Ok stats, h ++ t) /\
    Hum.successCount stats = 0 /\ Hum.skippedCount stats = 2 /\
    Hum.failCount stats = 0 /\ Hum.totalWallets stats = 2 /\
    claims t = [b] /\
    appended claim_log t = [logEntry timestamp index 2 b tx] /\
    appended claim_error_log t = [].
Proof.
  intros HwA HwB HzeroA Hpos Hzero Hfresh.
  unfold Hum.runClaimCycle, shuffleArray. unfold bind at 1.
  destruct (shuffle_from_run W (length [A; B] - 1) [A; B] h)
    as (l & t0 & -> & Hperm & Hidle0).
  apply idle_quiet in Hidle0 as (_ & Hcl0 & Happ0).
  unfold bind at 1, newDate.
  set (h1 := (h ++ t0) ++ [EvNow (clock W (h ++ t0))]).
  assert (b ∉ accepted h1) as Hfresh1.
  { subst h1. by rewrite !accepted_app, (claims_accepted _ Hcl0), !app_nil_r. }
  set (c0 := {| Hum.nSuccess := 0; Hum.nSkipped := 0; Hum.nFail := 0 |}).
  symmetry in Hperm. apply Permutation_length_2_inv in Hperm as [->| ->].
  - cbn [Hum.cycleLoop length]. unfold bind.
    destruct (cycleStep_skipped cfg W rpcUrl [] 2 A a 0 c0 h1 eq_refl HwA HzeroA)
      as (t1 & -> & Hcl1 & Happ1).
    destruct (cycleStep_claimed_settled [] 2 B b (0 + 1)
                {| Hum.nSuccess := Hum.nSuccess c0;
                   Hum.nSkipped := Hum.nSkipped c0 + 1;
                   Hum.nFail := Hum.nFail c0 |} (h1 ++ t1) eq_refl HwB Hpos Hzero)
      as (t2 & timestamp & tx & -> & Hcl2 & Hlog2 & Herr2).
    { by rewrite accepted_app, (claims_accepted _ Hcl1), app_nil_r. }
    unfold ret.
    eexists _, (t0 ++ [EvNow _] ++ t1 ++ t2 ++ [EvNow _]), timestamp, (0 + 1), tx.
    subst h1. rewrite <- !app_assoc. split; [reflexivity|].
    rewrite !claims_app, !appended_app, Hcl0, Hcl1, Hcl2, !Happ0, !Happ1,
      Hlog2, Herr2.
    done.
  - cbn [Hum.cycleLoop length]. unfold bind.
    destruct (cycleStep_claimed_settled [] 2 B b 0 c0 h1 eq_refl HwB Hpos Hzero
                Hfresh1)
      as (t1 & timestamp & tx & -> & Hcl1 & Hlog1 & Herr1).
    destruct (cycleStep_skipped cfg W rpcUrl [] 2 A a (0 + 1)
                {| Hum.nSuccess := Hum.nSuccess c0;
                   Hum.nSkipped := Hum.nSkipped c0 + 1;
                   Hum.nFail := Hum.nFail c0 |} (h1 ++ t1) eq_refl HwA HzeroA)
      as (t2 & -> & Hcl2 & Happ2).
    unfold ret.
    eexists _, (t0 ++ [EvNow _] ++ t1 ++ t2 ++ [EvNow _]), timestamp, 0, tx.
    subst h1. rewrite <- !app_assoc. split; [reflexivity|].
    rewrite !claims_app, !appended_app, Hcl0, Hcl1, Hcl2, !Happ0, !Happ2,
      Hlog1, Herr1.
    done.
Qed.

End SettledAccounts.

Lemma existsb_eqb_elem_of (a : string) (l : list string) :
  existsb (String.eqb a) l = true <-> a ∈ l.
Proof.
  rewrite existsb_exists. split.
  - intros (x & Hin & ->%String.eqb_eq). by apply list_elem_of_In.
  - intros Hin. exists a. split; [by apply list_elem_of_In|apply String.eqb_refl].
Qed.

Lemma two_wallets_claimed_counts_as_skipped_witness :
  exists stats t,
    Hum.runClaimCycle hum_config (claimOnceWorld rewardAB) "rpc" ["A"; "B"] [] []
    = (Ok stats, t) /\
    Hum.successCount stats = 0 /\ Hum.skippedCount stats = 2 /\
    Hum.failCount stats = 0 /\ Hum.totalWallets stats = 2 /\
    claims t = ["addr:B"] /\
    length (appended claim_log t) = 1.
Proof.
  assert (forall h : Trace, exists feeData,
            getFeeData (claimOnceWorld rewardAB) h = Ok feeData) as Hfees.
  { intros h. eexists. reflexivity. }
  assert (forall (h : Trace) (address : string) (feeData : FeeData), exists tx,
            claimRewardTx (claimOnceWorld rewardAB) h address feeData = Ok tx)
    as Hsends.
  { intros h address feeData. eexists. reflexivity. }
  assert (forall (h : Trace) (tx : string), exists receipt,
            txWait (claimOnceWorld rewardAB) h tx = Ok receipt) as Hconfirms.
  { intros h tx. eexists. reflexivity. }
  assert (forall h : Trace,
            dailyRewardsAvailable (claimOnceWorld rewardAB) h "addr:A" = Ok 0%Z)
    as HzeroA.
  { intros h. cbn [dailyRewardsAvailable claimOnceWorld].
    by destruct (existsb (String.eqb "addr:A") (accepted h)). }
  assert (forall h : Trace, "addr:B" ∉ accepted h -> exists v,
            dailyRewardsAvailable (claimOnceWorld rewardAB) h "addr:B" = Ok v /\
            (0 < v)%Z) as Hpos.
  { intros h Hfresh. cbn [dailyRewardsAvailable claimOnceWorld].
    destruct (existsb (String.eqb "addr:B") (accepted h)) eqn:E.
    - by apply existsb_eqb_elem_of in E.
    - eexists. split; [reflexivity|]. reflexivity. }
  assert (forall h : Trace, "addr:B" ∈ accepted h ->
            dailyRewardsAvailable (claimOnceWorld rewardAB) h "addr:B" = Ok 0%Z)
    as Hzero.
  { intros h Hin%existsb_eqb_elem_of. cbn [dailyRewardsAvailable claimOnceWorld].
    by rewrite Hin. }
  destruct (two_wallets_claimed_counts_as_skipped hum_config
              (claimOnceWorld rewardAB) "rpc"
              Hfees Hsends Hconfirms "A" "B" "addr:A" "addr:B" []
              eq_refl eq_refl HzeroA Hpos Hzero)
    as (stats & t & timestamp & index & tx & Hrun & H1 & H2 & H3 & H4 & H5 & H6 & _).
  { apply not_elem_of_nil. }
  exists stats, t. split; [exact Hrun|]. repeat (split; [assumption|]).
  rewrite H6. reflexivity.
Defined.
